(** * ai-stamp-batch: sticker post-processing and batch polling

    A shallow embedding of the request handlers of the repository
    ([app/api/generate], [app/api/batch], [app/api/batch-csv]) and of the
    two raster algorithms they share ([makeInteriorOpaquePngBase64] and
    [resizeContainBilinear]), of the prompt builder of [app/api/batch-csv]
    and of the CSV reader of the page ([parseCsv]), followed by the
    properties the specification states about them and by further
    properties of the code.

    Conventions.
    - JavaScript numbers that hold integers are [Z]; the conversions the
      typed arrays and [| 0] perform are written out ([toInt32], [toInt16],
      [toUint8]).
    - Typed arrays ([Buffer], [Uint8Array], [Int16Array], [Int32Array]) are
      [list Z] of fixed length; a read out of range is [None] (undefined), a
      write out of range is dropped.
    - The floating-point arithmetic of the resizer is binary64, as in
      JavaScript: Rocq's primitive floats.
    - JavaScript strings are lists of UTF-16 code units. *)

From Stdlib Require Import ZArith Lia List Bool String Ascii DecimalString.
From Stdlib Require DecimalPos DecimalZ.
From Stdlib Require Import PrimFloat FloatOps SpecFloat Uint63 FloatAxioms.
From stdpp Require Import base tactics option list.
Import ListNotations.
Local Open Scope Z_scope.

(** ** JavaScript values used by the raster code *)

Module JS.

(** Two's complement wrap-around to [bits] bits (ToInt32, ToInt16). *)
Definition wrap (bits : Z) (z : Z) : Z :=
  (z + 2 ^ (bits - 1)) mod 2 ^ bits - 2 ^ (bits - 1).

Definition toInt32 (z : Z) : Z := wrap 32 z.
Definition toInt16 (z : Z) : Z := wrap 16 z.
Definition toUint8 (z : Z) : Z := z mod 256.

(** [a[i]] on a typed array: undefined out of range. *)
Definition ta_get (a : list Z) (i : Z) : option Z :=
  if 0 <=? i then a !! Z.to_nat i else None.

(** [a[i] = v] on a typed array: dropped out of range, the length is fixed. *)
Definition ta_set (a : list Z) (i v : Z) : list Z :=
  if 0 <=? i then <[Z.to_nat i := v]> a else a.

(** [new Int32Array(n)] and friends, after an optional [fill(v)]. *)
Definition ta_new (n : Z) (v : Z) : list Z := replicate (Z.to_nat n) v.

(** [o === v] and [o !== v] for a possibly undefined number [o]. *)
Definition js_eq (o : option Z) (v : Z) : bool :=
  match o with Some a => a =? v | None => false end.
Definition js_ne (o : option Z) (v : Z) : bool := negb (js_eq o v).

(** [o > v]: false on undefined (NaN). *)
Definition js_gt (o : option Z) (v : Z) : bool :=
  match o with Some a => v <? a | None => false end.

(** Truthiness of a possibly undefined number. *)
Definition truthy (o : option Z) : bool :=
  match o with Some a => negb (a =? 0) | None => false end.

End JS.
Import JS.

(** ** Decoded images *)

(** The object [PNG.sync.read] returns: dimensions and a flat RGBA8 buffer. *)
Record PNG := mkPNG { width : Z; height : Z; data : list Z }.

(** ** AlphaNormalizer: [makeInteriorOpaquePngBase64] on the decoded raster *)

Module AlphaNormalizer.

Definition KEEP_EDGE_PX : Z := 2.

(** [const alphaAt = (p) => data[p * 4 + 3]] *)
Definition alphaAt (data : list Z) (p : Z) : option Z := ta_get data (p * 4 + 3).

(** *** Phase 1: fill enclosed transparency holes *)

(** [bg], [q2], [h2], [t2] of the first block. *)
Record fill_state := mkFill { bg : list Z; q2 : list Z; h2 : Z; t2 : Z }.

Definition pushIfTransparent (w : Z) (data : list Z) (s : fill_state) (x y : Z)
  : fill_state :=
  let p := y * w + x in
  if js_ne (alphaAt data p) 0 then s
  else if truthy (ta_get (bg s) p) then s
  else {| bg := ta_set (bg s) p (toUint8 1);
          q2 := ta_set (q2 s) (t2 s) (toInt32 p);
          h2 := h2 s;
          t2 := t2 s + 1 |}.

(** The two seeding loops over the canvas border. *)
Definition seed_border (w h : Z) (data : list Z) (s : fill_state) : fill_state :=
  let s1 :=
    fold_left (fun s x =>
                 pushIfTransparent w data (pushIfTransparent w data s x 0) x (h - 1))
              (seqZ 0 w) s in
  fold_left (fun s y =>
               pushIfTransparent w data (pushIfTransparent w data s 0 y) (w - 1) y)
            (seqZ 0 h) s1.

(** One iteration of [while (h2 < t2)]. An undefined [q2[h2]] makes every
    coordinate NaN: no push passes its test. *)
Definition flood_step (w h : Z) (data : list Z) (s : fill_state) : fill_state :=
  let s0 := {| bg := bg s; q2 := q2 s; h2 := h2 s + 1; t2 := t2 s |} in
  match ta_get (q2 s) (h2 s) with
  | None => s0
  | Some p =>
      let x := Z.rem p w in
      let y := toInt32 (Z.quot p w) in
      let s1 := if 0 <? x then pushIfTransparent w data s0 (x - 1) y else s0 in
      let s2 := if x + 1 <? w then pushIfTransparent w data s1 (x + 1) y else s1 in
      let s3 := if 0 <? y then pushIfTransparent w data s2 x (y - 1) else s2 in
      if y + 1 <? h then pushIfTransparent w data s3 x (y + 1) else s3
  end.

(** [while (h2 < t2) { ... }]; [None] when the fuel runs out first. *)
Fixpoint flood (fuel : nat) (w h : Z) (data : list Z) (s : fill_state)
  : option fill_state :=
  if h2 s <? t2 s then
    match fuel with
    | O => None
    | S fuel' => flood fuel' w h data (flood_step w h data s)
    end
  else Some s.

(** The final loop of the block: every alpha 0 pixel the flood did not mark
    becomes opaque white. *)
Definition fill_pixel (bgm : list Z) (d : list Z) (p : Z) : list Z :=
  if js_ne (alphaAt d p) 0 then d
  else if truthy (ta_get bgm p) then d
  else
    let d0 := ta_set d (p * 4 + 0) (toUint8 255) in
    let d1 := ta_set d0 (p * 4 + 1) (toUint8 255) in
    let d2 := ta_set d1 (p * 4 + 2) (toUint8 255) in
    ta_set d2 (p * 4 + 3) (toUint8 255).

Definition fill_holes (size : Z) (bgm : list Z) (d : list Z) : list Z :=
  fold_left (fill_pixel bgm) (seqZ 0 size) d.

Definition flood_init (size : Z) : fill_state :=
  {| bg := ta_new size 0; q2 := ta_new size 0; h2 := 0; t2 := 0 |}.

(** The flood of the first block, up to the end of its [while] loop. *)
Definition flood_fill (w h : Z) (d : list Z) : option fill_state :=
  let size := w * h in
  flood (Z.to_nat size) w h d (seed_border w h d (flood_init size)).

Definition phase1 (w h : Z) (d : list Z) : option (list Z) :=
  match flood_fill w h d with
  | Some s => Some (fill_holes (w * h) (bg s) d)
  | None => None
  end.

(** *** Phase 2: distance from the edge, interior clamp *)

(** [dist], [q], [head], [tail]. *)
Record dist_state := mkDist { dist : list Z; q : list Z; head : Z; tail : Z }.

(** The neighbour test of the edge detection, for one offset. *)
Definition edge_probe (w h : Z) (d : list Z) (x y dx dy : Z) : bool :=
  if (dx =? 0) && (dy =? 0) then false
  else
    let nx := x + dx in
    let ny := y + dy in
    if (nx <? 0) || (ny <? 0) || (nx >=? w) || (ny >=? h) then true
    else js_eq (alphaAt d (ny * w + nx)) 0.

(** The two nested offset loops; both stop at the first hit. *)
Definition isEdge (w h : Z) (d : list Z) (x y : Z) : bool :=
  existsb (fun dy => existsb (fun dx => edge_probe w h d x y dx dy) [-1; 0; 1])
          [-1; 0; 1].

Definition seed_pixel (w h : Z) (d : list Z) (y : Z) (s : dist_state) (x : Z)
  : dist_state :=
  let p := y * w + x in
  if js_eq (alphaAt d p) 0 then s
  else if isEdge w h d x y then
    {| dist := ta_set (dist s) p (toInt16 0);
       q := ta_set (q s) (tail s) (toInt32 p);
       head := head s;
       tail := tail s + 1 |}
  else s.

Definition seed_edges (w h : Z) (d : list Z) (s : dist_state) : dist_state :=
  fold_left (fun s y => fold_left (seed_pixel w h d y) (seqZ 0 w) s) (seqZ 0 h) s.

(** The body of [for (const [nx, ny] of neigh)]; [dv] is [dist[p]]. With
    [dv] undefined, [d + 1] is NaN, which an [Int16Array] stores as 0. *)
Definition visit (w h : Z) (d : list Z) (dv : option Z) (s : dist_state) (n : Z * Z)
  : dist_state :=
  let '(nx, ny) := n in
  if (nx <? 0) || (ny <? 0) || (nx >=? w) || (ny >=? h) then s
  else
    let np := ny * w + nx in
    if js_eq (alphaAt d np) 0 then s
    else if js_ne (ta_get (dist s) np) (-1) then s
    else
      {| dist := ta_set (dist s) np
                   match dv with Some v => toInt16 (v + 1) | None => 0 end;
         q := ta_set (q s) (tail s) (toInt32 np);
         head := head s;
         tail := tail s + 1 |}.

(** One iteration of [while (head < tail)]. An undefined [q[head]] makes
    every coordinate NaN: no neighbour passes the tests. *)
Definition bfs_step (w h : Z) (d : list Z) (s : dist_state) : dist_state :=
  let s0 := {| dist := dist s; q := q s; head := head s + 1; tail := tail s |} in
  match ta_get (q s) (head s) with
  | None => s0
  | Some p =>
      let x := Z.rem p w in
      let y := toInt32 (Z.quot p w) in
      fold_left (visit w h d (ta_get (dist s) p))
                [(x - 1, y); (x + 1, y); (x, y - 1); (x, y + 1)] s0
  end.

Fixpoint bfs (fuel : nat) (w h : Z) (d : list Z) (s : dist_state)
  : option dist_state :=
  if head s <? tail s then
    match fuel with
    | O => None
    | S fuel' => bfs fuel' w h d (bfs_step w h d s)
    end
  else Some s.

(** The last loop: [if (d > KEEP_EDGE_PX) data[p * 4 + 3] = 255]. *)
Definition clamp_pixel (dm : list Z) (d : list Z) (p : Z) : list Z :=
  if js_eq (alphaAt d p) 0 then d
  else if js_gt (ta_get dm p) KEEP_EDGE_PX then ta_set d (p * 4 + 3) (toUint8 255)
  else d.

Definition clamp_interior (size : Z) (dm : list Z) (d : list Z) : list Z :=
  fold_left (clamp_pixel dm) (seqZ 0 size) d.

Definition dist_init (size : Z) : dist_state :=
  {| dist := ta_new size (-1); q := ta_new size 0; head := 0; tail := 0 |}.

(** The distance map at the end of the second [while] loop. *)
Definition edge_distance (w h : Z) (d : list Z) : option dist_state :=
  let size := w * h in
  bfs (Z.to_nat size) w h d (seed_edges w h d (dist_init size)).

Definition phase2 (w h : Z) (d : list Z) : option (list Z) :=
  match edge_distance w h d with
  | Some s => Some (clamp_interior (w * h) (dist s) d)
  | None => None
  end.

(** The raster part of [makeInteriorOpaquePngBase64], between
    [PNG.sync.read] and [PNG.sync.write]. [None] only if a loop ran out of
    fuel, which [makeInteriorOpaque_total] excludes. *)
Definition makeInteriorOpaque (png : PNG) : option PNG :=
  match phase1 (width png) (height png) (data png) with
  | None => None
  | Some d1 =>
      match phase2 (width png) (height png) d1 with
      | None => None
      | Some d2 => Some {| width := width png; height := height png; data := d2 |}
      end
  end.

End AlphaNormalizer.

(** ** ContainResizer: [resizeContainBilinear] *)

Module ContainResizer.

(** A JavaScript number holding the integer [z] (exact below 2^53). *)
Definition of_Z (z : Z) : float :=
  if z <? 0 then PrimFloat.opp (PrimFloat.of_uint63 (Uint63.of_Z (- z)))
  else PrimFloat.of_uint63 (Uint63.of_Z z).

Definition is_nan (f : float) : bool := negb (PrimFloat.eqb f f).

(** [Math.min] and [Math.max] of two numbers: NaN if either is, -0 below +0. *)
Definition js_min (a b : float) : float :=
  if is_nan a || is_nan b then PrimFloat.nan
  else if PrimFloat.ltb a b then a
  else if PrimFloat.ltb b a then b
  else match PrimFloat.classify a with FloatClass.NZero => a | _ => b end.

Definition js_max (a b : float) : float :=
  if is_nan a || is_nan b then PrimFloat.nan
  else if PrimFloat.ltb a b then b
  else if PrimFloat.ltb b a then a
  else match PrimFloat.classify a with FloatClass.PZero => a | _ => b end.

(** The integer part of a finite number, rounded toward zero; [None] for
    NaN and the infinities. A finite binary64 is [(-1)^sg * m * 2^e]. *)
Definition SF_trunc (s : spec_float) : option Z :=
  match s with
  | S754_zero _ => Some 0
  | S754_finite sg m e =>
      let a := if 0 <=? e then Z.pos m * 2 ^ e else Z.pos m / 2 ^ (- e) in
      Some (if sg then - a else a)
  | _ => None
  end.

Definition truncZ (f : float) : option Z := SF_trunc (Prim2SF f).

(** [v | 0]: ToInt32, that is truncation then wrap-around; 0 for NaN and
    the infinities. *)
Definition js_or0 (f : float) : Z :=
  match truncZ f with Some z => toInt32 z | None => 0 end.

(** [Math.floor]. *)
Definition js_floor (f : float) : float :=
  match Prim2SF f with
  | S754_finite sg m e =>
      if 0 <=? e then f
      else if sg then of_Z (- ((Z.pos m + 2 ^ (- e) - 1) / 2 ^ (- e)))
      else of_Z (Z.pos m / 2 ^ (- e))
  | _ => f
  end.

(** [const clamp = (v, lo, hi) => Math.max(lo, Math.min(hi, v))] *)
Definition clamp (v lo hi : float) : float := js_max lo (js_min hi v).

(** [srcData[i]] for a number [i]: an element when [i] is an integer in
    range, undefined otherwise; undefined is NaN in the arithmetic that
    follows. *)
Definition index_of (f : float) : option Z :=
  match truncZ f with
  | Some z => if PrimFloat.eqb (of_Z z) f then Some z else None
  | None => None
  end.

Definition src_at (d : list Z) (i : float) : float :=
  match index_of i with
  | Some z => match ta_get d z with Some b => of_Z b | None => PrimFloat.nan end
  | None => PrimFloat.nan
  end.

Local Open Scope float_scope.

(** The placement of the scaled source inside the target. *)
Record placement := mkPlacement { scale : float; offX : float; offY : float }.

Definition place (src : PNG) (dstW dstH : Z) : placement :=
  let srcW := of_Z (width src) in
  let srcH := of_Z (height src) in
  let scale := js_min (of_Z dstW / srcW) (of_Z dstH / srcH) in
  let drawW := srcW * scale in
  let drawH := srcH * scale in
  {| scale := scale;
     offX := (of_Z dstW - drawW) / 2;
     offY := (of_Z dstH - drawH) / 2 |}.

(** The inverse map of destination pixel [(x, y)]. *)
Definition inv_x (pl : placement) (x : Z) : float := (of_Z x - offX pl) / scale pl.
Definition inv_y (pl : placement) (y : Z) : float := (of_Z y - offY pl) / scale pl.

(** [sx < 0 || sy < 0 || sx > srcW - 1 || sy > srcH - 1] *)
Definition outside (src : PNG) (sx sy : float) : bool :=
  (sx <? 0) || (sy <? 0) || (of_Z (width src) - 1 <? sx) || (of_Z (height src) - 1 <? sy).

(** The interpolated value [v] of channel [c] at source position [(sx, sy)]. *)
Definition interpolate (src : PNG) (sx sy : float) (c : Z) : float :=
  let srcW := of_Z (width src) in
  let srcH := of_Z (height src) in
  let x0 := js_floor sx in
  let y0 := js_floor sy in
  let x1 := clamp (x0 + 1) 0 (srcW - 1) in
  let y1 := clamp (y0 + 1) 0 (srcH - 1) in
  let tx := sx - x0 in
  let ty := sy - y0 in
  let p00 := (y0 * srcW + x0) * 4 in
  let p10 := (y0 * srcW + x1) * 4 in
  let p01 := (y1 * srcW + x0) * 4 in
  let p11 := (y1 * srcW + x1) * 4 in
  let v00 := src_at (data src) (p00 + of_Z c) in
  let v10 := src_at (data src) (p10 + of_Z c) in
  let v01 := src_at (data src) (p01 + of_Z c) in
  let v11 := src_at (data src) (p11 + of_Z c) in
  let v0 := v00 * (1 - tx) + v10 * tx in
  let v1 := v01 * (1 - tx) + v11 * tx in
  v0 * (1 - ty) + v1 * ty.

Local Close Scope float_scope.

(** The body of the two nested loops, for destination pixel [(x, y)]. The
    destination index [(y * dstW + x) * 4] is an integer below 2^53. *)
Definition draw_pixel (src : PNG) (dstW : Z) (pl : placement) (y : Z)
  (dst : list Z) (x : Z) : list Z :=
  let sx := inv_x pl x in
  let sy := inv_y pl y in
  if outside src sx sy then dst
  else
    let di := (y * dstW + x) * 4 in
    fold_left (fun dst c => ta_set dst (di + c) (toUint8 (js_or0 (interpolate src sx sy c))))
              [0; 1; 2; 3] dst.

(** The raster [resizeContainBilinear] hands to [PNG.sync.write]:
    [new PNG({ width: dstW, height: dstH })], zero filled, then drawn. *)
Definition resizeContainBilinear (src : PNG) (dstW dstH : Z) : PNG :=
  let pl := place src dstW dstH in
  let dst0 := ta_new (dstW * dstH * 4) 0 in
  {| width := dstW;
     height := dstH;
     data := fold_left (fun dst y => fold_left (draw_pixel src dstW pl y) (seqZ 0 dstW) dst)
                       (seqZ 0 dstH) dst0 |}.

End ContainResizer.

(** ** The request handlers *)

Module Handlers.

(** *** Strings and JSON values *)

(** A JavaScript string: its UTF-16 code units. *)
Definition jstring := list Z.

(** An ASCII literal of the source. *)
Definition lit (s : string) : jstring :=
  map (fun a => Z.of_N (N_of_ascii a)) (list_ascii_of_string s).

(** [String(n)] for an integer [n]. *)
Definition dec (n : Z) : jstring := lit (NilZero.string_of_int (Z.to_int n)).

(** [s.padStart(n, "0")] *)
Definition padStart0 (n : nat) (s : jstring) : jstring :=
  replicate (n - length s) 48 ++ s.

(** White space and line terminators, as [String.prototype.trim] sees them. *)
Definition is_space (c : Z) : bool :=
  ((9 <=? c) && (c <=? 13)) || (c =? 32) || (c =? 160) || (c =? 5760) ||
  ((8192 <=? c) && (c <=? 8202)) || (c =? 8232) || (c =? 8233) || (c =? 8239) ||
  (c =? 8287) || (c =? 12288) || (c =? 65279).

Fixpoint trimStart (s : jstring) : jstring :=
  match s with
  | c :: rest => if is_space c then trimStart rest else s
  | [] => []
  end.

Definition trim (s : jstring) : jstring := rev (trimStart (rev (trimStart s))).

(** [s.slice(0, n)] *)
Definition slice0 (n : nat) (s : jstring) : jstring := take n s.

(** [lines.join("\n")] *)
Fixpoint join_lines (lines : list jstring) : jstring :=
  match lines with
  | [] => []
  | [l] => l
  | l :: rest => l ++ 10 :: join_lines rest
  end.

(** [text.split(/\r?\n/)]: cut at every line feed, dropping one carriage
    return right before it; [cur] is the current piece, reversed. *)
Fixpoint split_lines (text : jstring) (cur : jstring) : list jstring :=
  match text with
  | [] => [rev cur]
  | c :: rest =>
      if c =? 10 then
        rev (match cur with 13 :: cur' => cur' | _ => cur end) :: split_lines rest []
      else split_lines rest (c :: cur)
  end.

(** [.filter(Boolean)] on strings: the empty ones go. *)
Definition nonempty (s : jstring) : bool := match s with [] => false | _ => true end.

(** What [JSON.parse] returns. Numbers are kept as integers: no handler
    computes with them. *)
#[local] Unset Elimination Schemes.
Inductive json :=
| JNull
| JBool (b : bool)
| JNum (n : Z)
| JStr (s : jstring)
| JArr (items : list json)
| JObj (fields : list (jstring * json)).
#[local] Set Elimination Schemes.

Fixpoint assoc (k : jstring) (fields : list (jstring * json)) : option json :=
  match fields with
  | [] => None
  | (k', v) :: rest => if decide (k' = k) then Some v else assoc k rest
  end.

(** [v.k] for a value [v] that is not null; [None] is undefined. *)
Definition prop (v : json) (k : jstring) : option json :=
  match v with JObj fields => assoc k fields | _ => None end.

(** [v?.k] *)
Definition opt_prop (v : option json) (k : jstring) : option json :=
  match v with
  | None | Some JNull => None
  | Some v' => prop v' k
  end.

(** [v?.[0]] *)
Definition opt_first (v : option json) : option json :=
  match v with
  | Some (JArr (x :: _)) => Some x
  | Some (JStr (c :: _)) => Some (JStr [c])
  | Some (JObj fields) => assoc (lit "0") fields
  | _ => None
  end.

(** [v === s] for a string [s] *)
Definition is_string (v : option json) (s : jstring) : bool :=
  match v with Some (JStr s') => bool_decide (s' = s) | _ => false end.

(** [!v] *)
Definition falsy (v : option json) : bool :=
  match v with
  | None | Some JNull | Some (JBool false) | Some (JNum 0) | Some (JStr []) => true
  | _ => false
  end.

(** *** The upstream service and the handlers' replies *)

(** The body of an image generation request; size, count, background and
    output format are constants of the source. *)
Record image_body := mkBody { ib_model : jstring; ib_prompt : jstring; ib_quality : jstring }.

(** One record of a submission artifact: method and target endpoint are
    constants of the source. *)
Record batch_line := mkLine { bl_custom_id : jstring; bl_body : image_body }.

(** The requests the handlers send to the upstream service. *)
Inductive request :=
| UploadBatchFile (jsonl : jstring)          (* POST /v1/files, purpose batch *)
| CreateBatch (input_file_id : option json)  (* POST /v1/batches, window 24h *)
| RetrieveBatch (batchId : option json)      (* GET /v1/batches/${batchId} *)
| FileContent (fileId : option json)         (* GET /v1/files/${outId}/content *)
| GenerateImage (body : image_body).         (* POST /v1/images/generations *)

Record http_response := mkResp { ok : bool; status : Z; body : jstring }.

(** [fetch] resolves with a response or rejects. *)
Inductive fetch_result := Responded (r : http_response) | Rejected (message : jstring).

(** An item of the payload of the batch submission endpoint, as its type
    annotation has it; [None] is a missing or null field. *)
Record item := mkItem { message : option jstring; keyword : option jstring }.

(** What [JSON.parse(payloadText)] gives, seen through the type annotation. *)
Inductive payload :=
| PayloadNull                              (* [payload.items] throws *)
| Payload (items : option (list item)).    (* [None]: [items] is no array *)

Record out_item := mkOut { o_custom_id : jstring; o_message : jstring; o_keyword : jstring }.

(** Everything the handlers take from their environment: the upstream
    service (its answer may depend on the requests sent before), the
    libraries ([JSON], [Buffer], pngjs) and the prompt composition, which the
    specification leaves out. *)
Record env := mkEnv {
  server : list request -> request -> fetch_result;
  JSON_parse : jstring -> json + jstring;           (* right: SyntaxError *)
  parse_payload : jstring -> payload + jstring;
  stringify_line : batch_line -> jstring;
  null_access : jstring;                            (* message of the TypeError *)
  random_suffix : jstring;                          (* Math.random().toString(16).slice(2) *)
  compose_prompt : jstring -> jstring -> jstring;   (* the prompt of /api/generate *)
  buildPrompt : jstring -> jstring -> jstring;      (* the prompt of /api/batch-csv *)
  b64decode : jstring -> list Z;                    (* Buffer.from(s, "base64") *)
  Buffer_from_object : json -> option (list Z);     (* Buffer.from(v, "base64"), v an
                                                       array or object; None: throws *)
  invalid_arg : jstring;                            (* message of Buffer.from's TypeError *)
  b64encode : list Z -> jstring;                    (* buf.toString("base64") *)
  png_read : list Z -> option PNG;                  (* PNG.sync.read; None: throws *)
  png_write : PNG -> option (list Z)                (* PNG.sync.write; None: throws *)
}.

(** [process.env] as the modules read it once. *)
Record config := mkConfig {
  OPENAI_API_KEY : option jstring;
  IMAGE_MODEL : jstring;
  IMAGE_QUALITY : jstring;
  USE_BATCH : bool;
  BATCH_POLL_TIMEOUT_MS : Z;
  BATCH_POLL_INTERVAL_MS : Z
}.

Definition OUTPUT_WIDTH : Z := 370.
Definition OUTPUT_HEIGHT : Z := 320.

Inductive reply_body :=
| ErrorJson (error : jstring)
| PendingJson (batch_id : option json) (custom_id : jstring)
| BatchJson (batch_id : option json) (items : list out_item)
| Image (bytes : list Z).

Record reply := mkReply { code : Z; content : reply_body }.

(** *** Effects: the clock, the requests sent, exceptions *)

Record world := mkWorld { clock : Z; sent : list request }.

Inductive outcome (A : Type) :=
| Returned (a : A)
| Thrown (message : jstring)
| OutOfFuel.
Arguments Returned {A} a.
Arguments Thrown {A} message.
Arguments OutOfFuel {A}.

Definition M (A : Type) : Type := world -> outcome A * world.

Definition ret {A} (a : A) : M A := fun w => (Returned a, w).
Definition throw {A} (message : jstring) : M A := fun w => (Thrown message, w).
Definition bind {A B} (m : M A) (k : A -> M B) : M B :=
  fun w =>
    match m w with
    | (Returned a, w') => k a w'
    | (Thrown e, w') => (Thrown e, w')
    | (OutOfFuel, w') => (OutOfFuel, w')
    end.

Notation "'let*' x ':=' m 'in' k" := (bind m (fun x => k))
  (at level 10, x name, m at level 100, k at level 200).

(** [try { m } catch (e) { h e }] *)
Definition try_catch {A} (m : M A) (h : jstring -> M A) : M A :=
  fun w =>
    match m w with
    | (Thrown e, w') => h e w'
    | r => r
    end.

(** [Date.now()] *)
Definition now : M Z := fun w => (Returned (clock w), w).

(** [await new Promise((res) => setTimeout(res, ms))] *)
Definition sleep (ms : Z) : M unit :=
  fun w => (Returned tt, {| clock := clock w + ms; sent := sent w |}).

Section WithEnv.

Variable E : env.
Variable cfg : config.

(** [openaiFetch] and the direct [fetch]: the request is logged, the
    service answers at once. *)
Definition openaiFetch (r : request) : M http_response :=
  fun w =>
    let w' := {| clock := clock w; sent := sent w ++ [r] |} in
    match server E (sent w) r with
    | Responded resp => (Returned resp, w')
    | Rejected e => (Thrown e, w')
    end.

(** [await res.json()] *)
Definition res_json (r : http_response) : M json :=
  match JSON_parse E (body r) with
  | inl v => ret v
  | inr e => throw e
  end.

(** [v.k] where [v] may be null. *)
Definition prop_of (v : json) (k : jstring) : M (option json) :=
  match v with
  | JNull => throw (null_access E)
  | _ => ret (prop v k)
  end.

(** The message of an upstream failure: status and 200 code units of text. *)
Definition upstream_error (what : string) (r : http_response) : jstring :=
  lit what ++ lit " (" ++ dec (status r) ++ lit "): " ++ slice0 200 (body r).

(** *** [createSingleImageBatch] (/api/generate) *)

Definition createSingleImageBatch (b : image_body) : M (option json * jstring) :=
  let* t := now in
  let customId := lit "gen-" ++ dec t ++ lit "-" ++ random_suffix E in
  let jsonlLine := stringify_line E {| bl_custom_id := customId; bl_body := b |} ++ [10] in
  let* upRes := openaiFetch (UploadBatchFile jsonlLine) in
  if negb (ok upRes) then throw (upstream_error "OpenAI file upload failed" upRes)
  else
    let* up := res_json upRes in
    let* up_id := prop_of up (lit "id") in
    let* batchRes := openaiFetch (CreateBatch up_id) in
    if negb (ok batchRes) then throw (upstream_error "OpenAI batch create failed" batchRes)
    else
      let* batch := res_json batchRes in
      let* batch_id := prop_of batch (lit "id") in
      ret (batch_id, customId).

(** *** [tryGetBatchResultImageBase64] (/api/generate and /api/batch) *)

Inductive poll_result :=
| NotDone (status : option json)   (* { done: false, status } *)
| Done (b64 : jstring).            (* { done: true, b64 } *)

(** [obj?.response?.body?.data?.[0]?.b64_json] *)
Definition payload_of (obj : json) : option json :=
  opt_prop (opt_first (opt_prop (opt_prop (opt_prop (Some obj) (lit "response"))
                                          (lit "body")) (lit "data")))
           (lit "b64_json").

(** The body of the [for] loop over the lines: [Some b64] when it returns.
    A line that does not parse, or parses to null, throws inside the [try]
    and is skipped. *)
Definition scan_line (customId : jstring) (line : jstring) : option jstring :=
  match JSON_parse E line with
  | inr _ => None
  | inl JNull => None
  | inl obj =>
      if negb (is_string (prop obj (lit "custom_id")) customId) then None
      else
        match payload_of obj with
        | Some (JStr (c :: b64)) => Some (c :: b64)
        | _ => None
        end
  end.

Fixpoint scan_lines (customId : jstring) (lines : list jstring) : option jstring :=
  match lines with
  | [] => None
  | line :: rest =>
      match scan_line customId line with
      | Some b64 => Some b64
      | None => scan_lines customId rest
      end
  end.

Definition output_lines (text : jstring) : list jstring :=
  filter (fun l => nonempty l = true) (split_lines text []).

Definition tryGetBatchResultImageBase64 (batchId : option json) (customId : jstring)
  : M poll_result :=
  let* stRes := openaiFetch (RetrieveBatch batchId) in
  if negb (ok stRes) then throw (upstream_error "OpenAI batch status failed" stRes)
  else
    let* st := res_json stRes in
    let* st_status := prop_of st (lit "status") in
    if negb (is_string st_status (lit "completed")) then
      ret (NotDone st_status)
    else
      let outId := prop st (lit "output_file_id") in
      if falsy outId then throw (lit "Batch completed but output_file_id is missing.")
      else
        let* outRes := openaiFetch (FileContent outId) in
        if negb (ok outRes) then
          throw (upstream_error "OpenAI batch output fetch failed" outRes)
        else
          match scan_lines customId (output_lines (body outRes)) with
          | Some b64 => ret (Done b64)
          | None => throw (lit "Batch completed but no matching image result was found.")
          end.

(** *** Post-processing of a resolved image (/api/generate and /api/batch) *)

(** [Buffer.from(v, "base64")] for a value [v] that came out of a JSON
    document: a string is decoded, whatever it holds; null, a boolean and a
    number are refused with a TypeError; an array or another object is
    converted or refused by the library. [None]: throws. *)
Definition Buffer_from (v : json) : option (list Z) :=
  match v with
  | JStr s => Some (b64decode E s)
  | JArr _ | JObj _ => Buffer_from_object E v
  | JNull | JBool _ | JNum _ => None
  end.

(** [makeInteriorOpaquePngBase64]: [None] when it throws. The raster part
    never fails on a decodable image ([makeInteriorOpaque_total]). The
    annotation of [b64] is [string]; the value is whatever the caller holds. *)
Definition makeInteriorOpaquePngBase64 (b64 : json) : option jstring :=
  match Buffer_from b64 with
  | None => None
  | Some input =>
      match png_read E input with
      | None => None
      | Some png =>
          match AlphaNormalizer.makeInteriorOpaque png with
          | None => None
          | Some out =>
              match png_write E out with
              | None => None
              | Some bytes => Some (b64encode E bytes)
              end
          end
      end
  end.

(** [resizeContainBilinear] up to the buffer [PNG.sync.write] returns. *)
Definition resize_to_buffer (srcPng : PNG) (dstW dstH : Z) : option (list Z) :=
  png_write E (ContainResizer.resizeContainBilinear srcPng dstW dstH).

(** From [let b64Fixed = b64] to the 200 response. The two stages sit in a
    [try] each; [Buffer.from(b64Fixed, "base64")] between them does not. *)
Definition postprocess (b64 : json) : M reply :=
  let b64Fixed :=
    match makeInteriorOpaquePngBase64 b64 with
    | Some fixed => JStr fixed
    | None => b64
    end in
  match Buffer_from b64Fixed with
  | None => throw (invalid_arg E)
  | Some pngBuf =>
      let outBuf :=
        match png_read E pngBuf with
        | None => pngBuf
        | Some srcPng =>
            match resize_to_buffer srcPng OUTPUT_WIDTH OUTPUT_HEIGHT with
            | Some buf => buf
            | None => pngBuf
            end
        end in
      ret {| code := 200; content := Image outBuf |}
  end.

(** [!OPENAI_API_KEY] *)
Definition no_api_key : bool :=
  match OPENAI_API_KEY cfg with
  | None | Some [] => true
  | _ => false
  end.

Definition key_missing : reply :=
  {| code := 500; content := ErrorJson (lit "OPENAI_API_KEY is not set on the server.") |}.

(** *** GET /api/batch *)

(** The [try] block of the handler. *)
Definition GET_batch_try (batch_id custom_id : option jstring) : M reply :=
  if no_api_key then ret key_missing
  else
    let batchId := default [] batch_id in
    let customId := default [] custom_id in
    if negb (nonempty batchId) || negb (nonempty customId) then
      ret {| code := 400; content := ErrorJson (lit "batch_id and custom_id are required.") |}
    else
      let* r := tryGetBatchResultImageBase64 (Some (JStr batchId)) customId in
      match r with
      | NotDone _ =>
          ret {| code := 202; content := PendingJson (Some (JStr batchId)) customId |}
      | Done b64 => postprocess (JStr b64)
      end.

Definition GET_batch (batch_id custom_id : option jstring) : M reply :=
  try_catch (GET_batch_try batch_id custom_id)
    (fun _ =>
       ret {| code := 500; content := ErrorJson (lit "Unexpected server error in /api/batch") |}).

(** *** GET /api/generate *)

(** [while (Date.now() - started < BATCH_POLL_TIMEOUT_MS) { ... }]:
    [Some b64] after the [break], [None] when the loop ends by its test. *)
Fixpoint poll_loop (fuel : nat) (poller : M poll_result) (started : Z) : M (option jstring) :=
  fun w =>
    if clock w - started <? BATCH_POLL_TIMEOUT_MS cfg then
      match fuel with
      | O => (OutOfFuel, w)
      | S fuel' =>
          (let* r := poller in
           match r with
           | Done b64 => ret (Some b64)
           | NotDone _ =>
               let* _ := sleep (BATCH_POLL_INTERVAL_MS cfg) in
               poll_loop fuel' poller started
           end) w
      end
    else (Returned None, w).

(** The batch branch of the handler, from [createSingleImageBatch] to the
    test [if (!b64)]: a 202 reply, or the image. *)
Definition generate_by_batch (fuel : nat) (b : image_body) : M (reply + json) :=
  let* created := createSingleImageBatch b in
  let batch_id := fst created in
  let custom_id := snd created in
  let* started := now in
  let* r := poll_loop fuel (tryGetBatchResultImageBase64 batch_id custom_id) started in
  match r with
  | Some b64 => ret (inr (JStr b64))
  | None => ret (inl {| code := 202; content := PendingJson batch_id custom_id |})
  end.

(** [data.data?.[0]?.b64_json] for [data] other than null: the value as the
    upstream document has it; the annotation ([string]) tests nothing. *)
Definition direct_b64 (data : json) : option json :=
  opt_prop (opt_first (prop data (lit "data"))) (lit "b64_json").

(** The direct branch ([OPENAI_USE_BATCH=0]), up to the test [if (!b64)]. *)
Definition generate_direct (b : image_body) : M (reply + json) :=
  let* apiRes := openaiFetch (GenerateImage b) in
  if negb (ok apiRes) then
    ret (inl {| code := 500;
                content := ErrorJson (lit "OpenAI error (status " ++ dec (status apiRes) ++
                                      lit "): " ++ slice0 160 (body apiRes)) |})
  else
    let* data := res_json apiRes in
    match data with
    | JNull => throw (null_access E)
    | _ =>
        match direct_b64 data with
        | Some b64 =>
            if falsy (Some b64) then
              ret (inl {| code := 500;
                          content := ErrorJson (lit "No image data returned from API") |})
            else ret (inr b64)
        | None => ret (inl {| code := 500;
                              content := ErrorJson (lit "No image data returned from API") |})
        end
    end.

(** The [try] block of the handler. *)
Definition GET_generate_try (fuel : nat) (msg kw : option jstring) : M reply :=
  if no_api_key then ret key_missing
  else
    let b := {| ib_model := IMAGE_MODEL cfg;
                ib_prompt := compose_prompt E (default [] msg) (default [] kw);
                ib_quality := IMAGE_QUALITY cfg |} in
    let* r := if USE_BATCH cfg then generate_by_batch fuel b else generate_direct b in
    match r with
    | inl early => ret early
    | inr b64 => postprocess b64
    end.

Definition GET_generate (fuel : nat) (msg kw : option jstring) : M reply :=
  try_catch (GET_generate_try fuel msg kw)
    (fun _ =>
       ret {| code := 500;
              content := ErrorJson (lit "Unexpected server error in /api/generate") |}).

(** *** POST /api/batch-csv *)

(** [(x?.message ?? "").toString().trim()], and the same for the keyword. *)
Definition clean_item (x : item) : jstring * jstring :=
  (trim (default [] (message x)), trim (default [] (keyword x))).

(** [itemsIn.map(...).filter((x) => x.message.length > 0)] *)
Definition valid_items (itemsIn : list item) : list (jstring * jstring) :=
  filter (fun x => nonempty (fst x) = true) (map clean_item itemsIn).

(** [`csv-${ts}-${String(i + 1).padStart(4, "0")}`] *)
Definition csv_custom_id (ts : Z) (i : nat) : jstring :=
  lit "csv-" ++ dec ts ++ lit "-" ++ padStart0 4 (dec (Z.of_nat i + 1)).

(** The body of the [for] loop: the request line and the returned item. *)
Definition csv_line (ts : Z) (i : nat) (x : jstring * jstring) : jstring :=
  stringify_line E
    {| bl_custom_id := csv_custom_id ts i;
       bl_body := {| ib_model := IMAGE_MODEL cfg;
                     ib_prompt := buildPrompt E (fst x) (snd x);
                     ib_quality := IMAGE_QUALITY cfg |} |}.

Definition csv_out_item (ts : Z) (i : nat) (x : jstring * jstring) : out_item :=
  {| o_custom_id := csv_custom_id ts i; o_message := fst x; o_keyword := snd x |}.

(** [e?.message ? String(e.message) : "Unknown error"] *)
Definition error_text (e : jstring) : jstring :=
  match e with [] => lit "Unknown error" | _ => e end.

(** The [try] block of the handler; [payloadFile] is [None] when the form
    field is not a file. *)
Definition POST_batch_csv_try (payloadFile : option jstring) : M reply :=
    (if no_api_key then ret key_missing
     else
       match payloadFile with
       | None =>
           ret {| code := 400;
                  content := ErrorJson (lit "Missing payload (multipart form field 'payload').") |}
       | Some payloadText =>
           match parse_payload E payloadText with
           | inr e => throw e
           | inl PayloadNull => throw (null_access E)
           | inl (Payload its) =>
               let itemsIn := default [] its in
               let items := valid_items itemsIn in
               if (length items =? 0)%nat then
                 ret {| code := 400; content := ErrorJson (lit "No valid items in payload.") |}
               else
                 let* ts := now in
                 let lines := imap (csv_line ts) items in
                 let outItems := imap (csv_out_item ts) items in
                 let jsonl := join_lines lines ++ [10] in
                 let* upRes := openaiFetch (UploadBatchFile jsonl) in
                 if negb (ok upRes) then
                   ret {| code := 502;
                          content := ErrorJson (upstream_error "OpenAI file upload failed" upRes) |}
                 else
                   let* up := res_json upRes in
                   let* up_id := prop_of up (lit "id") in
                   let* batchRes := openaiFetch (CreateBatch up_id) in
                   if negb (ok batchRes) then
                     ret {| code := 502;
                            content := ErrorJson (upstream_error "OpenAI batch create failed" batchRes) |}
                   else
                     let* batch := res_json batchRes in
                     let* batch_id := prop_of batch (lit "id") in
                     ret {| code := 200; content := BatchJson batch_id outItems |}
           end
       end).

Definition POST_batch_csv (payloadFile : option jstring) : M reply :=
  try_catch (POST_batch_csv_try payloadFile)
    (fun e => ret {| code := 500; content := ErrorJson (error_text e) |}).

End WithEnv.

End Handlers.

(** ** The prompt of the batch submission endpoint *)

Module BatchPrompt.

Import Handlers.

(** A literal of the source with characters outside ASCII: the file holds
    it in UTF-8, a JavaScript string in UTF-16. *)
Fixpoint utf16 (bytes : list Z) : jstring :=
  match bytes with
  | [] => []
  | b1 :: rest =>
      if b1 <? 128 then b1 :: utf16 rest
      else
        match rest with
        | [] => []
        | b2 :: rest2 =>
            if b1 <? 224 then ((b1 - 192) * 64 + (b2 - 128)) :: utf16 rest2
            else
              match rest2 with
              | [] => []
              | b3 :: rest3 =>
                  if b1 <? 240 then
                    ((b1 - 224) * 4096 + (b2 - 128) * 64 + (b3 - 128)) :: utf16 rest3
                  else
                    match rest3 with
                    | [] => []
                    | b4 :: rest4 =>
                        let cp := (b1 - 240) * 262144 + (b2 - 128) * 4096 +
                                  (b3 - 128) * 64 + (b4 - 128) - 65536 in
                        (55296 + cp / 1024) :: (56320 + cp mod 1024) :: utf16 rest4
                    end
              end
        end
  end.

Definition str (s : string) : jstring := utf16 (lit s).

(** [s || d] for a string [s] *)
Definition or_else (s d : jstring) : jstring :=
  match s with [] => d | _ => s end.

Definition DEFAULT_TEXT : jstring := str "PayPay銀行へ入金よろしく".
Definition DEFAULT_THEME : jstring := str "麦色の毛の猫".

(** How the [i] flag compares the code units of the three patterns below:
    an ASCII letter by its upper case, any other code unit by itself (no
    other character has one of these as its upper case). *)
Definition canonicalize (c : Z) : Z :=
  if (97 <=? c) && (c <=? 122) then c - 32 else c.

Fixpoint starts_with_i (pattern s : jstring) : bool :=
  match pattern, s with
  | [], _ => true
  | _ :: _, [] => false
  | p :: pattern', c :: s' => (canonicalize p =? canonicalize c) && starts_with_i pattern' s'
  end.

(** [/pattern/i.test(s)] for a pattern of plain characters *)
Fixpoint test_i (pattern s : jstring) : bool :=
  starts_with_i pattern s ||
  match s with
  | [] => false
  | _ :: s' => test_i pattern s'
  end.

(** [/餅|もち|mochi/i.test(th)] *)
Definition isMochi (th : jstring) : bool :=
  test_i (str "餅") th || test_i (str "もち") th || test_i (lit "mochi") th.

Definition quoted (s : jstring) : jstring := [34] ++ s ++ [34].

Definition mochi_lines : list jstring :=
  [ lit "For a mochi (rice cake) character: render the body as pure opaque white, soft and slightly squishy.";
    lit "ABSOLUTE: Paint the mochi character with pure white (#FFFFFF) and fully opaque color (alpha=255).";
    lit "No wrappers, plates, packaging, or toppings unless requested." ].

Definition style_lines : list jstring :=
  [ lit "Generate a single LINE-style Japanese sticker illustration.";
    lit "Overall style: soft, cute, chibi-style character illustration.";
    lit "Use the 1024x1024 canvas broadly; make the composition big and readable.";
    lit "Background must be transparent.";
    lit "Create a solid white sticker backing with a thin light-gray outline; everything outside the backing is fully transparent.";
    lit "The character and Japanese text must be fully opaque (alpha=255). No translucency, no see-through.";
    lit "IMPORTANT: Do not depict or reference any third-party copyrighted/trademarked characters, logos, brands, or recognizable IP.";
    lit "CRITICAL: Render the Japanese message EXACTLY as provided, character-for-character. No typos. No missing or extra characters.";
    lit "If needed, reduce decorations to keep the characters exact and readable.";
    lit "Make the text very large, thick, and bold, like a typical flashy LINE sticker.";
    [] ].

Definition theme_line (th : jstring) : jstring :=
  lit "Character theme: " ++ quoted th ++ lit ".".

Definition message_line (t : jstring) : jstring :=
  lit "Include the Japanese message " ++ quoted t ++
  lit " inside the illustration as the ONLY text.".

Definition buildPrompt (text theme : jstring) : jstring :=
  let t := or_else (trim (or_else text [])) DEFAULT_TEXT in
  let th := or_else (trim (or_else theme [])) DEFAULT_THEME in
  let mochi := if isMochi th then mochi_lines else [] in
  join_lines (style_lines ++ [theme_line th] ++ mochi ++
              [message_line t; lit "Do not add any other text."]).

End BatchPrompt.

(** ** The CSV reader of the page *)

Module Client.

Import Handlers.

(** [rows], [cur], [field], [inQuotes] *)
Record csv_state := mkCsv {
  rows : list (list jstring);
  cur : list jstring;
  field : jstring;
  inQuotes : bool
}.

Definition pushField (s : csv_state) : csv_state :=
  {| rows := rows s; cur := cur s ++ [field s]; field := []; inQuotes := inQuotes s |}.

(** [cur.length === 1 && cur[0].trim() === ""] *)
Definition blank_row (cur : list jstring) : bool :=
  match cur with
  | [f] => negb (nonempty (trim f))
  | _ => false
  end.

Definition pushRow (s : csv_state) : csv_state :=
  if blank_row (cur s) then
    {| rows := rows s; cur := []; field := field s; inQuotes := inQuotes s |}
  else
    {| rows := rows s ++ [cur s]; cur := []; field := field s; inQuotes := inQuotes s |}.

(** [field += ch] *)
Definition append (s : csv_state) (ch : Z) : csv_state :=
  {| rows := rows s; cur := cur s; field := field s ++ [ch]; inQuotes := inQuotes s |}.

Definition set_inQuotes (s : csv_state) (b : bool) : csv_state :=
  {| rows := rows s; cur := cur s; field := field s; inQuotes := b |}.

(** The [for] loop over the code units of the text; the doubled quote
    inside quotes takes two of them ([i++]). *)
Fixpoint scan (text : jstring) (s : csv_state) : csv_state :=
  match text with
  | [] => s
  | ch :: rest =>
      if inQuotes s then
        if ch =? 34 then
          match rest with
          | 34 :: rest' => scan rest' (append s 34)
          | _ => scan rest (set_inQuotes s false)
          end
        else scan rest (append s ch)
      else if ch =? 34 then scan rest (set_inQuotes s true)
      else if ch =? 44 then scan rest (pushField s)
      else if ch =? 10 then scan rest (pushRow (pushField s))
      else if ch =? 13 then scan rest s
      else scan rest (append s ch)
  end.

(** The rows at the end of the first half of [parseCsv]. *)
Definition csv_rows (text : jstring) : list (list jstring) :=
  let s := pushField (scan text {| rows := []; cur := []; field := []; inQuotes := false |}) in
  rows (if (0 <? length (cur s))%nat then pushRow s else s).

(** [l.findIndex(p)]; [None] is -1. *)
Fixpoint findIndex {A} (p : A -> bool) (l : list A) : option nat :=
  match l with
  | [] => None
  | x :: rest => if p x then Some 0%nat else option_map S (findIndex p rest)
  end.

Section WithCase.

(** [String.prototype.toLowerCase], the case mapping of the engine. *)
Variable toLowerCase : jstring -> jstring.

Definition norm (s : jstring) : jstring := toLowerCase (trim s).

(** [["message", "text", "msg"].includes(norm(c))] *)
Definition names_message (c : jstring) : bool :=
  bool_decide (norm c ∈ [lit "message"; lit "text"; lit "msg"]).

(** [["keyword", "theme", "k"].includes(norm(c))] *)
Definition names_keyword (c : jstring) : bool :=
  bool_decide (norm c ∈ [lit "keyword"; lit "theme"; lit "k"]).

(** The body of the last loop: the row's message and keyword, or nothing
    when the message is empty. *)
Definition read_row (msgIdx keyIdx : nat) (row : list jstring) : option (jstring * jstring) :=
  let m := trim (default [] (row !! msgIdx)) in
  let k := trim (default [] (row !! keyIdx)) in
  if nonempty m then Some (m, k) else None.

Definition parseCsv (text : jstring) : list (jstring * jstring) :=
  let rows := csv_rows text in
  let header := match rows with r :: _ => r | [] => [] end in
  let hasHeader := existsb names_message header in
  let start := if hasHeader then 1%nat else 0%nat in
  let msgIdx := if hasHeader then default 0%nat (findIndex names_message header) else 0%nat in
  let keyIdx := if hasHeader then default 1%nat (findIndex names_keyword header) else 1%nat in
  omap (read_row msgIdx keyIdx) (drop start rows).

End WithCase.

(** The items [handleCsvUpload] posts, as the endpoint reads them back:
    [{ message: r.message, keyword: (r.keyword || keyword || "").trim() }],
    [keyword] being the text of the page's keyword box. *)
Definition upload_item (keyword : jstring) (r : jstring * jstring) : item :=
  {| message := Some (fst r);
     Handlers.keyword :=
       Some (trim (BatchPrompt.or_else (snd r) (BatchPrompt.or_else keyword []))) |}.

End Client.

(** ** What the specification says about rasters *)

Module Raster.

(** An image [PNG.sync.read] can hand to the raster code: positive
    dimensions, four bytes per pixel, and a pixel count that the [Int32Array]
    index queues and [(p / width) | 0] can represent. *)
Definition decodable (png : PNG) : Prop :=
  0 < width png ∧ 0 < height png ∧ width png * height png < 2 ^ 31 ∧
  Z.of_nat (length (data png)) = width png * height png * 4 ∧
  Forall (fun b => 0 <= b <= 255) (data png).

Definition in_bounds (w h x y : Z) : Prop := 0 <= x < w ∧ 0 <= y < h.

(** Channel [c] (0 red, 1 green, 2 blue, 3 alpha) of the pixel at [(x, y)]. *)
Definition channel (w : Z) (d : list Z) (x y c : Z) : option Z :=
  ta_get d ((y * w + x) * 4 + c).

Definition alpha (w : Z) (d : list Z) (x y : Z) : option Z := channel w d x y 3.

Definition on_border (w h x y : Z) : Prop :=
  x = 0 ∨ x = w - 1 ∨ y = 0 ∨ y = h - 1.

Definition adjacent4 (x y x' y' : Z) : Prop :=
  (x' = x - 1 ∧ y' = y) ∨ (x' = x + 1 ∧ y' = y) ∨
  (x' = x ∧ y' = y - 1) ∨ (x' = x ∧ y' = y + 1).

Definition adjacent8 (x y x' y' : Z) : Prop :=
  x - 1 <= x' <= x + 1 ∧ y - 1 <= y' <= y + 1 ∧ (x' ≠ x ∨ y' ≠ y).

(** A pixel of alpha 0 joined to the canvas border by 4-connected pixels of
    alpha 0: true background. *)
Inductive border_connected (w h : Z) (d : list Z) : Z -> Z -> Prop :=
| bc_border x y :
    in_bounds w h x y -> on_border w h x y -> alpha w d x y = Some 0 ->
    border_connected w h d x y
| bc_step x y x' y' :
    border_connected w h d x y -> adjacent4 x y x' y' ->
    in_bounds w h x' y' -> alpha w d x' y' = Some 0 ->
    border_connected w h d x' y'.

(** The same, as an explicit path from the pixel to the border. *)
Fixpoint transparent_path (w h : Z) (d : list Z) (x y : Z) (path : list (Z * Z))
  : Prop :=
  in_bounds w h x y ∧ alpha w d x y = Some 0 ∧
  match path with
  | [] => on_border w h x y
  | (x', y') :: rest => adjacent4 x y x' y' ∧ transparent_path w h d x' y' rest
  end.

(** Alpha greater than 0. *)
Definition opaque (w : Z) (d : list Z) (x y : Z) : Prop :=
  exists a, alpha w d x y = Some a ∧ a ≠ 0.

(** Edge pixels: alpha > 0, and on the canvas border or with an 8-neighbour
    of alpha 0. *)
Definition is_edge (w h : Z) (d : list Z) (x y : Z) : Prop :=
  in_bounds w h x y ∧ opaque w d x y ∧
  (on_border w h x y ∨
   exists x' y', adjacent8 x y x' y' ∧ in_bounds w h x' y' ∧ alpha w d x' y' = Some 0).

(** [edge_walk k x y]: [k] 4-connected steps through pixels of alpha > 0
    lead from some edge pixel to [(x, y)]. *)
Inductive edge_walk (w h : Z) (d : list Z) : nat -> Z -> Z -> Prop :=
| ew_edge x y : is_edge w h d x y -> edge_walk w h d 0 x y
| ew_step k x y x' y' :
    edge_walk w h d k x y -> adjacent4 x y x' y' ->
    in_bounds w h x' y' -> opaque w d x' y' ->
    edge_walk w h d (S k) x' y'.

(** The BFS distance of [(x, y)] to the nearest edge pixel is [k]: some walk
    has [k] steps and none is shorter. *)
Definition edge_dist (w h : Z) (d : list Z) (k : nat) (x y : Z) : Prop :=
  edge_walk w h d k x y ∧ forall j, edge_walk w h d j x y -> (k <= j)%nat.

(** An enclosed hole: alpha 0 and no transparent path to the border. *)
Definition enclosed_hole (w h : Z) (d : list Z) (x y : Z) : Prop :=
  alpha w d x y = Some 0 ∧ ¬ exists path, transparent_path w h d x y path.

End Raster.

(** * Properties *)

(** ** Typed arrays and integer conversions *)

Section TypedArrays.

Lemma toInt32_small z : - 2 ^ 31 <= z < 2 ^ 31 -> toInt32 z = z.
Proof.
  intros Hz. unfold toInt32, wrap.
  change (2 ^ (32 - 1)) with 2147483648 in *. change (2 ^ 32) with 4294967296.
  change (2 ^ 31) with 2147483648 in Hz.
  rewrite Z.mod_small by lia. lia.
Qed.

Lemma toInt16_small z : - 2 ^ 15 <= z < 2 ^ 15 -> toInt16 z = z.
Proof.
  intros Hz. unfold toInt16, wrap.
  change (2 ^ (16 - 1)) with 32768 in *. change (2 ^ 16) with 65536.
  change (2 ^ 15) with 32768 in Hz.
  rewrite Z.mod_small by lia. lia.
Qed.

Lemma ta_get_range a i v : ta_get a i = Some v -> 0 <= i < Z.of_nat (length a).
Proof.
  unfold ta_get. destruct (Z.leb_spec 0 i); [|done].
  intros Hl%lookup_lt_Some. lia.
Qed.

Lemma ta_get_is_Some a i : 0 <= i < Z.of_nat (length a) -> is_Some (ta_get a i).
Proof.
  intros Hi. unfold ta_get. destruct (Z.leb_spec 0 i); [|lia].
  apply lookup_lt_is_Some. lia.
Qed.

Lemma length_ta_set a i v : length (ta_set a i v) = length a.
Proof. unfold ta_set. destruct (0 <=? i); [apply length_insert|done]. Qed.

Lemma ta_get_set_eq a i v :
  0 <= i < Z.of_nat (length a) -> ta_get (ta_set a i v) i = Some v.
Proof.
  intros Hi. unfold ta_get, ta_set. destruct (Z.leb_spec 0 i); [|lia].
  apply list_lookup_insert_eq. lia.
Qed.

Lemma ta_get_set_ne a i j v : i ≠ j -> ta_get (ta_set a i v) j = ta_get a j.
Proof.
  intros Hij. unfold ta_get, ta_set.
  destruct (Z.leb_spec 0 j); [|done].
  destruct (Z.leb_spec 0 i); [|done].
  apply list_lookup_insert_ne. lia.
Qed.

Lemma length_ta_new n v : 0 <= n -> Z.of_nat (length (ta_new n v)) = n.
Proof. intros Hn. unfold ta_new. rewrite length_replicate. lia. Qed.

Lemma ta_get_new n v i : 0 <= i < n -> ta_get (ta_new n v) i = Some v.
Proof.
  intros Hi. unfold ta_get, ta_new. destruct (Z.leb_spec 0 i); [|lia].
  apply lookup_replicate_2. lia.
Qed.

(** Loops [for (let i = 0; i < n; i++)] carry an invariant indexed by [i]. *)
Lemma fold_seqZ_ind {St : Type} (P : Z -> St -> Prop) (f : St -> Z -> St) (n : Z) (s0 : St) :
  P 0 s0 ->
  (forall i s, 0 <= i < n -> P i s -> P (i + 1) (f s i)) ->
  P (Z.max 0 n) (fold_left f (seqZ 0 n) s0).
Proof.
  intros H0 Hstep.
  destruct (Z.le_gt_cases n 0) as [Hn|Hn].
  { rewrite seqZ_nil by lia. simpl. by replace (Z.max 0 n) with 0 by lia. }
  replace (Z.max 0 n) with n by lia.
  assert (Hgen : forall k : nat, Z.of_nat k <= n ->
            P (Z.of_nat k) (fold_left f (seqZ 0 (Z.of_nat k)) s0)).
  { induction k as [|k IH]; intros Hk.
    - simpl. exact H0.
    - rewrite seqZ_S, fold_left_app. simpl.
      replace (Z.of_nat (S k)) with (Z.of_nat k + 1) by lia.
      apply Hstep; [lia|]. apply IH. lia. }
  specialize (Hgen (Z.to_nat n)). rewrite Z2Nat.id in Hgen by lia.
  apply Hgen. lia.
Qed.

End TypedArrays.

(** ** Index queues *)

Section IndexQueue.

Variable size : Z.
Hypothesis size_nonneg : 0 <= size.
Hypothesis size_int32 : size < 2 ^ 31.

(** The entries written so far: [qa[0 .. t)]. *)
Definition qpre (qa : list Z) (t : Z) : list Z := take (Z.to_nat t) qa.

Lemma qpre_elem qa t p :
  p ∈ qpre qa t <-> exists i, 0 <= i < t ∧ ta_get qa i = Some p.
Proof.
  unfold qpre. rewrite elem_of_take. split.
  - intros (i & Hi & Hlt). exists (Z.of_nat i). split; [lia|].
    unfold ta_get. destruct (Z.leb_spec 0 (Z.of_nat i)); [|lia].
    by rewrite Nat2Z.id.
  - intros (i & Hi & Hg). exists (Z.to_nat i). unfold ta_get in Hg.
    destruct (Z.leb_spec 0 i); [|lia]. split; [done|lia].
Qed.

Lemma qpre_push qa t p :
  0 <= t < Z.of_nat (length qa) -> qpre (ta_set qa t p) (t + 1) = qpre qa t ++ [p].
Proof.
  intros Ht. unfold qpre, ta_set. destruct (Z.leb_spec 0 t); [|lia].
  replace (Z.to_nat (t + 1)) with (S (Z.to_nat t)) by lia.
  rewrite (take_S_r _ _ p) by (apply list_lookup_insert_eq; lia).
  by rewrite take_insert_ge by lia.
Qed.

Lemma length_qpre qa t :
  0 <= t <= Z.of_nat (length qa) -> Z.of_nat (length (qpre qa t)) = t.
Proof. intros Ht. unfold qpre. rewrite length_take_le by lia. lia. Qed.

(** Distinct indices below [size] are at most [size] many. *)
Lemma pigeonhole (l : list Z) :
  NoDup l -> (forall p, p ∈ l -> 0 <= p < size) -> Z.of_nat (length l) <= size.
Proof.
  intros Hnd Hr.
  assert (Hsub : l ⊆+ seqZ 0 size).
  { apply NoDup_submseteq; [done|]. intros p Hp. apply elem_of_seqZ.
    specialize (Hr p Hp). lia. }
  apply submseteq_length in Hsub. rewrite length_seqZ in Hsub. lia.
Qed.

(** The queue holds, once each, exactly the indices with the mark [M]. *)
Definition QInv (M : Z -> Prop) (qa : list Z) (t : Z) : Prop :=
  Z.of_nat (length qa) = size ∧ 0 <= t <= size ∧ NoDup (qpre qa t) ∧
  forall p, p ∈ qpre qa t <-> (0 <= p < size ∧ M p).

Lemma QInv_bound M qa t : QInv M qa t -> 0 <= t <= size.
Proof. by intros (Hl & Ht & Hnd & Hm). Qed.

Lemma QInv_room M qa t p : QInv M qa t -> 0 <= p < size -> ¬ M p -> t < size.
Proof.
  intros HQ Hp HM. pose proof (QInv_bound _ _ _ HQ) as Hb.
  destruct HQ as (Hl & Ht & Hnd & Hm).
  assert (Hpg : Z.of_nat (length (p :: qpre qa t)) <= size).
  { apply pigeonhole.
    - constructor; [|done]. intros Hin. apply Hm in Hin. tauto.
    - intros r [->|Hr]%elem_of_cons; [done|]. apply Hm in Hr. tauto. }
  simpl in Hpg. rewrite Nat2Z.inj_succ, length_qpre in Hpg by lia. lia.
Qed.

Lemma QInv_push M M' qa t p :
  QInv M qa t -> 0 <= p < size -> ¬ M p ->
  (forall r, M' r <-> M r ∨ r = p) ->
  QInv M' (ta_set qa t (toInt32 p)) (t + 1).
Proof.
  intros HQ Hp HM HM'.
  pose proof (QInv_room _ _ _ _ HQ Hp HM) as Hroom.
  destruct HQ as (Hl & Ht & Hnd & Hm).
  rewrite toInt32_small by lia.
  unfold QInv. rewrite length_ta_set, qpre_push by lia.
  split; [done|]. split; [lia|]. split.
  - apply NoDup_app. split; [done|]. split; [|apply NoDup_singleton].
    intros r Hr ->%list_elem_of_singleton. apply Hm in Hr. tauto.
  - intros r. rewrite elem_of_app, list_elem_of_singleton, Hm, HM'.
    split; [intros [[? ?]| ->]; auto|intros [? [?| ->]]; auto].
Qed.

Lemma QInv_get M qa t i :
  QInv M qa t -> 0 <= i < t -> exists p, ta_get qa i = Some p ∧ 0 <= p < size ∧ M p.
Proof.
  intros HQ Hi. pose proof (QInv_bound _ _ _ HQ) as Hb.
  destruct HQ as (Hl & Ht & Hnd & Hm).
  destruct (ta_get_is_Some qa i) as [p Hp]; [lia|].
  exists p. split; [done|]. apply Hm, qpre_elem. eauto.
Qed.

Lemma QInv_new M : (forall p, 0 <= p < size -> ¬ M p) -> QInv M (ta_new size 0) 0.
Proof.
  intros HM. unfold QInv. rewrite length_ta_new by done.
  split; [done|]. split; [lia|]. unfold qpre. simpl. split; [constructor|].
  intros p. split; [by intros ?%elem_of_nil|]. intros [? ?]. exfalso. eapply HM; eauto.
Qed.

End IndexQueue.

(** ** The alpha normalizer on a raster of known shape *)

Section Normalizer.

Import AlphaNormalizer Raster.

Variables (w h : Z) (d : list Z).
Hypothesis Hw : 0 < w.
Hypothesis Hh : 0 < h.
Hypothesis Hsz : w * h < 2 ^ 31.
Hypothesis Hlen : Z.of_nat (length d) = w * h * 4.

(** *** Phase 1: the flood marks exactly the border-connected pixels *)

Lemma size_nonneg : 0 <= w * h.
Proof. nia. Qed.

Lemma idx_range x y : in_bounds w h x y -> 0 <= y * w + x < w * h.
Proof. unfold in_bounds. nia. Qed.

Lemma idx_inj x y x' y' :
  in_bounds w h x y -> in_bounds w h x' y' -> y * w + x = y' * w + x' ->
  x = x' ∧ y = y'.
Proof. unfold in_bounds. intros ? ? ?. assert (y = y') by nia. subst. lia. Qed.

(** [p % width] and [(p / width) | 0] are the coordinates of pixel [p]. *)
Lemma idx_coords p :
  0 <= p < w * h ->
  in_bounds w h (Z.rem p w) (toInt32 (Z.quot p w)) ∧
  p = toInt32 (Z.quot p w) * w + Z.rem p w.
Proof.
  intros Hp.
  rewrite Z.rem_mod_nonneg, Z.quot_div_nonneg by lia.
  assert (Hm := Z.mod_pos_bound p w Hw).
  assert (Hd := Z.div_mod p w ltac:(lia)).
  assert (0 <= p / w < h) by (split; [apply Z.div_pos; lia|apply Z.div_lt_upper_bound; nia]).
  rewrite toInt32_small by nia.
  unfold in_bounds. lia.
Qed.

Lemma alphaAt_bounds x y : in_bounds w h x y -> is_Some (alphaAt d (y * w + x)).
Proof.
  intros Hb. apply ta_get_is_Some. pose proof (idx_range _ _ Hb). lia.
Qed.

Lemma js_ne_0 o : js_ne o 0 = false <-> o = Some 0.
Proof.
  unfold js_ne, js_eq. destruct o as [a|]; simpl; [|split; done].
  destruct (Z.eqb_spec a 0); simpl; split; intros; simplify_eq; done.
Qed.

Lemma js_eq_0 o : js_eq o 0 = true <-> o = Some 0.
Proof.
  unfold js_eq. destruct o as [a|]; simpl; [|split; done].
  destruct (Z.eqb_spec a 0); simpl; split; intros; simplify_eq; done.
Qed.

Definition marked (s : fill_state) (p : Z) : Prop := ta_get (bg s) p = Some 1.

(** What every state of the flood satisfies. *)
Record FInv (s : fill_state) : Prop := {
  fi_len : Z.of_nat (length (bg s)) = w * h;
  fi_val : forall p v, ta_get (bg s) p = Some v -> v = 0 ∨ v = 1;
  fi_queue : QInv (w * h) (marked s) (q2 s) (t2 s);
  fi_head : 0 <= h2 s <= t2 s;
  fi_sound : forall x y,
      in_bounds w h x y -> marked s (y * w + x) -> border_connected w h d x y
}.

(** Marks and queue entries are only ever added. *)
Definition grows (s s' : fill_state) : Prop :=
  (forall p, marked s p -> marked s' p) ∧ t2 s <= t2 s' ∧ h2 s' = h2 s ∧
  (forall i, 0 <= i < t2 s -> ta_get (q2 s') i = ta_get (q2 s) i).

Lemma grows_refl s : grows s s.
Proof. unfold grows. auto with lia. Qed.

Lemma grows_trans s1 s2 s3 : grows s1 s2 -> grows s2 s3 -> grows s1 s3.
Proof.
  intros (Hm1 & Ht1 & Hh1 & Hq1) (Hm2 & Ht2 & Hh2 & Hq2).
  split; [auto|]. split; [lia|]. split; [congruence|].
  intros i Hi. rewrite Hq2 by lia. by apply Hq1.
Qed.

Lemma push_spec s x y :
  FInv s -> in_bounds w h x y ->
  (alpha w d x y = Some 0 -> border_connected w h d x y) ->
  FInv (pushIfTransparent w d s x y) ∧ grows s (pushIfTransparent w d s x y) ∧
  (alpha w d x y = Some 0 -> marked (pushIfTransparent w d s x y) (y * w + x)).
Proof.
  intros HI Hb Hbc. unfold pushIfTransparent.
  change (alphaAt d (y * w + x)) with (alpha w d x y).
  pose proof (idx_range _ _ Hb) as Hp.
  destruct (js_ne (alpha w d x y) 0) eqn:Ha.
  { split; [done|]. split; [apply grows_refl|].
    intros Ha'. apply js_ne_0 in Ha'. congruence. }
  apply js_ne_0 in Ha. specialize (Hbc Ha).
  destruct (ta_get_is_Some (bg s) (y * w + x)) as [v Hv]; [rewrite (fi_len _ HI); lia|].
  rewrite Hv. simpl.
  destruct (fi_val _ HI _ _ Hv) as [-> | ->]; simpl.
  2:{ split; [done|]. split; [apply grows_refl|done]. }
  assert (Hnm : ¬ marked s (y * w + x)) by (unfold marked; congruence).
  pose proof (QInv_bound _ _ _ _ (fi_queue _ HI)) as Hb2.
  pose proof (QInv_room _ size_nonneg _ _ _ _ (fi_queue _ HI) Hp Hnm) as Hroom.
  change (toUint8 1) with 1.
  set (s' := {| bg := _ |}).
  assert (Hmk : forall r, marked s' r <-> marked s r ∨ r = y * w + x).
  { intros r. unfold marked, s'. simpl.
    destruct (decide (r = y * w + x)) as [->|Hne].
    - rewrite ta_get_set_eq by (rewrite (fi_len _ HI); lia). tauto.
    - rewrite ta_get_set_ne by done. tauto. }
  split; [|split].
  - constructor; simpl.
    + rewrite length_ta_set. apply HI.
    + intros p v. destruct (decide (p = y * w + x)) as [->|Hne].
      * rewrite ta_get_set_eq by (rewrite (fi_len _ HI); lia). intros; simplify_eq; auto.
      * rewrite ta_get_set_ne by done. apply HI.
    + eapply (QInv_push _ size_nonneg Hsz (marked s)); eauto. apply HI.
    + destruct (fi_head _ HI). lia.
    + intros x' y' Hb' [Hm| Hm]%Hmk; [by apply HI|].
      destruct (idx_inj _ _ _ _ Hb' Hb Hm) as [-> ->]. done.
  - split; [|split; [|split]]; simpl.
    + intros p Hm. apply Hmk. by left.
    + lia.
    + done.
    + intros i Hi. apply ta_get_set_ne. lia.
  - intros _. apply Hmk. by right.
Qed.

(** A push under the guard the loop body puts before it. *)
Lemma guarded_push_spec s (g : bool) x y :
  FInv s ->
  (g = true -> in_bounds w h x y ∧ (alpha w d x y = Some 0 -> border_connected w h d x y)) ->
  let s' := if g then pushIfTransparent w d s x y else s in
  FInv s' ∧ grows s s' ∧ (g = true -> alpha w d x y = Some 0 -> marked s' (y * w + x)).
Proof.
  intros HI Hg. destruct g; simpl.
  - destruct Hg as [Hb Hbc]; [done|].
    destruct (push_spec s x y HI Hb Hbc) as (? & ? & ?). auto.
  - split; [done|]. split; [apply grows_refl|done].
Qed.


Lemma FInv_init : FInv (flood_init (w * h)).
Proof.
  pose proof size_nonneg as Hs.
  constructor; simpl.
  - by apply length_ta_new.
  - intros p v Hg. pose proof (ta_get_range _ _ _ Hg) as Hr.
    rewrite length_ta_new in Hr by done. rewrite ta_get_new in Hg by done.
    simplify_eq. auto.
  - apply QInv_new; [done|]. intros p Hp. unfold marked. simpl.
    rewrite ta_get_new by done. congruence.
  - lia.
  - intros x y Hb. unfold marked. simpl.
    rewrite ta_get_new by (by apply idx_range). congruence.
Qed.

(** Every border pixel of alpha 0 is marked. *)
Definition Seeded (s : fill_state) : Prop :=
  forall x y, in_bounds w h x y -> on_border w h x y -> alpha w d x y = Some 0 ->
              marked s (y * w + x).

Lemma seed_border_spec :
  let s := seed_border w h d (flood_init (w * h)) in
  FInv s ∧ Seeded s ∧ h2 s = 0.
Proof.
  unfold seed_border.
  set (f1 := fun s x => pushIfTransparent w d (pushIfTransparent w d s x 0) x (h - 1)).
  set (f2 := fun s y => pushIfTransparent w d (pushIfTransparent w d s 0 y) (w - 1) y).
  set (P1 := fun (i : Z) (s : fill_state) =>
     FInv s ∧ h2 s = 0 ∧
     forall x, 0 <= x < i ->
       (alpha w d x 0 = Some 0 -> marked s (0 * w + x)) ∧
       (alpha w d x (h - 1) = Some 0 -> marked s ((h - 1) * w + x))).
  assert (H1 : P1 (Z.max 0 w) (fold_left f1 (seqZ 0 w) (flood_init (w * h)))).
  { apply fold_seqZ_ind.
    - split; [apply FInv_init|]. split; [done|]. intros; lia.
    - intros i s Hi (HI & Hh0 & Hm). unfold f1.
      assert (Hb0 : in_bounds w h i 0) by (unfold in_bounds; lia).
      assert (Hb1 : in_bounds w h i (h - 1)) by (unfold in_bounds; lia).
      destruct (push_spec s i 0 HI Hb0) as (HIa & Hga & Hma).
      { intros. apply bc_border; unfold on_border; auto. }
      destruct (push_spec _ i (h - 1) HIa Hb1) as (HIb & Hgb & Hmb).
      { intros. apply bc_border; unfold on_border; auto. }
      split; [done|]. split; [destruct Hga as (_ & _ & Ea & _), Hgb as (_ & _ & Eb & _); congruence|].
      intros x Hx. destruct (decide (x = i)) as [->|Hne].
      + split; [|done]. intros Ha. apply Hgb. auto.
      + destruct (Hm x ltac:(lia)) as [Hm0 Hm1].
        split; intros Ha; apply Hgb, Hga; auto. }
  replace (Z.max 0 w) with w in H1 by lia.
  set (s1 := fold_left f1 (seqZ 0 w) (flood_init (w * h))) in *.
  set (P2 := fun (i : Z) (s : fill_state) =>
     FInv s ∧ h2 s = 0 ∧ grows s1 s ∧
     forall y, 0 <= y < i ->
       (alpha w d 0 y = Some 0 -> marked s (y * w + 0)) ∧
       (alpha w d (w - 1) y = Some 0 -> marked s (y * w + (w - 1)))).
  assert (H2 : P2 (Z.max 0 h) (fold_left f2 (seqZ 0 h) s1)).
  { apply fold_seqZ_ind.
    - destruct H1 as (HI & Hh0 & _). split; [done|]. split; [done|].
      split; [apply grows_refl|]. intros; lia.
    - intros i s Hi (HI & Hh0 & Hg & Hm). unfold f2.
      assert (Hb0 : in_bounds w h 0 i) by (unfold in_bounds; lia).
      assert (Hb1 : in_bounds w h (w - 1) i) by (unfold in_bounds; lia).
      destruct (push_spec s 0 i HI Hb0) as (HIa & Hga & Hma).
      { intros. apply bc_border; unfold on_border; auto. }
      destruct (push_spec _ (w - 1) i HIa Hb1) as (HIb & Hgb & Hmb).
      { intros. apply bc_border; unfold on_border; auto. }
      split; [done|]. split; [destruct Hga as (_ & _ & Ea & _), Hgb as (_ & _ & Eb & _); congruence|].
      split; [eauto using grows_trans|].
      intros y Hy. destruct (decide (y = i)) as [->|Hne].
      + split; [|done]. intros Ha. apply Hgb. auto.
      + destruct (Hm y ltac:(lia)) as [Hm0 Hm1].
        split; intros Ha; apply Hgb, Hga; auto. }
  replace (Z.max 0 h) with h in H2 by lia.
  destruct H1 as (_ & _ & Hm1). destruct H2 as (HI & Hh0 & Hg & Hm2).
  split; [done|]. split; [|done].
  intros x y [Hx Hy] Hbd Ha. destruct Hbd as [-> | [-> | [-> | ->]]].
  - replace (y * w + 0) with (y * w + 0) by done. by apply (Hm2 y Hy).
  - by apply (Hm2 y Hy).
  - apply Hg. by apply (Hm1 x Hx).
  - apply Hg. by apply (Hm1 x Hx).
Qed.

(** Every dequeued pixel has had its four neighbours examined. *)
Definition Processed (s : fill_state) : Prop :=
  forall i x y x' y',
    0 <= i < h2 s -> in_bounds w h x y -> ta_get (q2 s) i = Some (y * w + x) ->
    adjacent4 x y x' y' -> in_bounds w h x' y' -> alpha w d x' y' = Some 0 ->
    marked s (y' * w + x').

Lemma flood_step_spec s :
  FInv s -> Seeded s -> Processed s -> h2 s < t2 s ->
  FInv (flood_step w h d s) ∧ Seeded (flood_step w h d s) ∧
  Processed (flood_step w h d s) ∧ h2 (flood_step w h d s) = h2 s + 1.
Proof.
  intros HI Hseed Hproc Hlt. unfold flood_step.
  destruct (QInv_get _ _ _ _ _ (fi_queue _ HI) (conj (proj1 (fi_head _ HI)) Hlt))
    as (p & Hp & Hpr & Hpm).
  rewrite Hp.
  destruct (idx_coords p Hpr) as [Hb Hpxy].
  set (x := Z.rem p w) in *. set (y := toInt32 (Z.quot p w)) in *.
  assert (Hbc : border_connected w h d x y).
  { apply (fi_sound _ HI); [done|]. by rewrite <- Hpxy. }
  set (s0 := {| bg := bg s; q2 := q2 s; h2 := h2 s + 1; t2 := t2 s |}).
  assert (HI0 : FInv s0).
  { destruct HI. constructor; simpl; auto. lia. }
  assert (Hstep : forall x' y', adjacent4 x y x' y' -> in_bounds w h x' y' ->
            alpha w d x' y' = Some 0 -> border_connected w h d x' y').
  { intros. eapply bc_step; eauto. }
  destruct Hb as [Hx Hy].
  destruct (guarded_push_spec s0 (0 <? x) (x - 1) y HI0) as (HI1 & Hg1 & Hm1).
  { intros Hg%Z.ltb_lt. assert (in_bounds w h (x - 1) y) by (unfold in_bounds; lia).
    split; [done|]. apply Hstep; [|done]. unfold adjacent4. auto. }
  set (s1 := if 0 <? x then _ else _) in *.
  destruct (guarded_push_spec s1 (x + 1 <? w) (x + 1) y HI1) as (HI2 & Hg2 & Hm2).
  { intros Hg%Z.ltb_lt. assert (in_bounds w h (x + 1) y) by (unfold in_bounds; lia).
    split; [done|]. apply Hstep; [|done]. unfold adjacent4. auto. }
  set (s2 := if x + 1 <? w then _ else _) in *.
  destruct (guarded_push_spec s2 (0 <? y) x (y - 1) HI2) as (HI3 & Hg3 & Hm3).
  { intros Hg%Z.ltb_lt. assert (in_bounds w h x (y - 1)) by (unfold in_bounds; lia).
    split; [done|]. apply Hstep; [|done]. unfold adjacent4. auto. }
  set (s3 := if 0 <? y then _ else _) in *.
  destruct (guarded_push_spec s3 (y + 1 <? h) x (y + 1) HI3) as (HI4 & Hg4 & Hm4).
  { intros Hg%Z.ltb_lt. assert (in_bounds w h x (y + 1)) by (unfold in_bounds; lia).
    split; [done|]. apply Hstep; [|done]. unfold adjacent4. auto. }
  set (s4 := if y + 1 <? h then _ else _) in *.
  assert (G04 : grows s0 s4) by eauto using grows_trans.
  assert (G14 : grows s1 s4) by eauto using grows_trans.
  assert (G24 : grows s2 s4) by eauto using grows_trans.
  assert (Hh4 : h2 s4 = h2 s + 1) by (destruct G04 as (_ & _ & -> & _); done).
  split; [done|]. split; [|split; [|done]].
  - intros x' y' Hb' Hbd Ha. apply G04. by apply Hseed.
  - intros i xa ya x' y' Hi Hba Hq Hadj Hb' Ha.
    rewrite Hh4 in Hi.
    assert (Hq0 : ta_get (q2 s) i = Some (ya * w + xa)).
    { destruct G04 as (_ & _ & _ & Hqs). rewrite <- Hqs; [done|]. simpl. lia. }
    destruct (decide (i = h2 s)) as [->|Hne].
    + rewrite Hp in Hq0. injection Hq0 as Hq0.
      assert (Hxy : xa = x ∧ ya = y).
      { apply idx_inj; [done|by split|]. by rewrite <- Hq0. }
      destruct Hxy as [-> ->].
      destruct Hb' as [Hx' Hy'].
      destruct Hadj as [[-> ->] | [[-> ->] | [[-> ->] | [-> ->]]]].
      * apply G14, Hm1; [apply Z.ltb_lt; lia|done].
      * apply G24, Hm2; [apply Z.ltb_lt; lia|done].
      * destruct Hg4 as (Hg4 & _). apply Hg4, Hm3; [apply Z.ltb_lt; lia|done].
      * apply Hm4; [apply Z.ltb_lt; lia|done].
    + apply G04. apply (Hproc i xa ya x' y'); auto. lia.
Qed.

Lemma flood_spec fuel : forall s,
  FInv s -> Seeded s -> Processed s -> w * h - h2 s <= Z.of_nat fuel ->
  exists s', flood fuel w h d s = Some s' ∧ FInv s' ∧ Seeded s' ∧ Processed s' ∧
             h2 s' = t2 s'.
Proof.
  induction fuel as [|fuel IH]; intros s HI Hseed Hproc Hfuel.
  - pose proof (QInv_bound _ _ _ _ (fi_queue _ HI)). pose proof (fi_head _ HI).
    simpl. destruct (Z.ltb_spec (h2 s) (t2 s)); [lia|].
    exists s. split; [done|]. split; [done|]. split; [done|]. split; [done|]. lia.
  - pose proof (fi_head _ HI). simpl. destruct (Z.ltb_spec (h2 s) (t2 s)).
    + destruct (flood_step_spec s HI Hseed Hproc) as (HI' & Hs' & Hp' & Hh'); [done|].
      apply IH; auto. lia.
    + exists s. split; [done|]. split; [done|]. split; [done|]. split; [done|]. lia.
Qed.

(** The flood terminates, and its marks are the border-connected pixels. *)
Lemma flood_fill_spec :
  exists s, flood_fill w h d = Some s ∧
    Z.of_nat (length (bg s)) = w * h ∧
    forall x y, in_bounds w h x y ->
      (truthy (ta_get (bg s) (y * w + x)) = true <-> border_connected w h d x y).
Proof.
  destruct seed_border_spec as (HI & Hseed & Hh0).
  unfold flood_fill.
  destruct (flood_spec (Z.to_nat (w * h)) _ HI Hseed) as (s & Hs & HI' & Hseed' & Hproc' & Hdone).
  { intros i ? ? ? ? Hi. lia. }
  { pose proof size_nonneg. lia. }
  exists s. split; [done|]. split; [apply HI'|].
  assert (Hcomplete : forall x y, border_connected w h d x y -> marked s (y * w + x)).
  { induction 1 as [x y Hb Hbd Ha | x y x' y' Hbc IH Hadj Hb' Ha'].
    - by apply Hseed'.
    - assert (Hin : y * w + x ∈ qpre (q2 s) (t2 s)).
      { apply (fi_queue _ HI'). split; [|done]. apply idx_range.
        clear -Hbc. destruct Hbc; done. }
      apply qpre_elem in Hin as (i & Hi & Hq).
      apply (Hproc' i x y x' y'); auto; [lia|]. clear -Hbc. destruct Hbc; done. }
  intros x y Hb. split.
  - intros Ht. apply (fi_sound _ HI'); [done|]. unfold marked.
    destruct (ta_get (bg s) (y * w + x)) as [v|] eqn:Hv; [|done].
    destruct (fi_val _ HI' _ _ Hv) as [-> | ->]; done.
  - intros Hbc. by rewrite (Hcomplete _ _ Hbc).
Qed.


(** The white fill: which bytes the last loop of the block leaves behind. *)
Definition is_hole (bgm : list Z) (p : Z) : bool :=
  js_eq (alphaAt d p) 0 && negb (truthy (ta_get bgm p)).

Lemma fill_pixel_spec bgm dc i :
  0 <= i < w * h -> length dc = length d ->
  (forall c, 0 <= c < 4 -> ta_get dc (i * 4 + c) = ta_get d (i * 4 + c)) ->
  length (fill_pixel bgm dc i) = length d ∧
  forall p c, 0 <= p < w * h -> 0 <= c < 4 ->
    ta_get (fill_pixel bgm dc i) (p * 4 + c) =
      if decide (p = i) then
        (if is_hole bgm i then Some 255 else ta_get d (i * 4 + c))
      else ta_get dc (p * 4 + c).
Proof.
  intros Hi Hl Hsame. unfold fill_pixel, is_hole, alphaAt, js_ne.
  rewrite (Hsame 3) by lia.
  destruct (js_eq (ta_get d (i * 4 + 3)) 0); simpl.
  2:{ split; [done|]. intros p c Hp Hc. case_decide; subst; auto. }
  destruct (truthy (ta_get bgm i)); simpl.
  { split; [done|]. intros p c Hp Hc. case_decide; subst; auto. }
  change (toUint8 255) with 255.
  split; [by rewrite !length_ta_set|].
  intros p c Hp Hc. case_decide as Hpi.
  - subst p. assert (Hcs : c = 0 ∨ c = 1 ∨ c = 2 ∨ c = 3) by lia.
    destruct Hcs as [-> | [-> | [-> | ->]]].
    + rewrite !ta_get_set_ne by lia. apply ta_get_set_eq. lia.
    + rewrite !ta_get_set_ne by lia. apply ta_get_set_eq. rewrite !length_ta_set. lia.
    + rewrite !ta_get_set_ne by lia. apply ta_get_set_eq. rewrite !length_ta_set. lia.
    + apply ta_get_set_eq. rewrite !length_ta_set. lia.
  - rewrite !ta_get_set_ne by lia. done.
Qed.

Lemma fill_holes_spec bgm :
  length (fill_holes (w * h) bgm d) = length d ∧
  forall p c, 0 <= p < w * h -> 0 <= c < 4 ->
    ta_get (fill_holes (w * h) bgm d) (p * 4 + c) =
      if is_hole bgm p then Some 255 else ta_get d (p * 4 + c).
Proof.
  unfold fill_holes.
  set (P := fun (i : Z) (dc : list Z) =>
     length dc = length d ∧
     forall p c, 0 <= p < w * h -> 0 <= c < 4 ->
       ta_get dc (p * 4 + c) =
         if (p <? i) && is_hole bgm p then Some 255 else ta_get d (p * 4 + c)).
  assert (HP : P (Z.max 0 (w * h)) (fold_left (fill_pixel bgm) (seqZ 0 (w * h)) d)).
  { apply fold_seqZ_ind.
    - split; [done|]. intros p c Hp Hc. destruct (Z.ltb_spec p 0); [lia|done].
    - intros i dc Hi [Hl Hg].
      destruct (fill_pixel_spec bgm dc i Hi Hl) as [Hl' Hg'].
      { intros c Hc. rewrite Hg by done. destruct (Z.ltb_spec i i); [lia|done]. }
      split; [done|]. intros p c Hp Hc. rewrite Hg' by done.
      case_decide as Hpi.
      + subst p. destruct (Z.ltb_spec i (i + 1)); [done|lia].
      + rewrite Hg by done.
        destruct (Z.ltb_spec p i), (Z.ltb_spec p (i + 1)); try lia; done. }
  pose proof size_nonneg. replace (Z.max 0 (w * h)) with (w * h) in HP by lia.
  destruct HP as [Hl Hg]. split; [done|].
  intros p c Hp Hc. rewrite Hg by done.
  destruct (Z.ltb_spec p (w * h)); [done|lia].
Qed.

(** Phase 1 returns, and says which pixels it rewrote. *)
Lemma phase1_spec :
  exists d1, phase1 w h d = Some d1 ∧ length d1 = length d ∧
    forall x y, in_bounds w h x y ->
      (alpha w d x y = Some 0 -> ¬ border_connected w h d x y ->
       forall c, 0 <= c < 4 -> channel w d1 x y c = Some 255) ∧
      (¬ (alpha w d x y = Some 0 ∧ ¬ border_connected w h d x y) ->
       forall c, 0 <= c < 4 -> channel w d1 x y c = channel w d x y c).
Proof.
  destruct flood_fill_spec as (s & Hs & Hl & Hbg).
  unfold phase1. rewrite Hs.
  destruct (fill_holes_spec (bg s)) as [Hl1 Hg].
  eexists. split; [done|]. split; [done|].
  intros x y Hb. pose proof (idx_range _ _ Hb) as Hp.
  assert (Hhole : is_hole (bg s) (y * w + x) = true <->
                  alpha w d x y = Some 0 ∧ ¬ border_connected w h d x y).
  { unfold is_hole. rewrite andb_true_iff, negb_true_iff, js_eq_0.
    rewrite <- (Hbg x y Hb). change (alphaAt d (y * w + x)) with (alpha w d x y).
    destruct (truthy (ta_get (bg s) (y * w + x))); intuition congruence. }
  split.
  - intros Ha Hn c Hc. unfold channel. rewrite Hg by done.
    destruct (is_hole (bg s) (y * w + x)); [done|].
    exfalso. assert (false = true) by (by apply Hhole). done.
  - intros Hk c Hc. unfold channel. rewrite Hg by done.
    destruct (is_hole (bg s) (y * w + x)); [|done].
    destruct Hhole as [Hh' _]. destruct (Hk (Hh' eq_refl)).
Qed.

Lemma border_connected_path x y :
  border_connected w h d x y <-> exists path, transparent_path w h d x y path.
Proof.
  assert (Hsym : forall a b a' b', adjacent4 a b a' b' -> adjacent4 a' b' a b).
  { unfold adjacent4. intros. lia. }
  split.
  - induction 1 as [x y Hb Hbd Ha | x y x' y' Hbc [path IH] Hadj Hb' Ha'].
    + exists []. simpl. auto.
    + exists ((x, y) :: path). simpl. auto.
  - intros [path Hp]. revert x y Hp.
    induction path as [|[x1 y1] rest IH]; simpl; intros x y (Hb & Ha & Hr).
    + by apply bc_border.
    + destruct Hr as [Hadj Hrest]. eapply bc_step; eauto.
Qed.


(** *** Phase 2: edge pixels *)

Lemma opaque_js_eq x y :
  in_bounds w h x y -> (js_eq (alphaAt d (y * w + x)) 0 = false <-> opaque w d x y).
Proof.
  intros Hb. destruct (alphaAt_bounds x y Hb) as [a Ha].
  unfold opaque. change (alpha w d x y) with (alphaAt d (y * w + x)).
  rewrite Ha. simpl. destruct (Z.eqb_spec a 0) as [->|Hne]; split.
  - done.
  - intros (a' & Ha' & Hne). congruence.
  - eauto.
  - done.
Qed.

Lemma edge_probe_spec x y dx dy :
  in_bounds w h x y -> -1 <= dx <= 1 -> -1 <= dy <= 1 ->
  (edge_probe w h d x y dx dy = true <->
   (dx ≠ 0 ∨ dy ≠ 0) ∧
   (¬ in_bounds w h (x + dx) (y + dy) ∨ alpha w d (x + dx) (y + dy) = Some 0)).
Proof.
  intros Hb Hdx Hdy. unfold edge_probe.
  destruct ((dx =? 0) && (dy =? 0)) eqn:E0.
  { apply andb_true_iff in E0 as [->%Z.eqb_eq ->%Z.eqb_eq].
    split; [done|]. intros [[?|?] _]; done. }
  assert (Hne : dx ≠ 0 ∨ dy ≠ 0).
  { apply andb_false_iff in E0 as [?%Z.eqb_neq|?%Z.eqb_neq]; auto. }
  destruct ((x + dx <? 0) || (y + dy <? 0) || (x + dx >=? w) || (y + dy >=? h)) eqn:E.
  - split; [|done]. intros _. split; [done|]. left. unfold in_bounds.
    rewrite !Z.geb_leb, !orb_true_iff, !Z.ltb_lt, !Z.leb_le in E. lia.
  - rewrite !Z.geb_leb, !orb_false_iff, !Z.ltb_ge, !Z.leb_gt in E.
    rewrite js_eq_0. change (alphaAt d _) with (alpha w d (x + dx) (y + dy)).
    unfold in_bounds. split; [auto|]. intros [_ [?|?]]; [lia|done].
Qed.

Lemma isEdge_true x y :
  in_bounds w h x y ->
  (isEdge w h d x y = true <->
   exists dx dy, -1 <= dx <= 1 ∧ -1 <= dy <= 1 ∧ (dx ≠ 0 ∨ dy ≠ 0) ∧
     (¬ in_bounds w h (x + dx) (y + dy) ∨ alpha w d (x + dx) (y + dy) = Some 0)).
Proof.
  intros Hb. unfold isEdge. rewrite existsb_exists. split.
  - intros (dy & Hdy & (dx & Hdx & Hp)%existsb_exists).
    assert (-1 <= dx <= 1) by (simpl in Hdx; lia).
    assert (-1 <= dy <= 1) by (simpl in Hdy; lia).
    apply edge_probe_spec in Hp as [? ?]; [|done..].
    exists dx, dy. auto.
  - intros (dx & dy & Hdx & Hdy & Hne & Hp).
    exists dy. split; [simpl; lia|]. apply existsb_exists.
    exists dx. split; [simpl; lia|]. apply edge_probe_spec; auto.
Qed.

(** The edge test of the code is the specification's notion of edge pixel. *)
Lemma isEdge_spec x y :
  in_bounds w h x y -> opaque w d x y ->
  (isEdge w h d x y = true <-> is_edge w h d x y).
Proof.
  intros Hb Ho. rewrite (isEdge_true x y Hb). unfold is_edge. split.
  - intros (dx & dy & Hdx & Hdy & Hne & [Hout|Ha]).
    + split; [done|]. split; [done|]. left.
      unfold in_bounds, on_border in *. lia.
    + split; [done|]. split; [done|].
      destruct (decide (in_bounds w h (x + dx) (y + dy))) as [Hin|Hout].
      * right. exists (x + dx), (y + dy). unfold adjacent8. split; [lia|done].
      * left. unfold in_bounds, on_border in *. lia.
  - intros (_ & _ & [Hbd | (x' & y' & Hadj & Hin & Ha)]).
    + unfold on_border, in_bounds in *.
      destruct Hbd as [-> | [-> | [-> | ->]]].
      * exists (-1), 0. split; [lia|]. split; [lia|]. split; [lia|]. left. lia.
      * exists 1, 0. split; [lia|]. split; [lia|]. split; [lia|]. left. lia.
      * exists 0, (-1). split; [lia|]. split; [lia|]. split; [lia|]. left. lia.
      * exists 0, 1. split; [lia|]. split; [lia|]. split; [lia|]. left. lia.
    + exists (x' - x), (y' - y). unfold adjacent8 in Hadj.
      split; [lia|]. split; [lia|]. split; [lia|]. right.
      by replace (x + (x' - x)) with x' by lia; replace (y + (y' - y)) with y' by lia.
Qed.

Lemma is_edge_dec x y : in_bounds w h x y -> opaque w d x y ->
  is_edge w h d x y ∨ ¬ is_edge w h d x y.
Proof.
  intros Hb Ho. rewrite <- (isEdge_spec x y Hb Ho).
  destruct (isEdge w h d x y); auto.
Qed.

(** Away from the edge, the four neighbours are inside and opaque. *)
Lemma interior_neighbour x y x' y' :
  in_bounds w h x y -> opaque w d x y -> ¬ is_edge w h d x y ->
  adjacent4 x y x' y' -> in_bounds w h x' y' ∧ opaque w d x' y'.
Proof.
  intros Hb Ho Hne Hadj.
  assert (Hin : in_bounds w h x' y').
  { destruct (decide (in_bounds w h x' y')) as [|Hout]; [done|].
    exfalso. apply Hne. split; [done|]. split; [done|]. left.
    unfold in_bounds, on_border, adjacent4 in *. lia. }
  split; [done|].
  destruct (alphaAt_bounds x' y' Hin) as [a Ha].
  change (alphaAt d (y' * w + x')) with (alpha w d x' y') in Ha.
  exists a. split; [done|]. intros ->. apply Hne.
  split; [done|]. split; [done|]. right. exists x', y'.
  split; [|done]. unfold adjacent4, adjacent8 in *. lia.
Qed.

(** Walking straight in one of the four directions meets an edge pixel
    before it leaves the canvas. *)
Lemma straight_walk (dx dy : Z) :
  adjacent4 0 0 dx dy ->
  forall (n : nat) x y,
    in_bounds w h x y -> opaque w d x y ->
    ¬ in_bounds w h (x + Z.of_nat (S n) * dx) (y + Z.of_nat (S n) * dy) ->
    exists k, (k <= n)%nat ∧ edge_walk w h d k x y.
Proof.
  intros Hdir. induction n as [|n IH]; intros x y Hb Ho Hout.
  - exists 0%nat. split; [done|]. apply ew_edge. split; [done|]. split; [done|]. left.
    unfold in_bounds, on_border, adjacent4 in *. lia.
  - destruct (is_edge_dec x y Hb Ho) as [He|Hne].
    { exists 0%nat. split; [lia|]. by apply ew_edge. }
    destruct (interior_neighbour x y (x + dx) (y + dy) Hb Ho Hne) as [Hin' Ho'].
    { unfold adjacent4 in *. lia. }
    destruct (IH (x + dx) (y + dy) Hin' Ho') as (k & Hk & Hwalk).
    { intros Hin. apply Hout.
      replace (x + Z.of_nat (S (S n)) * dx) with (x + dx + Z.of_nat (S n) * dx) by lia.
      by replace (y + Z.of_nat (S (S n)) * dy) with (y + dy + Z.of_nat (S n) * dy) by lia. }
    exists (S k). split; [lia|].
    eapply ew_step; eauto. unfold adjacent4 in *. lia.
Qed.

(** Hence every opaque pixel has a distance, and it fits an [Int16Array]. *)
Lemma edge_walk_exists x y :
  in_bounds w h x y -> opaque w d x y ->
  exists k, edge_walk w h d k x y.
Proof.
  intros Hb Ho.
  destruct (straight_walk (-1) 0 ltac:(unfold adjacent4; lia) (Z.to_nat x) x y Hb Ho)
    as (k & _ & Hk); [|eauto].
  unfold in_bounds in *. lia.
Qed.

Lemma edge_dist_int16 k x y :
  edge_dist w h d k x y -> Z.of_nat k < 2 ^ 15.
Proof.
  intros [Hwalk Hmin].
  assert (Hb : in_bounds w h x y) by (destruct Hwalk as [? ? (? & _)|]; done).
  assert (Ho : opaque w d x y) by (destruct Hwalk as [? ? (_ & ? & _)|]; done).
  destruct (straight_walk (-1) 0 ltac:(unfold adjacent4; lia) (Z.to_nat x) x y Hb Ho)
    as (k1 & Hk1 & Hw1); [unfold in_bounds in *; lia|].
  destruct (straight_walk 1 0 ltac:(unfold adjacent4; lia) (Z.to_nat (w - 1 - x)) x y Hb Ho)
    as (k2 & Hk2 & Hw2); [unfold in_bounds in *; lia|].
  destruct (straight_walk 0 (-1) ltac:(unfold adjacent4; lia) (Z.to_nat y) x y Hb Ho)
    as (k3 & Hk3 & Hw3); [unfold in_bounds in *; lia|].
  apply Hmin in Hw1, Hw2, Hw3.
  change (2 ^ 15) with 32768. change (2 ^ 31) with 2147483648 in Hsz.
  destruct Hb as [Hx Hy].
  destruct (Z.lt_ge_cases (Z.of_nat k) 32768) as [|Hbig]; [done|exfalso].
  assert (65537 <= w) by lia. assert (32769 <= h) by lia. nia.
Qed.

(** *** Phase 2: the distance map *)

Lemma edge_walk_inv k x y :
  edge_walk w h d k x y -> in_bounds w h x y ∧ opaque w d x y.
Proof. destruct 1 as [? ? (? & ? & _)|]; done. Qed.

Definition assigned (s : dist_state) (p : Z) : Prop :=
  exists v, ta_get (dist s) p = Some v ∧ v ≠ -1.

(** What every state of the distance computation satisfies: a written
    distance is the true one, and the queue is ordered by distance. *)
Record BInv (s : dist_state) : Prop := {
  bi_len : Z.of_nat (length (dist s)) = w * h;
  bi_queue : QInv (w * h) (assigned s) (q s) (tail s);
  bi_head : 0 <= head s <= tail s;
  bi_dist : forall x y v,
      in_bounds w h x y -> ta_get (dist s) (y * w + x) = Some v ->
      v = -1 ∨ (opaque w d x y ∧ 0 <= v ∧ edge_dist w h d (Z.to_nat v) x y);
  bi_sorted : forall i j pi pj vi vj,
      0 <= i <= j -> j < tail s ->
      ta_get (q s) i = Some pi -> ta_get (q s) j = Some pj ->
      ta_get (dist s) pi = Some vi -> ta_get (dist s) pj = Some vj -> vi <= vj
}.

Definition EdgesSeeded (s : dist_state) : Prop :=
  forall x y, is_edge w h d x y -> assigned s (y * w + x).

Definition BProcessed (hd : Z) (s : dist_state) : Prop :=
  forall i x y x' y',
    0 <= i < hd -> in_bounds w h x y -> ta_get (q s) i = Some (y * w + x) ->
    adjacent4 x y x' y' -> in_bounds w h x' y' -> opaque w d x' y' ->
    assigned s (y' * w + x').

(** The last queue entry is at most one step further than distance [dv]. *)
Definition Window (dv : Z) (s : dist_state) : Prop :=
  forall pl vl, ta_get (q s) (tail s - 1) = Some pl -> ta_get (dist s) pl = Some vl ->
                vl <= dv + 1.

Definition bgrows (s s' : dist_state) : Prop :=
  (forall p, assigned s p -> ta_get (dist s') p = ta_get (dist s) p) ∧
  tail s <= tail s' ∧ head s' = head s ∧
  (forall i, 0 <= i < tail s -> ta_get (q s') i = ta_get (q s) i).

Lemma bgrows_assigned s s' p : bgrows s s' -> assigned s p -> assigned s' p.
Proof. intros (Hd & _) Ha. unfold assigned. rewrite Hd by done. exact Ha. Qed.

(** Writing a first distance [v] for pixel [(x, y)] and queueing it. *)
Lemma assign_spec s x y v :
  BInv s -> in_bounds w h x y -> ta_get (dist s) (y * w + x) = Some (-1) ->
  opaque w d x y -> 0 <= v -> edge_dist w h d (Z.to_nat v) x y ->
  (forall pl vl, ta_get (q s) (tail s - 1) = Some pl -> ta_get (dist s) pl = Some vl ->
                 vl <= v) ->
  let s' := {| dist := ta_set (dist s) (y * w + x) (toInt16 v);
               q := ta_set (q s) (tail s) (toInt32 (y * w + x));
               head := head s;
               tail := tail s + 1 |} in
  BInv s' ∧ bgrows s s' ∧ assigned s' (y * w + x) ∧
  ta_get (q s') (tail s' - 1) = Some (y * w + x) ∧
  forall r, ta_get (dist s') r =
            if decide (r = y * w + x) then Some v else ta_get (dist s) r.
Proof.
  intros HI Hb Hun Ho Hv Hed Hlast s'.
  pose proof (idx_range _ _ Hb) as Hp.
  pose proof (edge_dist_int16 _ _ _ Hed) as H16.
  assert (Hv16 : toInt16 v = v) by (apply toInt16_small; lia).
  assert (Hna : ¬ assigned s (y * w + x)).
  { intros (v' & Hv' & Hne). congruence. }
  pose proof (QInv_bound _ _ _ _ (bi_queue _ HI)) as Hb2.
  pose proof (QInv_room _ size_nonneg _ _ _ _ (bi_queue _ HI) Hp Hna) as Hroom.
  assert (Hd' : forall r, ta_get (dist s') r =
            if decide (r = y * w + x) then Some v else ta_get (dist s) r).
  { intros r. unfold s'. simpl. rewrite Hv16. case_decide as Hr.
    - subst r. apply ta_get_set_eq. rewrite (bi_len _ HI). lia.
    - by apply ta_get_set_ne. }
  assert (Hq' : forall i, ta_get (q s') i =
            if decide (i = tail s) then Some (y * w + x) else ta_get (q s) i).
  { intros i. unfold s'. simpl. rewrite toInt32_small by lia. case_decide as Hi.
    - subst i. apply ta_get_set_eq. destruct (bi_queue _ HI) as (-> & _). lia.
    - by apply ta_get_set_ne. }
  assert (Hmk : forall r, assigned s' r <-> assigned s r ∨ r = y * w + x).
  { intros r. unfold assigned. rewrite Hd'. case_decide as Hr.
    - subst r. split; [auto|]. intros _. exists v. split; [done|lia].
    - split; [auto|]. intros [?|?]; done. }
  assert (Hqa : forall i pi, 0 <= i < tail s -> ta_get (q s) i = Some pi -> assigned s pi).
  { intros i pi Hi Hg. destruct (QInv_get _ _ _ _ _ (bi_queue _ HI) Hi) as (p' & Hp' & _ & Ha).
    congruence. }
  split; [|split; [|split; [|split]]].
  - constructor.
    + unfold s'. simpl. rewrite length_ta_set. apply HI.
    + unfold s' at 2 3. simpl. eapply (QInv_push _ size_nonneg Hsz (assigned s)); eauto. apply HI.
    + unfold s'. simpl. destruct (bi_head _ HI). lia.
    + intros x' y' v' Hb'. rewrite Hd'. case_decide as Hr.
      * destruct (idx_inj _ _ _ _ Hb' Hb Hr) as [-> ->]. intros [= <-]. auto.
      * by apply HI.
    + intros i j pi pj vi vj Hij Hj Hqi Hqj Hvi Hvj.
      rewrite Hq' in Hqi, Hqj. rewrite Hd' in Hvi, Hvj.
      change (tail s') with (tail s + 1) in Hj.
      destruct (decide (j = tail s)) as [Ej|Ej].
      * injection Hqj as <-. rewrite decide_True in Hvj by done. injection Hvj as <-.
        destruct (decide (i = tail s)) as [Ei|Ei].
        { injection Hqi as <-. rewrite decide_True in Hvi by done. injection Hvi as <-. lia. }
        assert (Hai : assigned s pi) by (apply (Hqa i); [lia|done]).
        rewrite decide_False in Hvi by (intros ->; done).
        assert (Hti : 0 <= tail s - 1 < tail s) by lia.
        destruct (QInv_get _ _ _ _ _ (bi_queue _ HI) Hti) as (pl & Hpl & _ & vl & Hvl & _).
        transitivity vl; [|by eapply Hlast].
        eapply (bi_sorted _ HI i (tail s - 1)); eauto; lia.
      * assert (Ei : i ≠ tail s) by lia.
        rewrite decide_False in Hqi by done.
        assert (Hai : assigned s pi) by (apply (Hqa i); [lia|done]).
        assert (Haj : assigned s pj) by (apply (Hqa j); [lia|done]).
        rewrite decide_False in Hvi by (intros ->; done).
        rewrite decide_False in Hvj by (intros ->; done).
        eapply (bi_sorted _ HI i j); eauto; lia.
  - split; [|split; [|split]].
    + intros r Hr. rewrite Hd'. rewrite decide_False; [done|]. intros ->. done.
    + unfold s'. simpl. lia.
    + done.
    + intros i Hi. rewrite Hq'. rewrite decide_False by lia. done.
  - apply Hmk. by right.
  - rewrite Hq'. unfold s'. simpl. rewrite decide_True by lia. done.
  - exact Hd'.
Qed.

(** [n] pixels, in row-major order, have been through the edge detection. *)
Definition SInv (n : Z) (s : dist_state) : Prop :=
  BInv s ∧ head s = 0 ∧
  (forall p v, ta_get (dist s) p = Some v -> v = -1 ∨ v = 0) ∧
  (forall p, n <= p < w * h -> ta_get (dist s) p = Some (-1)) ∧
  (forall x y, in_bounds w h x y -> y * w + x < n -> is_edge w h d x y ->
               assigned s (y * w + x)).

Lemma SInv_init : SInv 0 (dist_init (w * h)).
Proof.
  pose proof size_nonneg as Hs.
  assert (Hg : forall p v, ta_get (ta_new (w * h) (-1)) p = Some v -> v = -1).
  { intros p v Hg. pose proof (ta_get_range _ _ _ Hg) as Hr.
    rewrite length_ta_new in Hr by done. rewrite ta_get_new in Hg by done. congruence. }
  split; [|split; [done|split; [|split]]].
  - constructor; simpl.
    + by apply length_ta_new.
    + apply QInv_new; [done|]. intros p Hp (v & Hv & Hne). apply Hg in Hv. done.
    + lia.
    + intros x y v _ Hv. left. by eapply Hg.
    + intros; lia.
  - simpl. intros p v Hv. left. by eapply Hg.
  - simpl. intros p Hp. by apply ta_get_new.
  - intros x y Hb Hlt. pose proof (idx_range _ _ Hb). lia.
Qed.

Lemma seed_pixel_spec s x y :
  in_bounds w h x y -> SInv (y * w + x) s -> SInv (y * w + x + 1) (seed_pixel w h d y s x).
Proof.
  intros Hb (HI & Hh0 & Hval & Hun & Hed).
  pose proof (idx_range _ _ Hb) as Hp.
  assert (Hskip : ¬ is_edge w h d x y -> SInv (y * w + x + 1) s).
  { intros Hne. split; [done|]. split; [done|]. split; [done|]. split.
    - intros p Hp'. apply Hun. lia.
    - intros x' y' Hb' Hlt He. destruct (decide (y' * w + x' = y * w + x)) as [E|E].
      + destruct (idx_inj _ _ _ _ Hb' Hb E) as [-> ->]. done.
      + apply Hed; auto. lia. }
  unfold seed_pixel.
  destruct (js_eq (alphaAt d (y * w + x)) 0) eqn:Ha.
  { apply Hskip. intros (_ & Ho & _). apply (opaque_js_eq x y Hb) in Ho. congruence. }
  apply (opaque_js_eq x y Hb) in Ha.
  destruct (isEdge w h d x y) eqn:He.
  2:{ apply Hskip. rewrite <- (isEdge_spec x y Hb Ha). congruence. }
  apply (isEdge_spec x y Hb Ha) in He.
  destruct (assign_spec s x y 0 HI Hb) as (HI' & Hg & Has & _ & Hd'); auto.
  - apply Hun. lia.
  - lia.
  - split; [by apply ew_edge|]. intros; simpl; lia.
  - intros pl vl _ Hvl. destruct (Hval _ _ Hvl); lia.
  - split; [done|]. split; [by destruct Hg as (_ & _ & -> & _)|]. split; [|split].
    + intros p v. rewrite Hd'. case_decide; [intros [= <-]; auto|apply Hval].
    + intros p Hp'. rewrite Hd'. rewrite decide_False by lia. apply Hun. lia.
    + intros x' y' Hb' Hlt He'. destruct (decide (y' * w + x' = y * w + x)) as [E|E].
      * by rewrite E.
      * eapply bgrows_assigned; [done|]. apply Hed; auto. lia.
Qed.

Lemma seed_edges_spec : SInv (w * h) (seed_edges w h d (dist_init (w * h))).
Proof.
  unfold seed_edges.
  assert (Hrow : forall y s, 0 <= y < h -> SInv (y * w) s ->
            SInv ((y + 1) * w) (fold_left (seed_pixel w h d y) (seqZ 0 w) s)).
  { intros y s Hy Hs.
    assert (Hx := fold_seqZ_ind (fun x s => SInv (y * w + x) s) (seed_pixel w h d y) w s).
    replace (Z.max 0 w) with w in Hx by lia.
    replace ((y + 1) * w) with (y * w + w) by lia. apply Hx.
    - by replace (y * w + 0) with (y * w) by lia.
    - intros x s' Hx' Hs'. replace (y * w + (x + 1)) with (y * w + x + 1) by lia.
      apply seed_pixel_spec; [|done]. unfold in_bounds. lia. }
  assert (Hall := fold_seqZ_ind (fun y s => SInv (y * w) s)
            (fun s y => fold_left (seed_pixel w h d y) (seqZ 0 w) s) h (dist_init (w * h))).
  replace (Z.max 0 h) with h in Hall by lia.
  replace (w * h) with (h * w) at 1 by lia. apply Hall.
  - apply SInv_init.
  - intros y s Hy Hs. by apply Hrow.
Qed.

(** While pixel [(x, y)], dequeued from slot [hd] with distance [dv], has
    its neighbours visited; [seen] are the neighbours already looked at. *)
Record VInv (hd x y dv : Z) (seen : list (Z * Z)) (s : dist_state) : Prop := {
  vi_inv : BInv s;
  vi_edges : EdgesSeeded s;
  vi_head : head s = hd + 1;
  vi_bounds : in_bounds w h x y;
  vi_slot : ta_get (q s) hd = Some (y * w + x);
  vi_dv : ta_get (dist s) (y * w + x) = Some dv;
  vi_dv_set : dv ≠ -1;
  vi_done : BProcessed hd s;
  vi_window : Window dv s;
  vi_seen : forall x' y', (x', y') ∈ seen -> in_bounds w h x' y' -> opaque w d x' y' ->
                          assigned s (y' * w + x')
}.

(** Everything at distance at most [dv] has been reached already. *)
Lemma near_assigned hd x y dv seen s :
  VInv hd x y dv seen s ->
  forall k x' y', edge_walk w h d k x' y' -> Z.of_nat k <= dv -> assigned s (y' * w + x').
Proof.
  intros HV. induction 1 as [xa ya He | k xa ya xb yb Hwalk IH Hadj Hbb Hob]; intros Hk.
  - by apply (vi_edges _ _ _ _ _ _ HV).
  - destruct (edge_walk_inv _ _ _ Hwalk) as [Hba Hoa].
    destruct IH as (v & Hv & Hne); [lia|].
    pose proof (vi_inv _ _ _ _ _ _ HV) as HI.
    destruct (bi_dist _ HI xa ya v Hba Hv) as [?|(_ & Hv0 & _ & Hmin)]; [done|].
    apply Hmin in Hwalk.
    assert (Hin : ya * w + xa ∈ qpre (q s) (tail s)).
    { apply (bi_queue _ HI). split; [by apply idx_range|]. exists v. done. }
    apply qpre_elem in Hin as (i & Hi & Hq).
    destruct (Z.lt_ge_cases i hd) as [Hlt|Hge].
    + apply (vi_done _ _ _ _ _ _ HV i xa ya xb yb); auto. lia.
    + assert (dv <= v); [|lia].
      pose proof (ta_get_range _ _ _ (vi_slot _ _ _ _ _ _ HV)).
      apply (bi_sorted _ HI hd i (y * w + x) (ya * w + xa) dv v);
        [lia|lia|apply HV|done|apply HV|done].
Qed.

Lemma visit_spec hd x y dv seen s nx ny :
  VInv hd x y dv seen s -> adjacent4 x y nx ny ->
  VInv hd x y dv ((nx, ny) :: seen) (visit w h d (Some dv) s (nx, ny)).
Proof.
  intros HV Hadj.
  assert (Hskip : (in_bounds w h nx ny -> opaque w d nx ny -> assigned s (ny * w + nx)) ->
                  VInv hd x y dv ((nx, ny) :: seen) s).
  { intros Hn. destruct HV. constructor; auto.
    intros x' y' [[= -> ->]|Hin]%elem_of_cons; auto. }
  unfold visit.
  destruct ((nx <? 0) || (ny <? 0) || (nx >=? w) || (ny >=? h)) eqn:E.
  { apply Hskip. unfold in_bounds.
    rewrite !Z.geb_leb, !orb_true_iff, !Z.ltb_lt, !Z.leb_le in E. lia. }
  assert (Hbn : in_bounds w h nx ny).
  { unfold in_bounds.
    rewrite !Z.geb_leb, !orb_false_iff, !Z.ltb_ge, !Z.leb_gt in E. lia. }
  destruct (js_eq (alphaAt d (ny * w + nx)) 0) eqn:Ha.
  { apply Hskip. intros _ Ho. apply (opaque_js_eq nx ny Hbn) in Ho. congruence. }
  apply (opaque_js_eq nx ny Hbn) in Ha.
  pose proof (vi_inv _ _ _ _ _ _ HV) as HI.
  pose proof (idx_range _ _ Hbn) as Hp.
  destruct (ta_get_is_Some (dist s) (ny * w + nx)) as [v Hv]; [rewrite (bi_len _ HI); lia|].
  rewrite Hv. unfold js_ne, js_eq.
  destruct (Z.eqb_spec v (-1)) as [->|Hne]; simpl.
  2:{ apply Hskip. intros _ _. exists v. done. }
  (* a first visit: the distance is dv + 1 *)
  pose proof (vi_bounds _ _ _ _ _ _ HV) as Hb.
  destruct (bi_dist _ HI x y dv Hb (vi_dv _ _ _ _ _ _ HV)) as [?|(Ho & Hdv0 & Hwalk & Hmin)];
    [by destruct HV|].
  assert (Hed : edge_dist w h d (Z.to_nat (dv + 1)) nx ny).
  { split.
    - replace (Z.to_nat (dv + 1)) with (S (Z.to_nat dv)) by lia.
      eapply ew_step; eauto.
    - intros j Hj. destruct (Nat.le_gt_cases (Z.to_nat (dv + 1)) j) as [|Hlt]; [done|].
      exfalso. destruct (near_assigned _ _ _ _ _ _ HV j nx ny Hj) as (v' & Hv' & Hne'); [lia|].
      congruence. }
  destruct (assign_spec s nx ny (dv + 1) HI Hbn Hv Ha ltac:(lia) Hed)
    as (HI' & Hg & Has & Hlast & Hd').
  { intros pl vl Hpl Hvl. eapply (vi_window _ _ _ _ _ _ HV); eauto. }
  set (s' := {| dist := _ |}) in *.
  assert (Hnp : ny * w + nx ≠ y * w + x).
  { intros E'. rewrite E' in Hv. rewrite (vi_dv _ _ _ _ _ _ HV) in Hv.
    injection Hv as ->. by destruct HV. }
  constructor.
  - done.
  - intros x' y' He. eapply bgrows_assigned; [done|]. by apply (vi_edges _ _ _ _ _ _ HV).
  - destruct Hg as (_ & _ & -> & _). apply HV.
  - done.
  - destruct Hg as (_ & _ & _ & Hq). rewrite Hq; [apply HV|].
    pose proof (bi_head _ HI). pose proof (vi_head _ _ _ _ _ _ HV).
    pose proof (ta_get_range _ _ _ (vi_slot _ _ _ _ _ _ HV)). lia.
  - rewrite Hd'. rewrite decide_False by done. apply HV.
  - apply HV.
  - intros i xa ya xb yb Hi Hba Hq Hadj' Hbb Hob.
    eapply bgrows_assigned; [done|].
    apply (vi_done _ _ _ _ _ _ HV i xa ya xb yb); auto.
    destruct Hg as (_ & _ & _ & Hqs). rewrite <- Hqs; [done|].
    pose proof (bi_head _ HI). pose proof (vi_head _ _ _ _ _ _ HV).
    pose proof (ta_get_range _ _ _ (vi_slot _ _ _ _ _ _ HV)). lia.
  - intros pl vl Hpl Hvl. rewrite Hlast in Hpl. injection Hpl as <-.
    rewrite Hd', decide_True in Hvl by done. injection Hvl as <-. lia.
  - intros x' y' [[= -> ->]|Hin]%elem_of_cons Hb' Ho'; [done|].
    eapply bgrows_assigned; [done|]. by apply (vi_seen _ _ _ _ _ _ HV).
Qed.

(** The state between two iterations of [while (head < tail)]. *)
Record LInv (s : dist_state) : Prop := {
  li_inv : BInv s;
  li_edges : EdgesSeeded s;
  li_done : BProcessed (head s) s;
  li_window : forall ph vh, head s < tail s ->
      ta_get (q s) (head s) = Some ph -> ta_get (dist s) ph = Some vh -> Window vh s
}.

Lemma bfs_step_defined s :
  LInv s -> head s < tail s ->
  exists x y dv, in_bounds w h x y ∧ ta_get (q s) (head s) = Some (y * w + x) ∧
    ta_get (dist s) (y * w + x) = Some dv ∧ dv ≠ -1 ∧
    Z.rem (y * w + x) w = x ∧ toInt32 (Z.quot (y * w + x) w) = y.
Proof.
  intros HL Hlt. pose proof (li_inv _ HL) as HI.
  destruct (QInv_get _ _ _ _ _ (bi_queue _ HI) (conj (proj1 (bi_head _ HI)) Hlt))
    as (p & Hp & Hpr & dv & Hdv & Hne).
  destruct (idx_coords p Hpr) as [Hb Hpxy].
  exists (Z.rem p w), (toInt32 (Z.quot p w)), dv.
  rewrite <- Hpxy. by repeat split; try apply Hb.
Qed.

Lemma bfs_step_spec s :
  LInv s -> head s < tail s ->
  LInv (bfs_step w h d s) ∧ head (bfs_step w h d s) = head s + 1.
Proof.
  intros HL Hlt. pose proof (li_inv _ HL) as HI.
  destruct (bfs_step_defined s HL Hlt) as (x & y & dv & Hb & Hq & Hdv & Hne & Hx & Hy).
  unfold bfs_step. rewrite Hq, Hdv, Hx, Hy.
  set (s0 := {| dist := dist s; q := q s; head := head s + 1; tail := tail s |}).
  assert (HV0 : VInv (head s) x y dv [] s0).
  { constructor; simpl; try done.
    - destruct HI. constructor; simpl; auto. lia.
    - apply HL.
    - apply HL.
    - intros pl vl. apply (li_window _ HL (y * w + x) dv); done.
    - intros x' y' Hin. by apply elem_of_nil in Hin. }
  cbn [fold_left].
  apply (visit_spec _ _ _ _ _ _ (x - 1) y) in HV0; [|unfold adjacent4; lia].
  apply (visit_spec _ _ _ _ _ _ (x + 1) y) in HV0; [|unfold adjacent4; lia].
  apply (visit_spec _ _ _ _ _ _ x (y - 1)) in HV0; [|unfold adjacent4; lia].
  apply (visit_spec _ _ _ _ _ _ x (y + 1)) in HV0; [|unfold adjacent4; lia].
  set (s4 := visit _ _ _ _ _ _) in *.
  pose proof (vi_inv _ _ _ _ _ _ HV0) as HI4.
  split; [|apply HV0].
  constructor.
  - done.
  - apply HV0.
  - rewrite (vi_head _ _ _ _ _ _ HV0).
    intros i xa ya xb yb Hi Hba Hqa Hadj Hbb Hob.
    destruct (decide (i = head s)) as [->|Hni].
    + rewrite (vi_slot _ _ _ _ _ _ HV0) in Hqa. injection Hqa as Hqa.
      destruct (idx_inj _ _ _ _ Hb Hba Hqa) as [<- <-].
      apply (vi_seen _ _ _ _ _ _ HV0); auto.
      unfold adjacent4 in Hadj.
      destruct Hadj as [[-> ->] | [[-> ->] | [[-> ->] | [-> ->]]]];
        rewrite !elem_of_cons; auto.
    + apply (vi_done _ _ _ _ _ _ HV0 i xa ya xb yb); auto. lia.
  - rewrite (vi_head _ _ _ _ _ _ HV0). intros ph vh Hlt' Hph Hvh pl vl Hpl Hvl.
    assert (vl <= dv + 1) by (eapply (vi_window _ _ _ _ _ _ HV0); eauto).
    assert (dv <= vh); [|lia].
    destruct (bi_head _ HI).
    apply (bi_sorted _ HI4 (head s) (head s + 1) (y * w + x) ph dv vh);
      [lia|done|apply HV0|done|apply HV0|done].
Qed.

Lemma bfs_spec fuel : forall s,
  LInv s -> w * h - head s <= Z.of_nat fuel ->
  exists s', bfs fuel w h d s = Some s' ∧ LInv s' ∧ head s' = tail s'.
Proof.
  induction fuel as [|fuel IH]; intros s HL Hfuel;
    pose proof (QInv_bound _ _ _ _ (bi_queue _ (li_inv _ HL)));
    pose proof (bi_head _ (li_inv _ HL)); simpl;
    destruct (Z.ltb_spec (head s) (tail s)).
  - lia.
  - exists s. split; [done|]. split; [done|]. lia.
  - destruct (bfs_step_spec s HL) as [HL' Hh']; [done|]. apply IH; [done|]. lia.
  - exists s. split; [done|]. split; [done|]. lia.
Qed.

(** The distance computation terminates with the true distance of every
    opaque pixel, and leaves the others at -1. *)
Lemma edge_distance_spec :
  exists s, edge_distance w h d = Some s ∧
    forall x y, in_bounds w h x y ->
      exists v, ta_get (dist s) (y * w + x) = Some v ∧
        (opaque w d x y -> 0 <= v ∧ edge_dist w h d (Z.to_nat v) x y).
Proof.
  destruct seed_edges_spec as (HI & Hh0 & Hval & _ & Hed).
  set (s0 := seed_edges w h d (dist_init (w * h))) in *.
  assert (HL0 : LInv s0).
  { constructor.
    - done.
    - intros x y He. apply Hed; [apply He| |done].
      apply idx_range. apply He.
    - rewrite Hh0. intros i ? ? ? ? Hi. lia.
    - intros ph vh Hlt Hph Hvh pl vl Hpl Hvl.
      destruct (QInv_get _ _ _ _ _ (bi_queue _ HI) (conj (proj1 (bi_head _ HI)) Hlt))
        as (ph' & Hph' & _ & vh' & Hvh' & Hne).
      assert (vh = 0) by (destruct (Hval _ _ Hvh); congruence).
      destruct (Hval _ _ Hvl); lia. }
  unfold edge_distance.
  destruct (bfs_spec (Z.to_nat (w * h)) s0 HL0) as (s & Hs & HL & Hdone).
  { pose proof size_nonneg. lia. }
  exists s. split; [done|].
  pose proof (li_inv _ HL) as HIs.
  assert (Hall : forall k x y, edge_walk w h d k x y -> assigned s (y * w + x)).
  { induction 1 as [xa ya He | k xa ya xb yb Hwalk IH Hadj Hbb Hob].
    - by apply (li_edges _ HL).
    - destruct (edge_walk_inv _ _ _ Hwalk) as [Hba Hoa].
      assert (Hin : ya * w + xa ∈ qpre (q s) (tail s)).
      { apply (bi_queue _ HIs). split; [by apply idx_range|done]. }
      apply qpre_elem in Hin as (i & Hi & Hq).
      apply (li_done _ HL i xa ya xb yb); auto. lia. }
  intros x y Hb. pose proof (idx_range _ _ Hb) as Hp.
  destruct (ta_get_is_Some (dist s) (y * w + x)) as [v Hv]; [rewrite (bi_len _ HIs); lia|].
  exists v. split; [done|]. intros Ho.
  destruct (edge_walk_exists x y Hb Ho) as [k Hk].
  destruct (Hall _ _ _ Hk) as (v' & Hv' & Hne).
  destruct (bi_dist _ HIs x y v Hb Hv) as [->|(_ & ? & ?)]; [congruence|done].
Qed.

(** *** Phase 2: the clamp *)

Definition clamps (dm : list Z) (p : Z) : bool :=
  negb (js_eq (alphaAt d p) 0) && js_gt (ta_get dm p) KEEP_EDGE_PX.

Lemma clamp_pixel_spec dm dc i :
  0 <= i < w * h -> length dc = length d ->
  ta_get dc (i * 4 + 3) = ta_get d (i * 4 + 3) ->
  length (clamp_pixel dm dc i) = length d ∧
  forall j, ta_get (clamp_pixel dm dc i) j =
    if decide (j = i * 4 + 3) then (if clamps dm i then Some 255 else ta_get d j)
    else ta_get dc j.
Proof.
  intros Hi Hl Hsame. unfold clamp_pixel, clamps, alphaAt. rewrite Hsame.
  destruct (js_eq (ta_get d (i * 4 + 3)) 0); simpl.
  { split; [done|]. intros j. case_decide; subst; auto. }
  destruct (js_gt (ta_get dm i) KEEP_EDGE_PX).
  - change (toUint8 255) with 255. split; [by rewrite length_ta_set|].
    intros j. case_decide as Hj.
    + subst j. apply ta_get_set_eq. lia.
    + by apply ta_get_set_ne.
  - split; [done|]. intros j. case_decide; subst; auto.
Qed.

Lemma clamp_interior_spec dm :
  length (clamp_interior (w * h) dm d) = length d ∧
  forall p c, 0 <= p < w * h -> 0 <= c < 4 ->
    ta_get (clamp_interior (w * h) dm d) (p * 4 + c) =
      if (c =? 3) && clamps dm p then Some 255 else ta_get d (p * 4 + c).
Proof.
  unfold clamp_interior.
  set (P := fun (i : Z) (dc : list Z) =>
     length dc = length d ∧
     forall p c, 0 <= p < w * h -> 0 <= c < 4 ->
       ta_get dc (p * 4 + c) =
         if (p <? i) && ((c =? 3) && clamps dm p) then Some 255 else ta_get d (p * 4 + c)).
  assert (HP : P (Z.max 0 (w * h)) (fold_left (clamp_pixel dm) (seqZ 0 (w * h)) d)).
  { apply fold_seqZ_ind.
    - split; [done|]. intros p c Hp Hc. destruct (Z.ltb_spec p 0); [lia|done].
    - intros i dc Hi [Hl Hg].
      destruct (clamp_pixel_spec dm dc i Hi Hl) as [Hl' Hg'].
      { rewrite Hg by lia. destruct (Z.ltb_spec i i); [lia|done]. }
      split; [done|]. intros p c Hp Hc. rewrite Hg'.
      case_decide as Hpi.
      + assert (p = i ∧ c = 3) as [-> ->] by lia.
        destruct (Z.ltb_spec i (i + 1)); [|lia]. simpl.
        destruct (clamps dm i); done.
      + rewrite Hg by done.
        destruct (Z.ltb_spec p i), (Z.ltb_spec p (i + 1)); try lia; try done.
        assert (p = i) as -> by lia. simpl.
        destruct (Z.eqb_spec c 3) as [->|Hc3]; [lia|done]. }
  pose proof size_nonneg. replace (Z.max 0 (w * h)) with (w * h) in HP by lia.
  destruct HP as [Hl Hg]. split; [done|].
  intros p c Hp Hc. rewrite Hg by done.
  destruct (Z.ltb_spec p (w * h)); [done|lia].
Qed.

(** Phase 2 returns, and says which alpha bytes it rewrote. *)
Lemma phase2_spec :
  exists d2, phase2 w h d = Some d2 ∧ length d2 = length d ∧
    forall x y, in_bounds w h x y ->
      (forall c, 0 <= c < 3 -> channel w d2 x y c = channel w d x y c) ∧
      (alpha w d x y = Some 0 -> alpha w d2 x y = Some 0) ∧
      (opaque w d x y ->
       exists k, edge_dist w h d k x y ∧
         alpha w d2 x y = if (2 <? k)%nat then Some 255 else alpha w d x y).
Proof.
  destruct edge_distance_spec as (s & Hs & Hdist).
  unfold phase2. rewrite Hs.
  destruct (clamp_interior_spec (dist s)) as [Hl Hg].
  eexists. split; [done|]. split; [done|].
  intros x y Hb. pose proof (idx_range _ _ Hb) as Hp.
  destruct (Hdist x y Hb) as (v & Hv & Hvo).
  split; [|split].
  - intros c Hc. unfold channel. rewrite Hg by lia.
    destruct (Z.eqb_spec c 3); [lia|done].
  - intros Ha. unfold alpha, channel in *. rewrite Hg by lia. simpl.
    unfold clamps, alphaAt. rewrite Ha. done.
  - intros Ho. destruct (Hvo Ho) as (Hv0 & Hed).
    exists (Z.to_nat v). split; [done|].
    unfold alpha, channel. rewrite Hg by lia. simpl.
    unfold clamps. rewrite (proj2 (opaque_js_eq x y Hb) Ho), Hv. simpl.
    unfold KEEP_EDGE_PX.
    destruct (Z.ltb_spec 2 v), (Nat.ltb_spec 2 (Z.to_nat v)); try lia; done.
Qed.

Lemma border_connected_dec x y :
  in_bounds w h x y -> border_connected w h d x y ∨ ¬ border_connected w h d x y.
Proof.
  intros Hb. destruct flood_fill_spec as (s & _ & _ & Hbg).
  rewrite <- (Hbg x y Hb). destruct (truthy _); auto.
Qed.

End Normalizer.

(** ** The alpha normalizer on decoded images *)

Section NormalizerClaims.

Import AlphaNormalizer Raster.

Lemma decodable_byte png i a :
  decodable png -> ta_get (data png) i = Some a -> 0 <= a <= 255.
Proof.
  intros (_ & _ & _ & _ & Hbytes) Hg. unfold ta_get in Hg.
  destruct (0 <=? i); [|done].
  rewrite Forall_forall in Hbytes. apply Hbytes. by eapply list_elem_of_lookup_2.
Qed.

(** Both phases return on a decodable image: no loop runs out of fuel. *)
Lemma makeInteriorOpaque_total png :
  decodable png ->
  exists d1 d2,
    phase1 (width png) (height png) (data png) = Some d1 ∧
    phase2 (width png) (height png) d1 = Some d2 ∧
    length d1 = length (data png) ∧ length d2 = length (data png) ∧
    makeInteriorOpaque png =
      Some {| width := width png; height := height png; data := d2 |}.
Proof.
  intros (Hw & Hh & Hsz & Hlen & _).
  destruct (phase1_spec _ _ _ Hw Hh Hsz Hlen) as (d1 & H1 & Hl1 & _).
  destruct (phase2_spec (width png) (height png) d1 Hw Hh Hsz) as (d2 & H2 & Hl2 & _);
    [by rewrite Hl1|].
  exists d1, d2. unfold makeInteriorOpaque. rewrite H1, H2.
  split; [done|]. split; [done|]. split; [done|]. split; [congruence|done].
Qed.

(** A 3x3 raster: an opaque ring around one transparent pixel. *)
Definition ring3 : PNG :=
  {| width := 3; height := 3;
     data := [10; 20; 30; 200;  10; 20; 30; 200;  10; 20; 30; 200;
              10; 20; 30; 200;  40; 50; 60; 0;    10; 20; 30; 200;
              10; 20; 30; 200;  10; 20; 30; 200;  10; 20; 30; 200] |}.

Lemma ring3_decodable : decodable ring3.
Proof.
  unfold decodable, ring3; simpl.
  split; [lia|]. split; [lia|]. split; [lia|]. split; [lia|].
  repeat (constructor; [lia|]). constructor.
Qed.

(** C1. Phase 1 of the alpha normalization: on every decodable image, a
    pixel of alpha 0 with no 4-connected path of alpha 0 pixels to the canvas
    border becomes (255, 255, 255, 255), and a pixel of alpha 0 that has such
    a path keeps alpha 0 and its red, green and blue bytes. *)
Theorem phase1_fills_enclosed_holes (png : PNG) :
  decodable png ->
  exists d1,
    phase1 (width png) (height png) (data png) = Some d1 ∧
    forall x y,
      in_bounds (width png) (height png) x y ->
      alpha (width png) (data png) x y = Some 0 ->
      ((¬ exists path, transparent_path (width png) (height png) (data png) x y path) ->
       forall c, 0 <= c < 4 -> channel (width png) d1 x y c = Some 255) ∧
      ((exists path, transparent_path (width png) (height png) (data png) x y path) ->
       alpha (width png) d1 x y = Some 0 ∧
       forall c, 0 <= c < 3 ->
         channel (width png) d1 x y c = channel (width png) (data png) x y c).
Proof.
  intros (Hw & Hh & Hsz & Hlen & _).
  destruct (phase1_spec _ _ _ Hw Hh Hsz Hlen) as (d1 & H1 & _ & Hpix).
  exists d1. split; [done|]. intros x y Hb Ha.
  destruct (Hpix x y Hb) as [Hfill Hkeep]. split.
  - intros Hnp. apply Hfill; [done|]. by rewrite border_connected_path.
  - intros Hp. apply border_connected_path in Hp.
    assert (Hk : forall c, 0 <= c < 4 ->
              channel (width png) d1 x y c = channel (width png) (data png) x y c).
    { apply Hkeep. tauto. }
    split.
    + unfold alpha. rewrite Hk by lia. exact Ha.
    + intros c Hc. apply Hk. lia.
Qed.

Lemma phase1_fills_enclosed_holes_witness :
  decodable ring3 ∧
  exists d1,
    phase1 (width ring3) (height ring3) (data ring3) = Some d1 ∧
    forall x y,
      in_bounds (width ring3) (height ring3) x y ->
      alpha (width ring3) (data ring3) x y = Some 0 ->
      ((¬ exists path, transparent_path (width ring3) (height ring3) (data ring3) x y path) ->
       forall c, 0 <= c < 4 -> channel (width ring3) d1 x y c = Some 255) ∧
      ((exists path, transparent_path (width ring3) (height ring3) (data ring3) x y path) ->
       alpha (width ring3) d1 x y = Some 0 ∧
       forall c, 0 <= c < 3 ->
         channel (width ring3) d1 x y c = channel (width ring3) (data ring3) x y c).
Proof.
  split; [exact ring3_decodable|].
  apply (phase1_fills_enclosed_holes ring3). exact ring3_decodable.
Defined.

(** C2. Phase 2 of the alpha normalization: on every decodable image, each
    pixel that has alpha > 0 after phase 1 has a BFS distance [k] to the
    nearest edge pixel; when [k] exceeds 2 its alpha becomes 255, and when
    [k] is at most 2 it keeps the alpha it had after phase 1. *)
Theorem phase2_clamps_interior (png : PNG) :
  decodable png ->
  exists d1 d2,
    phase1 (width png) (height png) (data png) = Some d1 ∧
    phase2 (width png) (height png) d1 = Some d2 ∧
    makeInteriorOpaque png =
      Some {| width := width png; height := height png; data := d2 |} ∧
    forall x y,
      in_bounds (width png) (height png) x y ->
      opaque (width png) d1 x y ->
      exists k,
        edge_dist (width png) (height png) d1 k x y ∧
        ((2 < k)%nat -> alpha (width png) d2 x y = Some 255) ∧
        ((k <= 2)%nat -> alpha (width png) d2 x y = alpha (width png) d1 x y).
Proof.
  intros Hdec. pose proof Hdec as (Hw & Hh & Hsz & Hlen & _).
  destruct (makeInteriorOpaque_total png Hdec) as (d1 & d2 & H1 & H2 & Hl1 & Hl2 & Hm).
  exists d1, d2. split; [done|]. split; [done|]. split; [done|].
  destruct (phase2_spec (width png) (height png) d1 Hw Hh Hsz) as (d2' & H2' & _ & Hpix);
    [by rewrite Hl1|].
  assert (d2' = d2) as -> by congruence.
  intros x y Hb Ho. destruct (Hpix x y Hb) as (_ & _ & Hk).
  destruct (Hk Ho) as (k & Hed & Ha). exists k. split; [done|].
  rewrite Ha. split; intros Hlt.
  - destruct (Nat.ltb_spec 2 k); [done|lia].
  - destruct (Nat.ltb_spec 2 k); [lia|done].
Qed.

Lemma phase2_clamps_interior_witness :
  decodable ring3 ∧
  exists d1 d2,
    phase1 (width ring3) (height ring3) (data ring3) = Some d1 ∧
    phase2 (width ring3) (height ring3) d1 = Some d2 ∧
    makeInteriorOpaque ring3 =
      Some {| width := width ring3; height := height ring3; data := d2 |} ∧
    forall x y,
      in_bounds (width ring3) (height ring3) x y ->
      opaque (width ring3) d1 x y ->
      exists k,
        edge_dist (width ring3) (height ring3) d1 k x y ∧
        ((2 < k)%nat -> alpha (width ring3) d2 x y = Some 255) ∧
        ((k <= 2)%nat -> alpha (width ring3) d2 x y = alpha (width ring3) d1 x y).
Proof.
  split; [exact ring3_decodable|].
  apply (phase2_clamps_interior ring3). exact ring3_decodable.
Defined.

(** C9. The alpha normalization keeps the width and the height of every
    decodable image, never lowers the alpha of a pixel, turns the enclosed
    alpha 0 holes white, and leaves the red, green and blue bytes of every
    other pixel as they were. *)
Theorem normalizer_frame (png : PNG) :
  decodable png ->
  exists out,
    makeInteriorOpaque png = Some out ∧
    width out = width png ∧ height out = height png ∧
    length (data out) = length (data png) ∧
    forall x y,
      in_bounds (width png) (height png) x y ->
      (exists a a', alpha (width png) (data png) x y = Some a ∧
                    alpha (width png) (data out) x y = Some a' ∧ a <= a') ∧
      (enclosed_hole (width png) (height png) (data png) x y ->
       forall c, 0 <= c < 4 -> channel (width png) (data out) x y c = Some 255) ∧
      (¬ enclosed_hole (width png) (height png) (data png) x y ->
       forall c, 0 <= c < 3 ->
         channel (width png) (data out) x y c = channel (width png) (data png) x y c).
Proof.
  intros Hdec. pose proof Hdec as (Hw & Hh & Hsz & Hlen & _).
  destruct (makeInteriorOpaque_total png Hdec) as (d1 & d2 & H1 & H2 & Hl1 & Hl2 & Hm).
  eexists. split; [exact Hm|]. simpl.
  split; [done|]. split; [done|]. split; [done|].
  destruct (phase1_spec _ _ _ Hw Hh Hsz Hlen) as (d1' & H1' & _ & Hp1).
  assert (d1' = d1) as -> by congruence.
  destruct (phase2_spec (width png) (height png) d1 Hw Hh Hsz) as (d2' & H2' & _ & Hp2);
    [by rewrite Hl1|].
  assert (d2' = d2) as -> by congruence.
  intros x y Hb.
  destruct (Hp1 x y Hb) as [Hfill Hkeep]. destruct (Hp2 x y Hb) as (Hrgb & Hzero & Hop).
  assert (Hhole : forall P : Prop,
            (enclosed_hole (width png) (height png) (data png) x y -> P) ->
            (¬ (alpha (width png) (data png) x y = Some 0 ∧
                ¬ border_connected (width png) (height png) (data png) x y) -> P) -> P).
  { intros P HP1 HP2. unfold enclosed_hole.
    destruct (border_connected_dec _ _ _ Hw Hh Hsz Hlen x y Hb) as [Hbc|Hnbc].
    - apply HP2. tauto.
    - destruct (decide (alpha (width png) (data png) x y = Some 0)) as [Ha|Ha].
      + apply HP1. split; [done|]. by rewrite <- border_connected_path.
      + apply HP2. tauto. }
  assert (Ha255 : alpha (width png) d1 x y = Some 255 ->
                  alpha (width png) d2 x y = Some 255).
  { intros Ha. destruct Hop as (k & _ & Hk); [exists 255; done|].
    rewrite Hk, Ha. by destruct (2 <? k)%nat. }
  split; [|split].
  - destruct (alphaAt_bounds _ _ _ Hw Hsz Hlen x y Hb) as [a Ha].
    change (alphaAt (data png) (y * width png + x))
      with (alpha (width png) (data png) x y) in Ha.
    pose proof (decodable_byte png _ _ Hdec Ha) as Hbyte.
    exists a. apply Hhole.
    + intros [Ha0 Hnp]. exists 255. split; [done|]. split; [|lia].
      apply Ha255. apply Hfill; [done| |lia]. by rewrite border_connected_path.
    + intros Hnh. assert (Ha1 : alpha (width png) d1 x y = Some a).
      { unfold alpha. rewrite Hkeep by (done || lia). exact Ha. }
      destruct (decide (a = 0)) as [->|Hne].
      * exists 0. split; [done|]. split; [by apply Hzero|lia].
      * destruct Hop as (k & _ & Hk); [by exists a|].
        rewrite Hk, Ha1. destruct (2 <? k)%nat; [exists 255|exists a];
          (split; [done|split; [done|lia]]).
  - intros Hh' c Hc. assert (Hall : forall c, 0 <= c < 4 ->
              channel (width png) d1 x y c = Some 255).
    { destruct Hh' as [Ha0 Hnp]. apply Hfill; [done|]. by rewrite border_connected_path. }
    destruct (decide (c = 3)) as [->|Hc3].
    + apply Ha255. apply Hall. lia.
    + rewrite Hrgb by lia. apply Hall. lia.
  - intros Hnh c Hc. rewrite Hrgb by done. apply Hkeep; [|lia].
    intros [Ha0 Hnbc]. apply Hnh. split; [done|]. by rewrite <- border_connected_path.
Qed.

Lemma normalizer_frame_witness :
  decodable ring3 ∧
  exists out,
    makeInteriorOpaque ring3 = Some out ∧
    width out = width ring3 ∧ height out = height ring3 ∧
    length (data out) = length (data ring3) ∧
    forall x y,
      in_bounds (width ring3) (height ring3) x y ->
      (exists a a', alpha (width ring3) (data ring3) x y = Some a ∧
                    alpha (width ring3) (data out) x y = Some a' ∧ a <= a') ∧
      (enclosed_hole (width ring3) (height ring3) (data ring3) x y ->
       forall c, 0 <= c < 4 -> channel (width ring3) (data out) x y c = Some 255) ∧
      (¬ enclosed_hole (width ring3) (height ring3) (data ring3) x y ->
       forall c, 0 <= c < 3 ->
         channel (width ring3) (data out) x y c = channel (width ring3) (data ring3) x y c).
Proof.
  split; [exact ring3_decodable|].
  apply (normalizer_frame ring3). exact ring3_decodable.
Defined.

End NormalizerClaims.

(** ** The contain resizer *)

Section Resizer.

Import ContainResizer Raster.

Variables (src : PNG) (dstW dstH : Z).
Hypothesis HdW : 0 < dstW.
Hypothesis HdH : 0 < dstH.

(** The byte the loops leave in channel [c] of destination pixel [(x, y)]. *)
Definition drawn_byte (x y c : Z) : Z :=
  let pl := place src dstW dstH in
  if outside src (inv_x pl x) (inv_y pl y) then 0
  else toUint8 (js_or0 (interpolate src (inv_x pl x) (inv_y pl y) c)).

Lemma draw_pixel_spec (y : Z) (dst : list Z) (x : Z) :
  in_bounds dstW dstH x y ->
  Z.of_nat (length dst) = dstW * dstH * 4 ->
  (forall c, 0 <= c < 4 -> ta_get dst ((y * dstW + x) * 4 + c) = Some 0) ->
  let dst' := draw_pixel src dstW (place src dstW dstH) y dst x in
  length dst' = length dst ∧
  forall j, ta_get dst' j =
    if decide ((y * dstW + x) * 4 <= j < (y * dstW + x) * 4 + 4)
    then Some (drawn_byte x y (j - (y * dstW + x) * 4))
    else ta_get dst j.
Proof.
  intros Hb Hl Hz. unfold draw_pixel, drawn_byte. simpl.
  assert (Hr : 0 <= y * dstW + x < dstW * dstH) by (unfold in_bounds in Hb; nia).
  set (di := (y * dstW + x) * 4) in *.
  destruct (outside src _ _).
  { split; [done|]. intros j. case_decide as Hj; [|done].
    replace j with (di + (j - di)) at 1 by lia. apply Hz. lia. }
  cbn [fold_left]. split; [by rewrite !length_ta_set|].
  intros j. case_decide as Hj.
  - assert (Hc : j = di + 0 ∨ j = di + 1 ∨ j = di + 2 ∨ j = di + 3) by lia.
    destruct Hc as [-> | [-> | [-> | ->]]].
    + rewrite !ta_get_set_ne by lia. rewrite ta_get_set_eq by lia.
      by replace (di + 0 - di) with 0 by lia.
    + rewrite !ta_get_set_ne by lia. rewrite ta_get_set_eq by (rewrite !length_ta_set; lia).
      by replace (di + 1 - di) with 1 by lia.
    + rewrite !ta_get_set_ne by lia. rewrite ta_get_set_eq by (rewrite !length_ta_set; lia).
      by replace (di + 2 - di) with 2 by lia.
    + rewrite ta_get_set_eq by (rewrite !length_ta_set; lia).
      by replace (di + 3 - di) with 3 by lia.
  - rewrite !ta_get_set_ne by lia. done.
Qed.

(** [n] destination pixels, in row-major order, have been drawn. *)
Definition Drawn (n : Z) (dst : list Z) : Prop :=
  Z.of_nat (length dst) = dstW * dstH * 4 ∧
  forall x y c, in_bounds dstW dstH x y -> 0 <= c < 4 ->
    ta_get dst ((y * dstW + x) * 4 + c) =
      Some (if y * dstW + x <? n then drawn_byte x y c else 0).

Lemma draw_pixel_Drawn y dst x :
  in_bounds dstW dstH x y -> Drawn (y * dstW + x) dst ->
  Drawn (y * dstW + x + 1) (draw_pixel src dstW (place src dstW dstH) y dst x).
Proof.
  intros Hb [Hl Hd].
  destruct (draw_pixel_spec y dst x Hb Hl) as [Hl' Hg].
  { intros c Hc. rewrite Hd by done. by rewrite Z.ltb_irrefl. }
  split; [by rewrite Hl'|].
  intros x' y' c Hb' Hc. rewrite Hg.
  assert (Hinj : y' * dstW + x' = y * dstW + x -> x' = x ∧ y' = y).
  { unfold in_bounds in *. intros ?. assert (y' = y) by nia. lia. }
  case_decide as Hj.
  - assert (E : y' * dstW + x' = y * dstW + x) by lia.
    destruct (Hinj E) as [-> ->].
    destruct (Z.ltb_spec (y * dstW + x) (y * dstW + x + 1)); [|lia].
    f_equal. f_equal. lia.
  - rewrite Hd by done. f_equal.
    destruct (Z.ltb_spec (y' * dstW + x') (y * dstW + x)),
             (Z.ltb_spec (y' * dstW + x') (y * dstW + x + 1)); try lia; done.
Qed.

Lemma resize_Drawn : Drawn (dstW * dstH) (data (resizeContainBilinear src dstW dstH)).
Proof.
  unfold resizeContainBilinear. simpl.
  set (pl := place src dstW dstH).
  assert (Hrow : forall y dst, 0 <= y < dstH -> Drawn (y * dstW) dst ->
            Drawn ((y + 1) * dstW) (fold_left (draw_pixel src dstW pl y) (seqZ 0 dstW) dst)).
  { intros y dst Hy Hs.
    assert (Hx := fold_seqZ_ind (fun x dst => Drawn (y * dstW + x) dst)
                    (draw_pixel src dstW pl y) dstW dst).
    replace (Z.max 0 dstW) with dstW in Hx by lia.
    replace ((y + 1) * dstW) with (y * dstW + dstW) by lia. apply Hx.
    - by replace (y * dstW + 0) with (y * dstW) by lia.
    - intros x dst' Hx' Hs'. replace (y * dstW + (x + 1)) with (y * dstW + x + 1) by lia.
      apply draw_pixel_Drawn; [|done]. unfold in_bounds. lia. }
  assert (Hall := fold_seqZ_ind (fun y dst => Drawn (y * dstW) dst)
            (fun dst y => fold_left (draw_pixel src dstW pl y) (seqZ 0 dstW) dst)
            dstH (ta_new (dstW * dstH * 4) 0)).
  replace (Z.max 0 dstH) with dstH in Hall by lia.
  replace (dstW * dstH) with (dstH * dstW) at 1 by lia. apply Hall.
  - split; [apply length_ta_new; nia|].
    intros x y c Hb Hc. rewrite ta_get_new by (unfold in_bounds in Hb; nia).
    destruct (Z.ltb_spec (y * dstW + x) (0 * dstW)); [unfold in_bounds in Hb; nia|done].
  - intros y dst Hy Hs. by apply Hrow.
Qed.

End Resizer.

(** [| 0] cuts the fraction of a finite number off, toward zero: for
    [(-1)^sg * m * 2^e] the result has magnitude [a] with
    [a <= m * 2^e < a + 1]. *)
Lemma js_or0_truncates (v : float) (sg : bool) (m : positive) (e : Z) :
  Prim2SF v = S754_finite sg m e ->
  exists a, ContainResizer.js_or0 v = toInt32 (if sg then - a else a) ∧ 0 <= a ∧
    (0 <= e -> a = Z.pos m * 2 ^ e) ∧
    (e < 0 -> a * 2 ^ (- e) <= Z.pos m < (a + 1) * 2 ^ (- e)).
Proof.
  intros Hv. unfold ContainResizer.js_or0, ContainResizer.truncZ. rewrite Hv. simpl.
  destruct (Z.leb_spec 0 e) as [He|He].
  - exists (Z.pos m * 2 ^ e). split; [done|]. split; [|split; [done|lia]].
    assert (0 < 2 ^ e) by (apply Z.pow_pos_nonneg; lia). lia.
  - exists (Z.pos m / 2 ^ (- e)).
    assert (Hp : 0 < 2 ^ (- e)) by (apply Z.pow_pos_nonneg; lia).
    split; [done|]. split; [apply Z.div_pos; lia|]. split; [lia|]. intros _.
    pose proof (Z.mul_div_le (Z.pos m) _ Hp).
    pose proof (Z.mul_succ_div_gt (Z.pos m) _ Hp). lia.
Qed.

Section ResizerClaims.

Import ContainResizer Raster.

(** Scenario B of the specification: a 4x4 opaque white source. *)
Definition white4 : PNG := {| width := 4; height := 4; data := replicate 64 255 |}.

(** A 2x1 source, transparent black next to opaque white. *)
Definition ramp2 : PNG :=
  {| width := 2; height := 1; data := [0; 0; 0; 0; 255; 255; 255; 255] |}.

(** C3. [resizeContainBilinear] returns a raster of exactly the target
    size; a destination pixel whose inverse-mapped source coordinate falls
    outside [0, W-1] x [0, H-1] has its four channels 0; every other pixel
    holds the interpolated value with its fraction cut off ([| 0], not a
    rounding: 127.5 is stored as 127); and the 4x4 white source resized into
    8x2 has scale 0.5, offsets 3 and 0, and per row three empty pixels, two
    white ones and three empty ones. *)
Theorem resize_contain_spec (src : PNG) (dstW dstH : Z) :
  0 < dstW -> 0 < dstH ->
  (width (resizeContainBilinear src dstW dstH) = dstW ∧
   height (resizeContainBilinear src dstW dstH) = dstH ∧
   Z.of_nat (length (data (resizeContainBilinear src dstW dstH))) = dstW * dstH * 4) ∧
  (forall x y c,
     in_bounds dstW dstH x y -> 0 <= c < 4 ->
     outside src (inv_x (place src dstW dstH) x) (inv_y (place src dstW dstH) y) = true ->
     channel dstW (data (resizeContainBilinear src dstW dstH)) x y c = Some 0) ∧
  (forall x y c,
     in_bounds dstW dstH x y -> 0 <= c < 4 ->
     outside src (inv_x (place src dstW dstH) x) (inv_y (place src dstW dstH) y) = false ->
     channel dstW (data (resizeContainBilinear src dstW dstH)) x y c =
       Some (toUint8 (js_or0 (interpolate src (inv_x (place src dstW dstH) x)
                                              (inv_y (place src dstW dstH) y) c)))) ∧
  (forall v sg m e,
     Prim2SF v = S754_finite sg m e ->
     exists a, js_or0 v = toInt32 (if sg then - a else a) ∧ 0 <= a ∧
       (0 <= e -> a = Z.pos m * 2 ^ e) ∧
       (e < 0 -> a * 2 ^ (- e) <= Z.pos m < (a + 1) * 2 ^ (- e))) ∧
  (interpolate ramp2 (inv_x (place ramp2 4 2) 1) (inv_y (place ramp2 4 2) 0) 3
     = 127.5%float ∧
   channel 4 (data (resizeContainBilinear ramp2 4 2)) 1 0 3 = Some 127) ∧
  (place white4 8 2 = {| scale := 0.5%float; offX := 3%float; offY := 0%float |} ∧
   resizeContainBilinear white4 8 2 =
     {| width := 8; height := 2;
        data := (replicate 12 0 ++ replicate 8 255 ++ replicate 12 0) ++
                (replicate 12 0 ++ replicate 8 255 ++ replicate 12 0) |}).
Proof.
  intros HdW HdH.
  destruct (resize_Drawn src dstW dstH HdW HdH) as [Hl Hd].
  split; [|split; [|split; [|split; [|split]]]].
  - done.
  - intros x y c Hb Hc Hout. unfold channel. rewrite Hd by done.
    destruct (Z.ltb_spec (y * dstW + x) (dstW * dstH)); [|unfold in_bounds in Hb; nia].
    unfold drawn_byte. by rewrite Hout.
  - intros x y c Hb Hc Hin. unfold channel. rewrite Hd by done.
    destruct (Z.ltb_spec (y * dstW + x) (dstW * dstH)); [|unfold in_bounds in Hb; nia].
    unfold drawn_byte. by rewrite Hin.
  - apply js_or0_truncates.
  - split; vm_compute; reflexivity.
  - split; vm_compute; reflexivity.
Qed.

Lemma resize_contain_spec_witness :
  0 < 8 ∧ 0 < 2 ∧
  (width (resizeContainBilinear white4 8 2) = 8 ∧
   height (resizeContainBilinear white4 8 2) = 2 ∧
   Z.of_nat (length (data (resizeContainBilinear white4 8 2))) = 8 * 2 * 4) ∧
  (forall x y c,
     in_bounds 8 2 x y -> 0 <= c < 4 ->
     outside white4 (inv_x (place white4 8 2) x) (inv_y (place white4 8 2) y) = true ->
     channel 8 (data (resizeContainBilinear white4 8 2)) x y c = Some 0).
Proof.
  split; [lia|]. split; [lia|].
  destruct (resize_contain_spec white4 8 2) as (H1 & H2 & _); [lia|lia|].
  split; [exact H1|exact H2].
Defined.

End ResizerClaims.

(** ** The result fetch *)

Section ResultFetch.

Import Handlers.

Variable E : env.




(** *** The lines of the output artifact *)


Lemma split_lines_app l rest cur :
  10 ∉ l -> split_lines (l ++ rest) cur = split_lines rest (rev l ++ cur).
Proof.
  revert cur. induction l as [|c l IH]; intros cur Hl; simpl; [done|].
  apply not_elem_of_cons in Hl as [Hc Hl].
  destruct (Z.eqb_spec c 10); [done|].
  rewrite IH by done. by rewrite <- app_assoc.
Qed.


Lemma split_lines_lf l rest :
  10 ∉ l -> last l ≠ Some 13 -> split_lines (l ++ 10 :: rest) [] = l :: split_lines rest [].
Proof.
  intros Hlf Hcr. rewrite split_lines_app by done. simpl.
  rewrite app_nil_r. f_equal.
  destruct (rev l) as [|c r] eqn:Hr; [by rewrite <- (rev_involutive l), Hr|].
  assert (Hl : l = rev r ++ [c]) by (by rewrite <- (rev_involutive l), Hr).
  destruct (decide (c = 13)) as [->|Hc].
  - exfalso. apply Hcr. rewrite Hl. by rewrite last_snoc.
  - assert (Hm : match c :: r with 13 :: cur' => cur' | _ => c :: r end = c :: r).
    { repeat case_match; congruence. }
    by rewrite Hm, <- Hr, rev_involutive.
Qed.

Lemma split_lines_crlf l rest :
  10 ∉ l -> split_lines (l ++ 13 :: 10 :: rest) [] = l :: split_lines rest [].
Proof.
  intros Hlf.
  replace (l ++ 13 :: 10 :: rest) with ((l ++ [13]) ++ 10 :: rest) by (by rewrite <- app_assoc).
  rewrite split_lines_app.
  2:{ intros [?|Hin]%elem_of_app; [done|].
      apply elem_of_cons in Hin as [?|Hin]; [done|]. by apply elem_of_nil in Hin. }
  simpl. rewrite app_nil_r, rev_app_distr. simpl. by rewrite rev_involutive.
Qed.



(** *** Records with the requested correlation id *)







End ResultFetch.

(** ** A small upstream service to run the handlers against *)

Module Demo.

Import Handlers.

Definition field (k : string) (v : json) : jstring * json := (lit k, v).

Definition completed_status : json :=
  JObj [field "status" (JStr (lit "completed"));
        field "output_file_id" (JStr (lit "file-out"))].

Definition running_status : json := JObj [field "status" (JStr (lit "in_progress"))].

(** An output record for correlation id [cid]: a successful sub-response
    with payload [b64], or one without image data. *)
Definition record (cid : string) (b64 : option string) : json :=
  JObj [field "custom_id" (JStr (lit cid));
        field "response"
          (JObj [field "body"
             (JObj [field "data"
                (JArr [JObj match b64 with
                            | Some s => [field "b64_json" (JStr (lit s))]
                            | None => []
                            end])])])].

(** The answer of the image endpoint with [v] as its [b64_json]. *)
Definition generated (v : json) : json :=
  JObj [field "data" (JArr [JObj [field "b64_json" v]])].

(** [JSON.parse] on the few texts this service sends. *)
Definition parse (s : jstring) : json + jstring :=
  if decide (s = lit "status:completed") then inl completed_status
  else if decide (s = lit "status:in_progress") then inl running_status
  else if decide (s = lit "c1:failed") then inl (record "c1" None)
  else if decide (s = lit "c1:X") then inl (record "c1" (Some "X"%string))
  else if decide (s = lit "c2:Y") then inl (record "c2" (Some "Y"%string))
  else if decide (s = lit "id:file-in") then inl (JObj [field "id" (JStr (lit "file-in"))])
  else if decide (s = lit "id:batch-1") then inl (JObj [field "id" (JStr (lit "batch-1"))])
  else if decide (s = lit "image:5") then inl (generated (JNum 5))
  else if decide (s = lit "image:[65,66]") then inl (generated (JArr [JNum 65; JNum 66]))
  else if decide (s = lit "image:QUI=") then inl (generated (JStr (lit "QUI=")))
  else inr (lit "Unexpected token").

Definition is_retrieve (r : request) : bool :=
  match r with RetrieveBatch _ => true | _ => false end.

(** The service answers "in_progress" to the first [ready_after] status
    queries and "completed" from then on; [output] is the output artifact. *)
Definition service (ready_after : nat) (output : jstring) (history : list request)
  (r : request) : fetch_result :=
  Responded
    match r with
    | UploadBatchFile _ => {| ok := true; status := 200; body := lit "id:file-in" |}
    | CreateBatch _ => {| ok := true; status := 200; body := lit "id:batch-1" |}
    | RetrieveBatch _ =>
        if (length (filter (fun r => is_retrieve r = true) history) <? ready_after)%nat
        then {| ok := true; status := 200; body := lit "status:in_progress" |}
        else {| ok := true; status := 200; body := lit "status:completed" |}
    | FileContent _ => {| ok := true; status := 200; body := output |}
    | GenerateImage _ => {| ok := false; status := 404; body := lit "not served" |}
    end.

(** A service that answers every request with 200 and [answer]. *)
Definition always (answer : jstring) (history : list request) (r : request) : fetch_result :=
  Responded {| ok := true; status := 200; body := answer |}.

(** A service that fails every request. *)
Definition outage (history : list request) (r : request) : fetch_result :=
  Responded {| ok := false; status := 503; body := lit "upstream overloaded" |}.

Definition payload_of_text (s : jstring) : payload + jstring :=
  if decide (s = lit "two items, one blank") then
    inl (Payload (Some [ {| message := Some (lit " hello "); keyword := Some (lit "cat") |};
                         {| message := Some (lit "   "); keyword := None |};
                         {| message := Some (lit "bye"); keyword := None |} ]))
  else if decide (s = lit "only blanks") then
    inl (Payload (Some [ {| message := Some (lit "  "); keyword := Some (lit "cat") |};
                         {| message := None; keyword := None |} ]))
  else if decide (s = lit "no items") then inl (Payload None)
  else if decide (s = lit "null") then inl PayloadNull
  else inr (lit "Unexpected token").

(** [Buffer.from] on an array of small numbers; other objects are refused. *)
Definition bytes_of (v : json) : option (list Z) :=
  match v with
  | JArr items => Some (map (fun x => match x with JNum n => n mod 256 | _ => 0 end) items)
  | _ => None
  end.

Definition env_with (srv : list request -> request -> fetch_result) : env :=
  {| server := srv;
     JSON_parse := parse;
     parse_payload := payload_of_text;
     stringify_line := fun l => bl_custom_id l ++ lit "|" ++ ib_prompt (bl_body l);
     null_access := lit "Cannot read properties of null";
     random_suffix := lit "8f3a";
     compose_prompt := fun m k => m ++ lit "/" ++ k;
     buildPrompt := fun m k => m ++ lit "/" ++ k;
     b64decode := fun s => s;
     Buffer_from_object := bytes_of;
     invalid_arg := lit "The first argument must be of type string";
     b64encode := fun b => b;
     png_read := fun _ => None;
     png_write := fun _ => None |}.

Definition cfg : config :=
  {| OPENAI_API_KEY := Some (lit "sk-test");
     IMAGE_MODEL := lit "gpt-image-1.5";
     IMAGE_QUALITY := lit "low";
     USE_BATCH := true;
     BATCH_POLL_TIMEOUT_MS := 25000;
     BATCH_POLL_INTERVAL_MS := 2000 |}.

(** The same with [OPENAI_USE_BATCH=0]. *)
Definition direct_cfg : config :=
  {| OPENAI_API_KEY := Some (lit "sk-test");
     IMAGE_MODEL := lit "gpt-image-1.5";
     IMAGE_QUALITY := lit "low";
     USE_BATCH := false;
     BATCH_POLL_TIMEOUT_MS := 25000;
     BATCH_POLL_INTERVAL_MS := 2000 |}.

Definition start : world := {| clock := 1700000000000; sent := [] |}.

(** An output artifact whose first record for "c1" carries no image. *)
Definition output_retry : jstring := lit "c1:failed" ++ [10] ++ lit "c1:X" ++ [13; 10].

Definition output_single : jstring := lit "c2:Y" ++ [10] ++ lit "c1:X" ++ [10].

End Demo.

Section ResultFetchClaims.

Import Handlers.



(** An artifact with both line ends and nothing after the last one. *)
Example output_lines_retry :
  output_lines Demo.output_retry = [lit "c1:failed"; lit "c1:X"].
Proof. reflexivity. Qed.

End ResultFetchClaims.

(** ** The batch submission endpoint *)

Section Submission.

Import Handlers.

(** "Empty or whitespace-only". *)
Definition blank (s : jstring) : bool := forallb is_space s.

Lemma trimStart_nil s : trimStart s = [] <-> blank s = true.
Proof.
  unfold blank. induction s as [|c s IH]; simpl; [done|].
  destruct (is_space c); simpl; [done|]. split; discriminate.
Qed.

Lemma trimStart_head s : trimStart s = [] ∨ exists c r, trimStart s = c :: r ∧ is_space c = false.
Proof.
  induction s as [|c s IH]; simpl; [by left|].
  destruct (is_space c) eqn:Hc; [done|]. right. eauto.
Qed.

Lemma blank_rev s : blank (rev s) = blank s.
Proof.
  unfold blank. induction s as [|c s IH]; simpl; [done|].
  rewrite forallb_app, IH. simpl. rewrite andb_true_r. apply andb_comm.
Qed.

(** [trim] leaves nothing exactly of the blank strings. *)
Lemma trim_nil s : trim s = [] <-> blank s = true.
Proof.
  unfold trim. split.
  - intros Hr. assert (Ht : trimStart (rev (trimStart s)) = []).
    { apply (f_equal (@rev Z)) in Hr. by rewrite rev_involutive in Hr. }
    apply trimStart_nil in Ht. rewrite blank_rev in Ht.
    destruct (trimStart_head s) as [Hs|(c & r & Hs & Hc)].
    + by apply trimStart_nil.
    + rewrite Hs in Ht. simpl in Ht. by rewrite Hc in Ht.
  - intros Hb. apply trimStart_nil in Hb. rewrite Hb. done.
Qed.

Lemma nonempty_trim s : nonempty (trim s) = negb (blank s).
Proof.
  destruct (blank s) eqn:Hb.
  - apply trim_nil in Hb. by rewrite Hb.
  - destruct (trim s) eqn:Ht; [|done].
    apply trim_nil in Ht. congruence.
Qed.


(** The survivors are the cleaned items with a message, in input order. *)
Lemma valid_items_spec (itemsIn : list item) :
  valid_items itemsIn =
    map clean_item (filter (fun x => blank (default [] (message x)) = false) itemsIn).
Proof.
  unfold valid_items. induction itemsIn as [|x l IH]; simpl; [done|].
  destruct (blank (default [] (message x))) eqn:Hb.
  - rewrite filter_cons_False by (simpl; rewrite nonempty_trim, Hb; done).
    rewrite filter_cons_False by (rewrite Hb; done). apply IH.
  - rewrite filter_cons_True by (simpl; rewrite nonempty_trim, Hb; done).
    rewrite filter_cons_True by done. simpl. by rewrite IH.
Qed.



Variable E : env.
Variable cfg : config.


End Submission.


Section SubmissionOrder.

Import Handlers.

Variable E : env.
Variable cfg : config.

(** The text of the correlation ids: time stamp, then the position counted
    from one and padded to four digits. *)
Example csv_custom_id_first :
  csv_custom_id 1700000000000 0 = lit "csv-1700000000000-0001".
Proof. vm_compute. reflexivity. Qed.

Example csv_custom_id_hundredth :
  csv_custom_id 1700000000000 99 = lit "csv-1700000000000-0100".
Proof. vm_compute. reflexivity. Qed.

(** C5. The batch submission endpoint drops the tasks whose message is empty
    or whitespace-only before it numbers anything; the [i]-th surviving task
    (counted from 0, in input order) gets the correlation id made of the
    submission time stamp and [i + 1] padded with zeros to four digits; the
    returned items and the uploaded request lines have one entry per
    surviving task, in that same order. *)
Theorem submission_keeps_order (text : jstring) (its : option (list item)) (w : world)
  (upRes batchRes : http_response) (up batch : json) :
  no_api_key cfg = false ->
  parse_payload E text = inl (Payload its) ->
  valid_items (default [] its) ≠ [] ->
  server E (sent w)
    (UploadBatchFile
       (join_lines (imap (csv_line E cfg (clock w)) (valid_items (default [] its))) ++ [10]))
    = Responded upRes ->
  ok upRes = true -> JSON_parse E (body upRes) = inl up -> up ≠ JNull ->
  server E
    (sent w ++
     [UploadBatchFile
        (join_lines (imap (csv_line E cfg (clock w)) (valid_items (default [] its))) ++ [10])])
    (CreateBatch (prop up (lit "id"))) = Responded batchRes ->
  ok batchRes = true -> JSON_parse E (body batchRes) = inl batch -> batch ≠ JNull ->
  valid_items (default [] its) =
    map clean_item (filter (fun x => blank (default [] (message x)) = false) (default [] its)) ∧
  POST_batch_csv E cfg (Some text) w =
    (Returned
       {| code := 200;
          content := BatchJson (prop batch (lit "id"))
                       (imap (csv_out_item (clock w)) (valid_items (default [] its))) |},
     {| clock := clock w;
        sent := (sent w ++
                 [UploadBatchFile
                    (join_lines (imap (csv_line E cfg (clock w))
                                      (valid_items (default [] its))) ++ [10])]) ++
                [CreateBatch (prop up (lit "id"))] |}) ∧
  length (imap (csv_out_item (clock w)) (valid_items (default [] its))) =
    length (valid_items (default [] its)) ∧
  length (imap (csv_line E cfg (clock w)) (valid_items (default [] its))) =
    length (valid_items (default [] its)) ∧
  forall i x,
    valid_items (default [] its) !! i = Some x ->
    imap (csv_out_item (clock w)) (valid_items (default [] its)) !! i =
      Some {| o_custom_id :=
                lit "csv-" ++ dec (clock w) ++ lit "-" ++ padStart0 4 (dec (Z.of_nat i + 1));
              o_message := fst x;
              o_keyword := snd x |} ∧
    imap (csv_line E cfg (clock w)) (valid_items (default [] its)) !! i =
      Some (stringify_line E
              {| bl_custom_id :=
                   lit "csv-" ++ dec (clock w) ++ lit "-" ++
                   padStart0 4 (dec (Z.of_nat i + 1));
                 bl_body := {| ib_model := IMAGE_MODEL cfg;
                               ib_prompt := buildPrompt E (fst x) (snd x);
                               ib_quality := IMAGE_QUALITY cfg |} |}).
Proof.
  intros Hkey Hparse Hne Hup Hupok Hupj Hupn Hb Hbok Hbj Hbn.
  split; [apply valid_items_spec|]. split; [|split; [|split]].
  - unfold POST_batch_csv, POST_batch_csv_try, try_catch. rewrite Hkey, Hparse.
    destruct (valid_items (default [] its)) as [|x l] eqn:Hv; [done|].
    cbn [length Nat.eqb].
    unfold bind at 1, now. cbn [clock].
    unfold bind at 1, openaiFetch. rewrite Hup, Hupok. cbn [negb clock sent].
    unfold bind at 1, res_json. rewrite Hupj. unfold ret at 1.
    unfold bind at 1, prop_of.
    assert (Hpu : (match up with JNull => throw (null_access E) | _ => ret (prop up (lit "id")) end)
                  = ret (prop up (lit "id"))) by (by destruct up).
    rewrite Hpu. unfold ret at 1.
    unfold bind at 1, openaiFetch. cbn [clock sent]. rewrite Hb, Hbok. cbn [negb].
    unfold bind at 1, res_json. rewrite Hbj. unfold ret at 1.
    unfold bind at 1, prop_of.
    assert (Hpb : (match batch with JNull => throw (null_access E) | _ => ret (prop batch (lit "id")) end)
                  = ret (prop batch (lit "id"))) by (by destruct batch).
    rewrite Hpb. reflexivity.
  - apply length_imap.
  - apply length_imap.
  - intros i x Hx. rewrite !list_lookup_imap, Hx. simpl. done.
Qed.

End SubmissionOrder.

Lemma submission_keeps_order_witness :
  Handlers.no_api_key Demo.cfg = false ∧
  Handlers.valid_items (default [] (Some
     [ {| Handlers.message := Some (Handlers.lit " hello "); Handlers.keyword := Some (Handlers.lit "cat") |};
       {| Handlers.message := Some (Handlers.lit "   "); Handlers.keyword := None |};
       {| Handlers.message := Some (Handlers.lit "bye"); Handlers.keyword := None |} ])) =
    [(Handlers.lit "hello", Handlers.lit "cat"); (Handlers.lit "bye", [])] ∧
  Handlers.POST_batch_csv (Demo.env_with (Demo.service 0 Demo.output_single)) Demo.cfg
    (Some (Handlers.lit "two items, one blank")) Demo.start =
    (Handlers.Returned
       {| Handlers.code := 200;
          Handlers.content := Handlers.BatchJson (Some (Handlers.JStr (Handlers.lit "batch-1")))
            [ {| Handlers.o_custom_id := Handlers.lit "csv-1700000000000-0001";
                 Handlers.o_message := Handlers.lit "hello"; Handlers.o_keyword := Handlers.lit "cat" |};
              {| Handlers.o_custom_id := Handlers.lit "csv-1700000000000-0002";
                 Handlers.o_message := Handlers.lit "bye"; Handlers.o_keyword := [] |} ] |},
     {| Handlers.clock := 1700000000000;
        Handlers.sent := [Handlers.UploadBatchFile
                   (Handlers.lit "csv-1700000000000-0001|hello/cat" ++ [10] ++
                    Handlers.lit "csv-1700000000000-0002|bye/" ++ [10]);
                 Handlers.CreateBatch (Some (Handlers.JStr (Handlers.lit "file-in")))] |}).
Proof.
  split; [reflexivity|]. split; [vm_compute; reflexivity|].
  destruct (submission_keeps_order (Demo.env_with (Demo.service 0 Demo.output_single))
              Demo.cfg (Handlers.lit "two items, one blank")
              (Some [ {| Handlers.message := Some (Handlers.lit " hello "); Handlers.keyword := Some (Handlers.lit "cat") |};
                      {| Handlers.message := Some (Handlers.lit "   "); Handlers.keyword := None |};
                      {| Handlers.message := Some (Handlers.lit "bye"); Handlers.keyword := None |} ])
              Demo.start
              {| Handlers.ok := true; Handlers.status := 200; Handlers.body := Handlers.lit "id:file-in" |}
              {| Handlers.ok := true; Handlers.status := 200; Handlers.body := Handlers.lit "id:batch-1" |}
              (Handlers.JObj [Demo.field "id" (Handlers.JStr (Handlers.lit "file-in"))])
              (Handlers.JObj [Demo.field "id" (Handlers.JStr (Handlers.lit "batch-1"))]))
    as (_ & Hrun & _);
    [reflexivity|reflexivity|vm_compute; discriminate|reflexivity|reflexivity|reflexivity
    |discriminate|reflexivity|reflexivity|reflexivity|discriminate|].
  etransitivity; [exact Hrun|]. vm_compute. reflexivity.
Defined.


(** ** Post-processing of a resolved image *)

Section PostProcessing.

Import Handlers.

(** C7, as stated, fails: in direct mode the image endpoint answers with
    the number 5 as its [b64_json]. The value passes the test [if (!b64)],
    the alpha normalization throws on it and is caught, and the decoding
    between the two stages throws outside both [try] blocks: the reply is the
    500 of the handler's catch-all, not 200 with an image. *)
Lemma untested_payload_fails_request :
  exists w',
    server (Demo.env_with (Demo.always (lit "image:5"))) (sent Demo.start)
      (GenerateImage
         {| ib_model := IMAGE_MODEL Demo.direct_cfg;
            ib_prompt := lit "hello/";
            ib_quality := IMAGE_QUALITY Demo.direct_cfg |}) =
      Responded {| ok := true; status := 200; body := lit "image:5" |} ∧
    generate_direct (Demo.env_with (Demo.always (lit "image:5")))
      {| ib_model := IMAGE_MODEL Demo.direct_cfg;
         ib_prompt := lit "hello/";
         ib_quality := IMAGE_QUALITY Demo.direct_cfg |} Demo.start =
      (Returned (inr (JNum 5)), w') ∧
    makeInteriorOpaquePngBase64 (Demo.env_with (Demo.always (lit "image:5"))) (JNum 5) = None ∧
    GET_generate (Demo.env_with (Demo.always (lit "image:5"))) Demo.direct_cfg 0
      (Some (lit "hello")) None Demo.start =
      (Returned {| code := 500;
                   content := ErrorJson (lit "Unexpected server error in /api/generate") |}, w').
Proof.
  eexists. split; [reflexivity|]. split; [vm_compute; reflexivity|].
  split; [reflexivity|]. vm_compute. reflexivity.
Qed.

(** In the same mode an array of numbers is not refused by [Buffer.from]:
    its bytes are no image, both stages fail and are caught, and the bytes
    are the 200 reply. *)
Example array_payload_sent_back :
  fst (GET_generate (Demo.env_with (Demo.always (lit "image:[65,66]"))) Demo.direct_cfg 0
         (Some (lit "hello")) None Demo.start) =
  Returned {| code := 200; content := Image [65; 66] |}.
Proof. vm_compute. reflexivity. Qed.

(** A string goes through both stages; the demonstration libraries decode
    no image, so its bytes come back as they are. *)
Example string_payload_served :
  fst (GET_generate (Demo.env_with (Demo.always (lit "image:QUI="))) Demo.direct_cfg 0
         (Some (lit "hello")) None Demo.start) =
  Returned {| code := 200; content := Image (lit "QUI=") |}.
Proof. vm_compute. reflexivity. Qed.

Lemma postprocess_decoded (E : env) (v : json) (w : world) :
  postprocess E v w =
    match Buffer_from E v with
    | None => (Thrown (invalid_arg E), w)
    | Some raw =>
        let pngBuf :=
          match makeInteriorOpaquePngBase64 E v with
          | Some fixed => b64decode E fixed
          | None => raw
          end in
        (Returned
           {| code := 200;
              content := Image match png_read E pngBuf with
                               | Some srcPng =>
                                   match resize_to_buffer E srcPng OUTPUT_WIDTH OUTPUT_HEIGHT with
                                   | Some buf => buf
                                   | None => pngBuf
                                   end
                               | None => pngBuf
                               end |}, w)
    end.
Proof.
  unfold postprocess, makeInteriorOpaquePngBase64.
  destruct (Buffer_from E v) as [raw|] eqn:Hraw.
  - destruct (png_read E raw) as [png|] eqn:Hr; [|by rewrite Hraw].
    destruct (AlphaNormalizer.makeInteriorOpaque png) as [out|]; [|by rewrite Hraw].
    destruct (png_write E out) as [bytes|]; [|by rewrite Hraw]. done.
  - by rewrite Hraw.
Qed.

(** The result fetch hands on non-empty strings only. *)
Lemma generate_by_batch_string (E : env) (cfg : config) fuel b w v w' :
  generate_by_batch E cfg fuel b w = (Returned (inr v), w') -> exists s, v = JStr s.
Proof.
  unfold generate_by_batch. unfold bind at 1.
  destruct (createSingleImageBatch E b w) as [[created| |] w1]; [|done..].
  unfold bind at 1, now. unfold bind at 1.
  destruct (poll_loop cfg fuel _ _ _) as [[[s|]| |] w2]; [|done..].
  intros [= <- _]. eauto.
Qed.

(** C7, amended. A resolved image that is a string (every image resolved
    through a batch job is one) always ends in a 200 reply with an image:
    when the alpha normalization throws, the raw image goes on to the resize
    stage, and when its buffer does not decode it is returned as it came;
    when the resize stage throws, the buffer it was given is returned; both
    GET handlers answer such an image with that reply. In direct mode the
    upstream value is taken as it is: when [Buffer.from] refuses it the
    normalization throws and the handler's catch-all answers 500; when
    [Buffer.from] accepts it the reply is 200. *)
Theorem postprocess_degrades_gracefully (E : env) (cfg : config) (b64 : jstring) :
  (forall w, exists buf,
     postprocess E (JStr b64) w = (Returned {| code := 200; content := Image buf |}, w)) ∧
  (makeInteriorOpaquePngBase64 E (JStr b64) = None ->
   forall w,
     postprocess E (JStr b64) w =
       (Returned
          {| code := 200;
             content := Image match png_read E (b64decode E b64) with
                              | Some srcPng =>
                                  match resize_to_buffer E srcPng OUTPUT_WIDTH OUTPUT_HEIGHT with
                                  | Some buf => buf
                                  | None => b64decode E b64
                                  end
                              | None => b64decode E b64
                              end |}, w)) ∧
  (png_read E (b64decode E b64) = None ->
   makeInteriorOpaquePngBase64 E (JStr b64) = None ∧
   forall w,
     postprocess E (JStr b64) w =
       (Returned {| code := 200; content := Image (b64decode E b64) |}, w)) ∧
  (forall fixed,
     makeInteriorOpaquePngBase64 E (JStr b64) = Some fixed ->
     (png_read E (b64decode E fixed) = None ∨
      exists srcPng, png_read E (b64decode E fixed) = Some srcPng ∧
                     resize_to_buffer E srcPng OUTPUT_WIDTH OUTPUT_HEIGHT = None) ->
     forall w,
       postprocess E (JStr b64) w =
         (Returned {| code := 200; content := Image (b64decode E fixed) |}, w)) ∧
  (forall bid cid w w',
     no_api_key cfg = false -> nonempty bid = true -> nonempty cid = true ->
     tryGetBatchResultImageBase64 E (Some (JStr bid)) cid w = (Returned (Done b64), w') ->
     GET_batch E cfg (Some bid) (Some cid) w = postprocess E (JStr b64) w') ∧
  (forall fuel msg kw w w' v,
     no_api_key cfg = false -> USE_BATCH cfg = true ->
     generate_by_batch E cfg fuel
       {| ib_model := IMAGE_MODEL cfg;
          ib_prompt := compose_prompt E (default [] msg) (default [] kw);
          ib_quality := IMAGE_QUALITY cfg |} w = (Returned (inr v), w') ->
     exists s, v = JStr s ∧
       GET_generate E cfg fuel msg kw w = postprocess E (JStr s) w') ∧
  (forall fuel msg kw w w' v,
     no_api_key cfg = false -> USE_BATCH cfg = false ->
     generate_direct E
       {| ib_model := IMAGE_MODEL cfg;
          ib_prompt := compose_prompt E (default [] msg) (default [] kw);
          ib_quality := IMAGE_QUALITY cfg |} w = (Returned (inr v), w') ->
     falsy (Some v) = false ∧
     (v = JStr b64 -> GET_generate E cfg fuel msg kw w = postprocess E (JStr b64) w') ∧
     (Buffer_from E v = None ->
      makeInteriorOpaquePngBase64 E v = None ∧
      GET_generate E cfg fuel msg kw w =
        (Returned {| code := 500;
                     content := ErrorJson (lit "Unexpected server error in /api/generate") |},
         w')) ∧
     (forall raw, Buffer_from E v = Some raw ->
        exists buf,
          GET_generate E cfg fuel msg kw w =
            (Returned {| code := 200; content := Image buf |}, w'))).
Proof.
  assert (Hstr : forall s w, exists buf,
            postprocess E (JStr s) w = (Returned {| code := 200; content := Image buf |}, w)).
  { intros s w. rewrite postprocess_decoded. simpl. eauto. }
  split; [exact (Hstr b64)|]. split; [|split; [|split; [|split; [|split]]]].
  - intros Hn w. rewrite postprocess_decoded. simpl. by rewrite Hn.
  - intros Hr. assert (Hn : makeInteriorOpaquePngBase64 E (JStr b64) = None).
    { unfold makeInteriorOpaquePngBase64. simpl. by rewrite Hr. }
    split; [done|]. intros w. rewrite postprocess_decoded. simpl. by rewrite Hn, Hr.
  - intros fixed Hf Hfail w. rewrite postprocess_decoded. simpl. rewrite Hf.
    destruct Hfail as [Hr|(srcPng & Hr & Hz)]; rewrite Hr; [done|]. by rewrite Hz.
  - intros bid cid w w' Hkey Hbid Hcid Hget.
    unfold GET_batch, GET_batch_try, try_catch. rewrite Hkey. simpl.
    rewrite Hbid, Hcid. simpl. unfold bind. rewrite Hget.
    destruct (Hstr b64 w') as [buf Hbuf]. by rewrite Hbuf.
  - intros fuel msg kw w w' v Hkey Hmode Hrun.
    destruct (generate_by_batch_string _ _ _ _ _ _ _ Hrun) as [s ->].
    exists s. split; [done|].
    unfold GET_generate, GET_generate_try, try_catch. rewrite Hkey, Hmode.
    unfold bind. rewrite Hrun.
    destruct (Hstr s w') as [buf Hbuf]. by rewrite Hbuf.
  - intros fuel msg kw w w' v Hkey Hmode Hrun.
    assert (Hget : GET_generate E cfg fuel msg kw w =
              match postprocess E v w' with
              | (Thrown _, w2) =>
                  (Returned {| code := 500;
                               content := ErrorJson (lit "Unexpected server error in /api/generate") |},
                   w2)
              | r => r
              end).
    { unfold GET_generate, GET_generate_try, try_catch. rewrite Hkey, Hmode.
      unfold bind. rewrite Hrun. by destruct (postprocess E v w') as [[| |] ?]. }
    split; [|split; [|split]].
    + revert Hrun. unfold generate_direct. unfold bind at 1.
      destruct (openaiFetch E _ w) as [[apiRes| |] w1]; [|done..].
      destruct (negb (ok apiRes)); [done|]. unfold bind at 1.
      destruct (res_json E apiRes w1) as [[data| |] w2]; [|done..].
      destruct data; try done;
        (destruct (direct_b64 _) as [x|]; [|done];
         destruct (falsy (Some x)) eqn:Hx; [done|]; by intros [= <- _]).
    + intros ->. rewrite Hget. destruct (Hstr b64 w') as [buf Hbuf]. by rewrite Hbuf.
    + intros Hb. split.
      * unfold makeInteriorOpaquePngBase64. by rewrite Hb.
      * rewrite Hget, postprocess_decoded, Hb. done.
    + intros raw Hb. rewrite Hget, postprocess_decoded, Hb. eauto.
Qed.

End PostProcessing.

(** ** Upstream failures *)

Section UpstreamFailures.

Import Handlers.

(** The reply has a JSON error field in which the first 200 code units of
    the upstream text [diag] occur. *)
Definition carries_diagnostic (r : reply) (diag : jstring) : Prop :=
  exists e pre suf, content r = ErrorJson e ∧ e = pre ++ slice0 200 diag ++ suf.

(** C8, as stated, fails: when the status query of /api/batch is answered
    with 503 "upstream overloaded", the reply is the fixed 500 text, in which
    the upstream text does not occur. *)
Lemma status_failure_diagnostic_dropped :
  exists r w',
    server (Demo.env_with Demo.outage) (sent Demo.start)
      (RetrieveBatch (Some (JStr (lit "batch-1")))) =
      Responded {| ok := false; status := 503; body := lit "upstream overloaded" |} ∧
    GET_batch (Demo.env_with Demo.outage) Demo.cfg
      (Some (lit "batch-1")) (Some (lit "c1")) Demo.start = (Returned r, w') ∧
    r = {| code := 500; content := ErrorJson (lit "Unexpected server error in /api/batch") |} ∧
    ¬ carries_diagnostic r (lit "upstream overloaded").
Proof.
  eexists _, _. split; [reflexivity|]. split; [vm_compute; reflexivity|].
  split; [reflexivity|].
  intros (e & pre & suf & He & Heq).
  assert (Hin : 109 ∈ e).
  { rewrite Heq. apply elem_of_app. right. apply elem_of_app. left.
    vm_compute. do 7 right. left. }
  simpl in He. injection He as <-.
  apply list_elem_of_In in Hin. vm_compute in Hin.
  repeat (destruct Hin as [Hin|Hin]; [discriminate Hin|]). exact Hin.
Qed.

Lemma upstream_error_diagnostic what r :
  exists pre, upstream_error what r = pre ++ slice0 200 (body r).
Proof.
  exists (lit what ++ lit " (" ++ dec (status r) ++ lit "): ").
  unfold upstream_error. by rewrite <- !app_assoc.
Qed.

Variable E : env.
Variable cfg : config.

(** C8, amended. In the batch submission endpoint a failed upload or job
    creation is answered with 502 and an error field that ends with the
    first 200 code units of the upstream text. In /api/generate and
    /api/batch a failed upload, job creation, status query or output fetch is
    thrown as an exception whose message carries that text, and every
    exception of the handler is answered with 500 and the fixed error text of
    the route, without the upstream text. *)
Theorem upstream_failures_surface :
  (forall text its w upRes,
     no_api_key cfg = false -> parse_payload E text = inl (Payload its) ->
     valid_items (default [] its) ≠ [] ->
     server E (sent w)
       (UploadBatchFile
          (join_lines (imap (csv_line E cfg (clock w)) (valid_items (default [] its))) ++ [10]))
       = Responded upRes ->
     ok upRes = false ->
     exists r w',
       POST_batch_csv E cfg (Some text) w = (Returned r, w') ∧
       r = {| code := 502;
              content := ErrorJson (upstream_error "OpenAI file upload failed" upRes) |} ∧
       carries_diagnostic r (body upRes)) ∧
  (forall text its w upRes up batchRes,
     no_api_key cfg = false -> parse_payload E text = inl (Payload its) ->
     valid_items (default [] its) ≠ [] ->
     server E (sent w)
       (UploadBatchFile
          (join_lines (imap (csv_line E cfg (clock w)) (valid_items (default [] its))) ++ [10]))
       = Responded upRes ->
     ok upRes = true -> JSON_parse E (body upRes) = inl up -> up ≠ JNull ->
     server E
       (sent w ++
        [UploadBatchFile
           (join_lines (imap (csv_line E cfg (clock w)) (valid_items (default [] its))) ++ [10])])
       (CreateBatch (prop up (lit "id"))) = Responded batchRes ->
     ok batchRes = false ->
     exists r w',
       POST_batch_csv E cfg (Some text) w = (Returned r, w') ∧
       r = {| code := 502;
              content := ErrorJson (upstream_error "OpenAI batch create failed" batchRes) |} ∧
       carries_diagnostic r (body batchRes)) ∧
  (forall bid cid w stRes,
     server E (sent w) (RetrieveBatch bid) = Responded stRes -> ok stRes = false ->
     tryGetBatchResultImageBase64 E bid cid w =
       (Thrown (upstream_error "OpenAI batch status failed" stRes),
        {| clock := clock w; sent := sent w ++ [RetrieveBatch bid] |})) ∧
  (forall bid cid w stRes st outRes,
     server E (sent w) (RetrieveBatch bid) = Responded stRes -> ok stRes = true ->
     JSON_parse E (body stRes) = inl st -> st ≠ JNull ->
     is_string (prop st (lit "status")) (lit "completed") = true ->
     falsy (prop st (lit "output_file_id")) = false ->
     server E (sent w ++ [RetrieveBatch bid]) (FileContent (prop st (lit "output_file_id")))
       = Responded outRes ->
     ok outRes = false ->
     tryGetBatchResultImageBase64 E bid cid w =
       (Thrown (upstream_error "OpenAI batch output fetch failed" outRes),
        {| clock := clock w;
           sent := (sent w ++ [RetrieveBatch bid]) ++
                   [FileContent (prop st (lit "output_file_id"))] |})) ∧
  (forall b w upRes,
     server E (sent w)
       (UploadBatchFile
          (stringify_line E
             {| bl_custom_id := lit "gen-" ++ dec (clock w) ++ lit "-" ++ random_suffix E;
                bl_body := b |} ++ [10])) = Responded upRes ->
     ok upRes = false ->
     exists w', createSingleImageBatch E b w =
                  (Thrown (upstream_error "OpenAI file upload failed" upRes), w')) ∧
  (forall b w upRes up batchRes,
     server E (sent w)
       (UploadBatchFile
          (stringify_line E
             {| bl_custom_id := lit "gen-" ++ dec (clock w) ++ lit "-" ++ random_suffix E;
                bl_body := b |} ++ [10])) = Responded upRes ->
     ok upRes = true -> JSON_parse E (body upRes) = inl up -> up ≠ JNull ->
     server E
       (sent w ++
        [UploadBatchFile
           (stringify_line E
              {| bl_custom_id := lit "gen-" ++ dec (clock w) ++ lit "-" ++ random_suffix E;
                 bl_body := b |} ++ [10])])
       (CreateBatch (prop up (lit "id"))) = Responded batchRes ->
     ok batchRes = false ->
     exists w', createSingleImageBatch E b w =
                  (Thrown (upstream_error "OpenAI batch create failed" batchRes), w')) ∧
  (forall bid cid w e w',
     GET_batch_try E cfg bid cid w = (Thrown e, w') ->
     GET_batch E cfg bid cid w =
       (Returned {| code := 500;
                    content := ErrorJson (lit "Unexpected server error in /api/batch") |}, w')) ∧
  (forall fuel msg kw w e w',
     GET_generate_try E cfg fuel msg kw w = (Thrown e, w') ->
     GET_generate E cfg fuel msg kw w =
       (Returned {| code := 500;
                    content := ErrorJson (lit "Unexpected server error in /api/generate") |}, w')) ∧
  (forall bid cid w stRes,
     no_api_key cfg = false -> nonempty bid = true -> nonempty cid = true ->
     server E (sent w) (RetrieveBatch (Some (JStr bid))) = Responded stRes ->
     ok stRes = false ->
     GET_batch E cfg (Some bid) (Some cid) w =
       (Returned {| code := 500;
                    content := ErrorJson (lit "Unexpected server error in /api/batch") |},
        {| clock := clock w; sent := sent w ++ [RetrieveBatch (Some (JStr bid))] |})).
Proof.
  assert (Hstatus : forall bid cid w stRes,
     server E (sent w) (RetrieveBatch bid) = Responded stRes -> ok stRes = false ->
     tryGetBatchResultImageBase64 E bid cid w =
       (Thrown (upstream_error "OpenAI batch status failed" stRes),
        {| clock := clock w; sent := sent w ++ [RetrieveBatch bid] |})).
  { intros bid cid w stRes Hsrv Hok.
    unfold tryGetBatchResultImageBase64, bind, openaiFetch. rewrite Hsrv, Hok. done. }
  repeat apply conj.
  - intros text its w upRes Hkey Hparse Hne Hup Hok.
    exists {| code := 502;
              content := ErrorJson (upstream_error "OpenAI file upload failed" upRes) |},
           {| clock := clock w;
              sent := sent w ++
                [UploadBatchFile
                   (join_lines (imap (csv_line E cfg (clock w))
                                     (valid_items (default [] its))) ++ [10])] |}.
    split; [|split; [reflexivity|]].
    + unfold POST_batch_csv, POST_batch_csv_try, try_catch. rewrite Hkey, Hparse.
      destruct (valid_items (default [] its)) as [|x l] eqn:Hv; [done|].
      cbn [length Nat.eqb]. unfold bind at 1, now. cbn [clock].
      unfold bind at 1, openaiFetch. rewrite Hup, Hok. reflexivity.
    + destruct (upstream_error_diagnostic "OpenAI file upload failed" upRes) as [pre Hpre].
      exists (upstream_error "OpenAI file upload failed" upRes), pre, [].
      split; [done|]. by rewrite app_nil_r.
  - intros text its w upRes up batchRes Hkey Hparse Hne Hup Hupok Hupj Hupn Hb Hbok.
    exists {| code := 502;
              content := ErrorJson (upstream_error "OpenAI batch create failed" batchRes) |},
           {| clock := clock w;
              sent := (sent w ++
                [UploadBatchFile
                   (join_lines (imap (csv_line E cfg (clock w))
                                     (valid_items (default [] its))) ++ [10])]) ++
                [CreateBatch (prop up (lit "id"))] |}.
    split; [|split; [reflexivity|]].
    + unfold POST_batch_csv, POST_batch_csv_try, try_catch. rewrite Hkey, Hparse.
      destruct (valid_items (default [] its)) as [|x l] eqn:Hv; [done|].
      cbn [length Nat.eqb]. unfold bind at 1, now. cbn [clock].
      unfold bind at 1, openaiFetch. rewrite Hup, Hupok. cbn [negb clock sent].
      unfold bind at 1, res_json. rewrite Hupj. unfold ret at 1.
      unfold bind at 1, prop_of.
      assert (Hpu : (match up with JNull => throw (null_access E) | _ => ret (prop up (lit "id")) end)
                    = ret (prop up (lit "id"))) by (by destruct up).
      rewrite Hpu. unfold ret at 1.
      unfold bind at 1, openaiFetch. cbn [clock sent]. rewrite Hb, Hbok. reflexivity.
    + destruct (upstream_error_diagnostic "OpenAI batch create failed" batchRes) as [pre Hpre].
      exists (upstream_error "OpenAI batch create failed" batchRes), pre, [].
      split; [done|]. by rewrite app_nil_r.
  - exact Hstatus.
  - intros bid cid w stRes st outRes Hsrv Hok Hparse Hnn Hst Hout Hsrv2 Hok2.
    unfold tryGetBatchResultImageBase64.
    unfold bind at 1, openaiFetch. rewrite Hsrv, Hok. cbn [negb].
    unfold bind at 1, res_json. rewrite Hparse. unfold ret at 1.
    unfold bind at 1, prop_of.
    assert (Hps : (match st with JNull => throw (null_access E) | _ => ret (prop st (lit "status")) end)
                  = ret (prop st (lit "status"))) by (by destruct st).
    rewrite Hps. unfold ret at 1. rewrite Hst, Hout. cbn [negb].
    unfold bind, openaiFetch. cbn [clock sent]. rewrite Hsrv2, Hok2. reflexivity.
  - intros b w upRes Hup Hok. eexists.
    unfold createSingleImageBatch. unfold bind at 1, now. cbn [clock].
    unfold bind at 1, openaiFetch. rewrite Hup, Hok. reflexivity.
  - intros b w upRes up batchRes Hup Hupok Hupj Hupn Hb Hbok. eexists.
    unfold createSingleImageBatch. unfold bind at 1, now. cbn [clock].
    unfold bind at 1, openaiFetch. rewrite Hup, Hupok. cbn [negb clock sent].
    unfold bind at 1, res_json. rewrite Hupj. unfold ret at 1.
    unfold bind at 1, prop_of.
    assert (Hpu : (match up with JNull => throw (null_access E) | _ => ret (prop up (lit "id")) end)
                  = ret (prop up (lit "id"))) by (by destruct up).
    rewrite Hpu. unfold ret at 1.
    unfold bind at 1, openaiFetch. cbn [clock sent]. rewrite Hb, Hbok. reflexivity.
  - intros bid cid w e w' Hrun. unfold GET_batch, try_catch. rewrite Hrun. reflexivity.
  - intros fuel msg kw w e w' Hrun. unfold GET_generate, try_catch. rewrite Hrun. reflexivity.
  - intros bid cid w stRes Hkey Hbid Hcid Hsrv Hok.
    unfold GET_batch, GET_batch_try, try_catch. rewrite Hkey. simpl.
    rewrite Hbid, Hcid. simpl. unfold bind.
    rewrite (Hstatus _ cid w stRes Hsrv Hok). reflexivity.
Qed.

End UpstreamFailures.

(** ** The bounded poll loop *)

Section Polling.

Import Handlers.

(** An action that takes no time on the clock and ends. *)
Definition instant {A} (m : M A) : Prop :=
  forall w, clock (snd (m w)) = clock w ∧ fst (m w) ≠ OutOfFuel.

Lemma instant_ret {A} (a : A) : instant (ret a).
Proof. intros w. done. Qed.

Lemma instant_throw {A} e : instant (@throw A e).
Proof. intros w. done. Qed.

Lemma instant_bind {A B} (m : M A) (k : A -> M B) :
  instant m -> (forall a, instant (k a)) -> instant (bind m k).
Proof.
  intros Hm Hk w. unfold bind. destruct (Hm w) as [Hc Hf].
  destruct (m w) as [[a|e|] w1]; simpl in *; [|done..].
  destruct (Hk a w1) as [Hc' Hf']. split; [congruence|done].
Qed.

Variable E : env.
Variable cfg : config.

Lemma instant_fetch r : instant (openaiFetch E r).
Proof. intros w. unfold openaiFetch. by destruct (server E (sent w) r). Qed.

Lemma instant_json r : instant (res_json E r).
Proof. unfold res_json. destruct (JSON_parse E (body r)); [apply instant_ret|apply instant_throw]. Qed.

Lemma instant_prop v k : instant (prop_of E v k).
Proof. unfold prop_of. destruct v; (apply instant_ret || apply instant_throw). Qed.

(** A status query is instantaneous in this model. *)
Lemma instant_tryGet bid cid : instant (tryGetBatchResultImageBase64 E bid cid).
Proof.
  unfold tryGetBatchResultImageBase64.
  apply instant_bind; [apply instant_fetch|]. intros stRes.
  destruct (negb (ok stRes)); [apply instant_throw|].
  apply instant_bind; [apply instant_json|]. intros st.
  apply instant_bind; [apply instant_prop|]. intros st_status.
  destruct (negb _); [apply instant_ret|].
  destruct (falsy _); [apply instant_throw|].
  apply instant_bind; [apply instant_fetch|]. intros outRes.
  destruct (negb (ok outRes)); [apply instant_throw|].
  destruct (scan_lines _ _ _); [apply instant_ret|apply instant_throw].
Qed.

Lemma poll_loop_found fuel poller started w b64 w1 :
  clock w - started < (BATCH_POLL_TIMEOUT_MS cfg) -> poller w = (Returned (Done b64), w1) ->
  poll_loop cfg (S fuel) poller started w = (Returned (Some b64), w1).
Proof.
  intros Ht Hp. cbn [poll_loop]. destruct (Z.ltb_spec (clock w - started) (BATCH_POLL_TIMEOUT_MS cfg)); [|lia].
  unfold bind. by rewrite Hp.
Qed.

Lemma poll_loop_not_ready fuel poller started w st w1 :
  clock w - started < (BATCH_POLL_TIMEOUT_MS cfg) -> poller w = (Returned (NotDone st), w1) ->
  poll_loop cfg (S fuel) poller started w =
    poll_loop cfg fuel poller started {| clock := clock w1 + (BATCH_POLL_INTERVAL_MS cfg); sent := sent w1 |}.
Proof.
  intros Ht Hp. cbn [poll_loop]. destruct (Z.ltb_spec (clock w - started) (BATCH_POLL_TIMEOUT_MS cfg)); [|lia].
  unfold bind at 1. rewrite Hp. reflexivity.
Qed.

Lemma poll_loop_time_up fuel poller started w :
  (BATCH_POLL_TIMEOUT_MS cfg) <= clock w - started ->
  poll_loop cfg fuel poller started w = (Returned None, w).
Proof.
  intros Ht. destruct fuel; cbn [poll_loop];
    destruct (Z.ltb_spec (clock w - started) (BATCH_POLL_TIMEOUT_MS cfg)); (lia || done).
Qed.

Lemma poll_loop_bound bid cid started :
  0 < (BATCH_POLL_INTERVAL_MS cfg) ->
  forall fuel w,
    (BATCH_POLL_TIMEOUT_MS cfg) - (clock w - started) <= Z.of_nat fuel * (BATCH_POLL_INTERVAL_MS cfg) ->
    exists res w',
      poll_loop cfg fuel (tryGetBatchResultImageBase64 E bid cid) started w = (res, w') ∧
      res ≠ OutOfFuel ∧ clock w <= clock w' ∧
      (w' = w ∨ clock w' - started < (BATCH_POLL_TIMEOUT_MS cfg) + (BATCH_POLL_INTERVAL_MS cfg)) ∧
      (forall b64, res = Returned (Some b64) -> clock w' - started < (BATCH_POLL_TIMEOUT_MS cfg)) ∧
      (res = Returned None -> (BATCH_POLL_TIMEOUT_MS cfg) <= clock w' - started).
Proof.
  intros Hint. induction fuel as [|fuel IH]; intros w Hfuel.
  - exists (Returned None), w. rewrite poll_loop_time_up by lia.
    split; [done|]. split; [done|]. split; [lia|]. split; [by left|].
    split; [done|]. intros _. lia.
  - destruct (Z.lt_ge_cases (clock w - started) (BATCH_POLL_TIMEOUT_MS cfg)) as [Hlt|Hge].
    2:{ exists (Returned None), w. rewrite poll_loop_time_up by lia.
        split; [done|]. split; [done|]. split; [lia|]. split; [by left|].
        split; [done|]. intros _. lia. }
    destruct (instant_tryGet bid cid w) as [Hclock Hfin].
    destruct (tryGetBatchResultImageBase64 E bid cid w) as [[[st|b64]|e|] w1] eqn:Hp;
      simpl in Hclock, Hfin; [| | |done].
    + rewrite (poll_loop_not_ready fuel _ started w st w1 Hlt Hp).
      destruct (IH {| clock := clock w1 + (BATCH_POLL_INTERVAL_MS cfg); sent := sent w1 |})
        as (res & w' & Hrun & Hres & Hmono & Hbound & Hfound & Hup).
      { simpl. lia. }
      exists res, w'. split; [done|]. split; [done|]. simpl in *.
      split; [lia|]. split; [|done].
      right. destruct Hbound as [->|Hb]; [simpl; lia|done].
    + exists (Returned (Some b64)), w1.
      rewrite (poll_loop_found fuel _ started w b64 w1 Hlt Hp).
      split; [done|]. split; [done|]. split; [lia|]. split; [right; lia|].
      split; [intros; lia|done].
    + exists (Thrown e), w1. cbn [poll_loop].
      destruct (Z.ltb_spec (clock w - started) (BATCH_POLL_TIMEOUT_MS cfg)); [|lia].
      unfold bind. rewrite Hp.
      split; [done|]. split; [done|]. split; [lia|]. split; [right; lia|]. done.
Qed.

(** C6. With a positive poll interval and a non-negative timeout, whatever
    the upstream service answers, the poll loop ends (some amount of fuel is
    enough, and any larger amount gives the same) less than one poll interval
    after the timeout, status queries taking no time; a found result is
    returned at once, within the timeout and without a sleep; a not-ready
    result is followed by a sleep of one interval and another poll; once the
    elapsed time has reached the timeout no further query is sent, and the
    handler answers 202 "pending" with the job and correlation ids. *)
Theorem poll_loop_terminates (bid : option json) (cid : jstring) (w : world) :
  0 < (BATCH_POLL_INTERVAL_MS cfg) -> 0 <= (BATCH_POLL_TIMEOUT_MS cfg) ->
  (exists n : nat, forall fuel, (n <= fuel)%nat ->
     exists res w',
       poll_loop cfg fuel (tryGetBatchResultImageBase64 E bid cid) (clock w) w = (res, w') ∧
       res ≠ OutOfFuel ∧
       clock w <= clock w' ∧ clock w' - clock w < (BATCH_POLL_TIMEOUT_MS cfg) + (BATCH_POLL_INTERVAL_MS cfg) ∧
       (forall b64, res = Returned (Some b64) -> clock w' - clock w < (BATCH_POLL_TIMEOUT_MS cfg)) ∧
       (res = Returned None -> (BATCH_POLL_TIMEOUT_MS cfg) <= clock w' - clock w)) ∧
  (forall fuel started w0 b64 w1,
     clock w0 - started < (BATCH_POLL_TIMEOUT_MS cfg) ->
     tryGetBatchResultImageBase64 E bid cid w0 = (Returned (Done b64), w1) ->
     poll_loop cfg (S fuel) (tryGetBatchResultImageBase64 E bid cid) started w0 =
       (Returned (Some b64), w1) ∧ clock w1 = clock w0) ∧
  (forall fuel started w0 st w1,
     clock w0 - started < (BATCH_POLL_TIMEOUT_MS cfg) ->
     tryGetBatchResultImageBase64 E bid cid w0 = (Returned (NotDone st), w1) ->
     poll_loop cfg (S fuel) (tryGetBatchResultImageBase64 E bid cid) started w0 =
       poll_loop cfg fuel (tryGetBatchResultImageBase64 E bid cid) started
         {| clock := clock w0 + (BATCH_POLL_INTERVAL_MS cfg); sent := sent w1 |}) ∧
  (forall fuel started w0,
     (BATCH_POLL_TIMEOUT_MS cfg) <= clock w0 - started ->
     poll_loop cfg fuel (tryGetBatchResultImageBase64 E bid cid) started w0 =
       (Returned None, w0)) ∧
  (forall fuel msg kw w0 w1 w',
     no_api_key cfg = false -> USE_BATCH cfg = true ->
     createSingleImageBatch E
       {| ib_model := IMAGE_MODEL cfg;
          ib_prompt := compose_prompt E (default [] msg) (default [] kw);
          ib_quality := IMAGE_QUALITY cfg |} w0 = (Returned (bid, cid), w1) ->
     poll_loop cfg fuel (tryGetBatchResultImageBase64 E bid cid) (clock w1) w1 =
       (Returned None, w') ->
     GET_generate E cfg fuel msg kw w0 =
       (Returned {| code := 202; content := PendingJson bid cid |}, w')).
Proof.
  intros Hint Htime. split; [|split; [|split; [|split]]].
  - exists (Z.to_nat (BATCH_POLL_TIMEOUT_MS cfg / (BATCH_POLL_INTERVAL_MS cfg) + 1)). intros fuel Hfuel.
    assert (Hn : BATCH_POLL_TIMEOUT_MS cfg
                 < (BATCH_POLL_TIMEOUT_MS cfg / BATCH_POLL_INTERVAL_MS cfg + 1)
                   * BATCH_POLL_INTERVAL_MS cfg).
    { pose proof (Z.mul_succ_div_gt (BATCH_POLL_TIMEOUT_MS cfg) (BATCH_POLL_INTERVAL_MS cfg) Hint). lia. }
    assert (0 <= (BATCH_POLL_TIMEOUT_MS cfg) / (BATCH_POLL_INTERVAL_MS cfg)) by (apply Z.div_pos; lia).
    destruct (poll_loop_bound bid cid (clock w) Hint fuel w)
      as (res & w' & Hrun & Hres & Hmono & Hbound & Hfound & Hup).
    { nia. }
    exists res, w'. split; [done|]. split; [done|]. split; [done|].
    split; [|done]. destruct Hbound as [->|Hb]; lia.
  - intros fuel started w0 b64 w1 Hlt Hp. split.
    + by apply poll_loop_found.
    + destruct (instant_tryGet bid cid w0) as [Hc _]. by rewrite Hp in Hc.
  - intros fuel started w0 st w1 Hlt Hp.
    rewrite (poll_loop_not_ready fuel _ started w0 st w1 Hlt Hp).
    destruct (instant_tryGet bid cid w0) as [Hc _]. rewrite Hp in Hc. simpl in Hc.
    by rewrite Hc.
  - intros fuel started w0 Hge. by apply poll_loop_time_up.
  - intros fuel msg kw w0 w1 w' Hkey Hbatch Hcreate Hloop.
    unfold GET_generate, GET_generate_try, try_catch. rewrite Hkey, Hbatch.
    unfold bind at 1, generate_by_batch. unfold bind at 1. rewrite Hcreate.
    cbn [fst snd]. unfold bind at 1, now. unfold bind at 1. rewrite Hloop. reflexivity.
Qed.

End Polling.

(** Scenario A of the specification: "in_progress" twice, then "completed"
    with a record for "c1": the image, after two poll intervals. *)
Example poll_scenario_A :
  Handlers.poll_loop Demo.cfg 3
    (Handlers.tryGetBatchResultImageBase64 (Demo.env_with (Demo.service 2 Demo.output_single))
       (Some (Handlers.JStr (Handlers.lit "batch-1"))) (Handlers.lit "c1"))
    (Handlers.clock Demo.start) Demo.start =
  (Handlers.Returned (Some (Handlers.lit "X")),
   {| Handlers.clock := Handlers.clock Demo.start + 2 * 2000;
      Handlers.sent :=
        [Handlers.RetrieveBatch (Some (Handlers.JStr (Handlers.lit "batch-1")));
         Handlers.RetrieveBatch (Some (Handlers.JStr (Handlers.lit "batch-1")));
         Handlers.RetrieveBatch (Some (Handlers.JStr (Handlers.lit "batch-1")));
         Handlers.FileContent (Some (Handlers.JStr (Handlers.lit "file-out")))] |}).
Proof. vm_compute. reflexivity. Qed.

Lemma poll_loop_terminates_witness :
  0 < Handlers.BATCH_POLL_INTERVAL_MS Demo.cfg ∧
  0 <= Handlers.BATCH_POLL_TIMEOUT_MS Demo.cfg ∧
  exists n : nat, forall fuel, (n <= fuel)%nat ->
    exists res w',
      Handlers.poll_loop Demo.cfg fuel
        (Handlers.tryGetBatchResultImageBase64
           (Demo.env_with (Demo.service 2 Demo.output_single))
           (Some (Handlers.JStr (Handlers.lit "batch-1"))) (Handlers.lit "c1"))
        (Handlers.clock Demo.start) Demo.start = (res, w') ∧
      res ≠ Handlers.OutOfFuel ∧
      Handlers.clock Demo.start <= Handlers.clock w' ∧
      Handlers.clock w' - Handlers.clock Demo.start <
        Handlers.BATCH_POLL_TIMEOUT_MS Demo.cfg + Handlers.BATCH_POLL_INTERVAL_MS Demo.cfg ∧
      (forall b64, res = Handlers.Returned (Some b64) ->
         Handlers.clock w' - Handlers.clock Demo.start < Handlers.BATCH_POLL_TIMEOUT_MS Demo.cfg) ∧
      (res = Handlers.Returned None ->
         Handlers.BATCH_POLL_TIMEOUT_MS Demo.cfg <= Handlers.clock w' - Handlers.clock Demo.start).
Proof.
  split; [reflexivity|]. split; [discriminate|].
  apply (poll_loop_terminates (Demo.env_with (Demo.service 2 Demo.output_single)) Demo.cfg
           (Some (Handlers.JStr (Handlers.lit "batch-1"))) (Handlers.lit "c1") Demo.start).
  - reflexivity.
  - discriminate.
Defined.

(** ** More about the alpha normalizer *)

Section NormalizerShape.

Import AlphaNormalizer Raster.

Variables (w h : Z).
Hypothesis Hw : 0 < w.
Hypothesis Hh : 0 < h.

(** Two rasters of the canvas with the same bytes at every pixel are the
    same buffer. *)
Lemma raster_ext (d d' : list Z) :
  Z.of_nat (length d) = w * h * 4 -> length d' = length d ->
  (forall x y c, in_bounds w h x y -> 0 <= c < 4 -> channel w d' x y c = channel w d x y c) ->
  d' = d.
Proof.
  intros Hl Hl' Hsame. apply list_eq. intros i.
  destruct (decide (i < length d)%nat) as [Hi|Hi].
  2:{ rewrite !lookup_ge_None_2; [done|lia|lia]. }
  set (j := Z.of_nat i).
  assert (Hj : 0 <= j < w * h * 4) by lia.
  assert (Hp : 0 <= j / 4 < w * h).
  { split; [apply Z.div_pos; lia|apply Z.div_lt_upper_bound; lia]. }
  pose proof (Z.div_mod j 4 ltac:(lia)) as Hdm.
  pose proof (Z.mod_pos_bound j 4 ltac:(lia)) as Hc.
  pose proof (Z.div_mod (j / 4) w ltac:(lia)) as Hdm'.
  pose proof (Z.mod_pos_bound (j / 4) w Hw) as Hx.
  assert (Hy : 0 <= j / 4 / w < h).
  { split; [apply Z.div_pos; lia|apply Z.div_lt_upper_bound; nia]. }
  specialize (Hsame ((j / 4) mod w) (j / 4 / w) (j mod 4) ltac:(done) Hc).
  unfold channel, ta_get in Hsame.
  replace ((j / 4 / w * w + (j / 4) mod w) * 4 + j mod 4) with j in Hsame by lia.
  destruct (Z.leb_spec 0 j); [|lia]. unfold j in Hsame. by rewrite Nat2Z.id in Hsame.
Qed.

(** The transparency pattern of a raster: which pixels have alpha 0. Both
    flood fills look at nothing else. *)
Definition same_pattern (d d' : list Z) : Prop :=
  forall x y, in_bounds w h x y ->
    (alpha w d' x y = Some 0 <-> alpha w d x y = Some 0) ∧
    (opaque w d' x y <-> opaque w d x y).

Lemma same_pattern_sym d d' : same_pattern d d' -> same_pattern d' d.
Proof. intros H x y Hb. destruct (H x y Hb). tauto. Qed.

Lemma same_pattern_border d d' x y :
  same_pattern d d' -> border_connected w h d x y -> border_connected w h d' x y.
Proof.
  intros Hs. induction 1 as [x y Hb Hbd Ha | x y x' y' Hbc IH Hadj Hb' Ha'].
  - apply bc_border; [done..|]. by apply Hs.
  - eapply bc_step; eauto. by apply Hs.
Qed.

Lemma same_pattern_edge d d' x y :
  same_pattern d d' -> is_edge w h d x y -> is_edge w h d' x y.
Proof.
  intros Hs (Hb & Ho & He). split; [done|]. split; [by apply Hs|].
  destruct He as [?|(x' & y' & Hadj & Hb' & Ha')]; [by left|right].
  exists x', y'. split; [done|]. split; [done|]. by apply Hs.
Qed.

Lemma same_pattern_walk d d' k x y :
  same_pattern d d' -> edge_walk w h d k x y -> edge_walk w h d' k x y.
Proof.
  intros Hs. induction 1 as [x y He | k x y x' y' Hwalk IH Hadj Hb' Ho'].
  - apply ew_edge. by eapply same_pattern_edge.
  - eapply ew_step; eauto. by apply Hs.
Qed.

Lemma same_pattern_dist d d' k x y :
  same_pattern d d' -> edge_dist w h d k x y -> edge_dist w h d' k x y.
Proof.
  intros Hs [Hwalk Hmin]. split; [by eapply same_pattern_walk|].
  intros j Hj. apply Hmin. eapply same_pattern_walk; [|done]. by apply same_pattern_sym.
Qed.

Lemma edge_dist_unique d k k' x y :
  edge_dist w h d k x y -> edge_dist w h d k' x y -> k = k'.
Proof. intros [H1 M1] [H2 M2]. apply M1 in H2. apply M2 in H1. lia. Qed.

End NormalizerShape.

Section NormalizerPasses.

Import AlphaNormalizer Raster.

Variables (w h : Z) (d : list Z).
Hypothesis Hw : 0 < w.
Hypothesis Hh : 0 < h.
Hypothesis Hsz : w * h < 2 ^ 31.
Hypothesis Hlen : Z.of_nat (length d) = w * h * 4.

Lemma alpha_defined x y : in_bounds w h x y -> is_Some (alpha w d x y).
Proof. intros Hb. exact (alphaAt_bounds _ _ _ Hw Hsz Hlen x y Hb). Qed.

Lemma opaque_or_zero x y :
  in_bounds w h x y -> alpha w d x y = Some 0 ∨ opaque w d x y.
Proof.
  intros Hb. destruct (alpha_defined x y Hb) as [a Ha].
  destruct (decide (a = 0)) as [->|Hne]; [by left|right]. by exists a.
Qed.

Lemma opaque_not_zero x y : opaque w d x y -> alpha w d x y = Some 0 -> False.
Proof. intros (a & Ha & Hne) H0. congruence. Qed.

(** After phase 1 the background is what it was, and nothing else is
    transparent. *)
Lemma phase1_background d1 :
  phase1 w h d = Some d1 ->
  forall x y, in_bounds w h x y ->
    (alpha w d1 x y = Some 0 <-> border_connected w h d x y) ∧
    (border_connected w h d x y -> border_connected w h d1 x y).
Proof.
  intros H1.
  destruct (phase1_spec _ _ _ Hw Hh Hsz Hlen) as (d1' & H1' & _ & Hpix).
  assert (d1' = d1) as -> by congruence.
  assert (Hzero : forall x y, border_connected w h d x y -> alpha w d x y = Some 0).
  { by destruct 1. }
  assert (Hin : forall x y, border_connected w h d x y -> in_bounds w h x y).
  { by destruct 1. }
  assert (Hkeep : forall x y, border_connected w h d x y -> alpha w d1 x y = Some 0).
  { intros x y Hbc. unfold alpha. destruct (Hpix x y (Hin _ _ Hbc)) as [_ Hk].
    rewrite Hk; [by apply Hzero|tauto|lia]. }
  intros x y Hb. split; [split|].
  - intros Ha. destruct (border_connected_dec _ _ _ Hw Hh Hsz Hlen x y Hb) as [|Hn]; [done|].
    destruct (Hpix x y Hb) as [Hfill Hk].
    destruct (opaque_or_zero x y Hb) as [Ha0|Ho].
    + specialize (Hfill Ha0 Hn 3 ltac:(lia)). unfold alpha in Ha. congruence.
    + exfalso. unfold alpha in Ha. rewrite Hk in Ha; [|intros [? _]|lia];
        by eapply opaque_not_zero.
  - apply Hkeep.
  - induction 1 as [x0 y0 Hb0 Hbd Ha | x0 y0 x' y' Hbc IH Hadj Hb' Ha'].
    + apply bc_border; [done..|]. apply Hkeep. by apply bc_border.
    + eapply bc_step; [apply IH; by apply Hin|done..|].
      apply Hkeep. eapply bc_step; eauto.
Qed.

(** Phase 2 rewrites alpha bytes of opaque pixels only, and never to 0. *)
Lemma phase2_pattern d2 :
  phase2 w h d = Some d2 -> same_pattern w h d d2.
Proof.
  intros H2.
  destruct (phase2_spec _ _ _ Hw Hh Hsz Hlen) as (d2' & H2' & _ & Hpix).
  assert (d2' = d2) as -> by congruence.
  intros x y Hb. destruct (Hpix x y Hb) as (_ & Hz & Ho).
  assert (Hoo : opaque w d x y -> opaque w d2 x y).
  { intros Hop. destruct (Ho Hop) as (k & _ & Hk). destruct Hop as (a & Ha & Hne).
    unfold opaque. rewrite Hk. destruct (2 <? k)%nat; [by exists 255|by exists a]. }
  destruct (opaque_or_zero x y Hb) as [Ha0|Hop].
  - split; [by split; auto|]. split; [|done].
    intros Hop2. exfalso. destruct Hop2 as (a & Ha & Hne). rewrite (Hz Ha0) in Ha. congruence.
  - split; [|by split; auto]. split; [|done].
    intros Ha2. exfalso. destruct (Hoo Hop) as (a & Ha & Hne). congruence.
Qed.

End NormalizerPasses.

Section NormalizerFixedPoints.

Import AlphaNormalizer Raster.

(** A raster on which phase 1 finds no hole and phase 2 finds nothing to
    clamp goes through both unchanged. *)
Lemma passes_unchanged (w h : Z) (d : list Z) :
  0 < w -> 0 < h -> w * h < 2 ^ 31 -> Z.of_nat (length d) = w * h * 4 ->
  (forall x y, in_bounds w h x y -> alpha w d x y = Some 0 -> border_connected w h d x y) ->
  (forall x y k, in_bounds w h x y -> opaque w d x y -> edge_dist w h d k x y ->
     (2 < k)%nat -> alpha w d x y = Some 255) ->
  phase1 w h d = Some d ∧ phase2 w h d = Some d.
Proof.
  intros Hw Hh Hsz Hlen Hnohole Hclamped.
  destruct (phase1_spec _ _ _ Hw Hh Hsz Hlen) as (d1 & H1 & Hl1 & Hp1).
  destruct (phase2_spec _ _ _ Hw Hh Hsz Hlen) as (d2 & H2 & Hl2 & Hp2).
  assert (d1 = d) as ->.
  { apply (raster_ext w h Hw); [done..|]. intros x y c Hb Hc.
    destruct (Hp1 x y Hb) as [_ Hk]. apply Hk; [|done].
    intros [Ha Hn]. apply Hn. by apply Hnohole. }
  assert (d2 = d) as ->; [|done].
  apply (raster_ext w h Hw); [done..|]. intros x y c Hb Hc.
  destruct (Hp2 x y Hb) as (Hrgb & Hz & Ho).
  destruct (decide (c = 3)) as [->|Hc3]; [|apply Hrgb; lia].
  change (alpha w d2 x y = alpha w d x y).
  destruct (opaque_or_zero _ _ _ Hw Hsz Hlen x y Hb) as [Ha0|Hop].
  - by rewrite Ha0, (Hz Ha0).
  - destruct (Ho Hop) as (k & Hed & Hk). rewrite Hk.
    destruct (Nat.ltb_spec 2 k); [|done]. symmetry. by eapply Hclamped.
Qed.

(** X1. The alpha normalization is idempotent: what it returns for a
    decodable image is an image it returns unchanged. *)
Theorem normalizer_idempotent (png : PNG) :
  decodable png ->
  exists out, makeInteriorOpaque png = Some out ∧ makeInteriorOpaque out = Some out.
Proof.
  intros Hdec. pose proof Hdec as (Hw & Hh & Hsz & Hlen & _).
  destruct (makeInteriorOpaque_total png Hdec) as (d1 & d2 & H1 & H2 & Hl1 & Hl2 & Hm).
  eexists. split; [exact Hm|].
  set (w := width png) in *. set (h := height png) in *.
  assert (Hlen1 : Z.of_nat (length d1) = w * h * 4) by (by rewrite Hl1).
  assert (Hlen2 : Z.of_nat (length d2) = w * h * 4) by (by rewrite Hl2).
  pose proof (phase1_background _ _ _ Hw Hh Hsz Hlen d1 H1) as Hbg.
  pose proof (phase2_pattern _ _ _ Hw Hh Hsz Hlen1 d2 H2) as Hpat.
  destruct (phase2_spec _ _ _ Hw Hh Hsz Hlen1) as (d2' & H2' & _ & Hp2).
  assert (d2' = d2) as -> by congruence.
  destruct (passes_unchanged w h d2 Hw Hh Hsz Hlen2) as [E1 E2].
  - intros x y Hb Ha. apply (same_pattern_border w h d1 d2); [done|].
    apply Hbg; [done|]. apply Hbg; [done|]. by apply Hpat.
  - intros x y k Hb Hop Hed Hk.
    destruct (Hp2 x y Hb) as (_ & _ & Ho).
    destruct Ho as (k' & Hed' & Hk'); [by apply Hpat|].
    assert (k' = k) as ->.
    { eapply edge_dist_unique; [exact Hed'|].
      eapply same_pattern_dist; [|exact Hed]. by apply same_pattern_sym. }
    rewrite Hk'. by destruct (Nat.ltb_spec 2 k); [|lia].
  - unfold makeInteriorOpaque. simpl. fold w h. by rewrite E1, E2.
Qed.

(** X2. The normalization leaves no enclosed hole: a pixel that is fully
    transparent in the result was so in the input and is joined to the canvas
    border by a 4-connected path of fully transparent pixels of the result. *)
Theorem normalizer_leaves_no_hole (png : PNG) :
  decodable png ->
  exists out,
    makeInteriorOpaque png = Some out ∧
    forall x y,
      in_bounds (width png) (height png) x y ->
      alpha (width png) (data out) x y = Some 0 ->
      alpha (width png) (data png) x y = Some 0 ∧
      exists path, transparent_path (width png) (height png) (data out) x y path.
Proof.
  intros Hdec. pose proof Hdec as (Hw & Hh & Hsz & Hlen & _).
  destruct (makeInteriorOpaque_total png Hdec) as (d1 & d2 & H1 & H2 & Hl1 & Hl2 & Hm).
  eexists. split; [exact Hm|]. simpl.
  set (w := width png) in *. set (h := height png) in *.
  assert (Hlen1 : Z.of_nat (length d1) = w * h * 4) by (by rewrite Hl1).
  pose proof (phase1_background _ _ _ Hw Hh Hsz Hlen d1 H1) as Hbg.
  pose proof (phase2_pattern _ _ _ Hw Hh Hsz Hlen1 d2 H2) as Hpat.
  intros x y Hb Ha.
  assert (Hbc : border_connected w h (data png) x y).
  { apply Hbg; [done|]. by apply Hpat. }
  split; [by destruct Hbc|].
  apply border_connected_path. apply (same_pattern_border w h d1 d2); [done|].
  by apply Hbg.
Qed.

(** X3. An image whose alpha values are all 0 or 255 and that has no
    enclosed hole is returned as it is. *)
Theorem normalized_image_unchanged (png : PNG) :
  decodable png ->
  (forall x y, in_bounds (width png) (height png) x y ->
     alpha (width png) (data png) x y = Some 0 ∨ alpha (width png) (data png) x y = Some 255) ->
  (forall x y, in_bounds (width png) (height png) x y ->
     ¬ enclosed_hole (width png) (height png) (data png) x y) ->
  makeInteriorOpaque png = Some png.
Proof.
  intros Hdec Hbin Hnohole. pose proof Hdec as (Hw & Hh & Hsz & Hlen & _).
  destruct (passes_unchanged _ _ _ Hw Hh Hsz Hlen) as [E1 E2].
  - intros x y Hb Ha.
    destruct (border_connected_dec _ _ _ Hw Hh Hsz Hlen x y Hb) as [|Hn]; [done|].
    destruct (Hnohole x y Hb). split; [done|]. by rewrite <- border_connected_path.
  - intros x y k Hb Hop _ _. destruct (Hbin x y Hb) as [Ha|Ha]; [|done].
    destruct (opaque_not_zero _ _ _ _ Hop Ha).
  - unfold makeInteriorOpaque. rewrite E1, E2. by destruct png.
Qed.

(** X4. In the band of three pixels along the canvas border nothing but
    the enclosed holes is touched: every other pixel there keeps its four
    channels, its distance to the sticker's edge being at most 2. *)
Theorem canvas_border_band_kept (png : PNG) :
  decodable png ->
  exists out,
    makeInteriorOpaque png = Some out ∧
    forall x y,
      in_bounds (width png) (height png) x y ->
      x <= 2 ∨ y <= 2 ∨ width png - 3 <= x ∨ height png - 3 <= y ->
      ¬ enclosed_hole (width png) (height png) (data png) x y ->
      forall c, 0 <= c < 4 ->
        channel (width png) (data out) x y c = channel (width png) (data png) x y c.
Proof.
  intros Hdec. pose proof Hdec as (Hw & Hh & Hsz & Hlen & _).
  destruct (makeInteriorOpaque_total png Hdec) as (d1 & d2 & H1 & H2 & Hl1 & Hl2 & Hm).
  eexists. split; [exact Hm|]. simpl.
  set (w := width png) in *. set (h := height png) in *.
  assert (Hlen1 : Z.of_nat (length d1) = w * h * 4) by (by rewrite Hl1).
  destruct (phase1_spec _ _ _ Hw Hh Hsz Hlen) as (d1' & H1' & _ & Hp1).
  assert (d1' = d1) as -> by congruence.
  destruct (phase2_spec _ _ _ Hw Hh Hsz Hlen1) as (d2' & H2' & _ & Hp2).
  assert (d2' = d2) as -> by congruence.
  intros x y Hb Hband Hnh c Hc.
  destruct (Hp1 x y Hb) as [_ Hkeep]. destruct (Hp2 x y Hb) as (Hrgb & Hz & Ho).
  assert (Hk1 : forall c, 0 <= c < 4 -> channel w d1 x y c = channel w (data png) x y c).
  { apply Hkeep. intros [Ha Hn]. apply Hnh. split; [done|]. by rewrite <- border_connected_path. }
  rewrite <- Hk1 by done.
  destruct (decide (c = 3)) as [->|Hc3]; [|apply Hrgb; lia].
  change (alpha w d2 x y = alpha w d1 x y).
  destruct (opaque_or_zero _ _ _ Hw Hsz Hlen1 x y Hb) as [Ha0|Hop].
  { by rewrite Ha0, (Hz Ha0). }
  destruct (Ho Hop) as (k & [Hwalk Hmin] & Hk). rewrite Hk.
  assert (Hnear : exists j, (j <= 2)%nat ∧ edge_walk w h d1 j x y).
  { pose proof Hb as [Hx Hy].
    destruct Hband as [?|[?|[?|?]]].
    - destruct (straight_walk _ _ _ Hw Hsz Hlen1 (-1) 0 ltac:(unfold adjacent4; lia)
                  (Z.to_nat x) x y) as (j & Hj & Hwj);
        [done|done|unfold in_bounds; lia|]. exists j. split; [lia|done].
    - destruct (straight_walk _ _ _ Hw Hsz Hlen1 0 (-1) ltac:(unfold adjacent4; lia)
                  (Z.to_nat y) x y) as (j & Hj & Hwj);
        [done|done|unfold in_bounds; lia|]. exists j. split; [lia|done].
    - destruct (straight_walk _ _ _ Hw Hsz Hlen1 1 0 ltac:(unfold adjacent4; lia)
                  (Z.to_nat (w - 1 - x)) x y) as (j & Hj & Hwj);
        [done|done|unfold in_bounds; lia|]. exists j. split; [lia|done].
    - destruct (straight_walk _ _ _ Hw Hsz Hlen1 0 1 ltac:(unfold adjacent4; lia)
                  (Z.to_nat (h - 1 - y)) x y) as (j & Hj & Hwj);
        [done|done|unfold in_bounds; lia|]. exists j. split; [lia|done]. }
  destruct Hnear as (j & Hj & Hwj). apply Hmin in Hwj.
  destruct (Nat.ltb_spec 2 k); [lia|done].
Qed.

End NormalizerFixedPoints.

(** ** Correlation ids *)

Section CorrelationIds.

Import Handlers.

Lemma lit_inj s s' : lit s = lit s' -> s = s'.
Proof.
  unfold lit. revert s'. induction s as [|a s IH]; intros [|a' s']; simpl; try done.
  intros H. injection H as Ha Hs. f_equal; [|by apply IH].
  apply (f_equal Z.to_N) in Ha. rewrite !N2Z.id in Ha.
  apply (f_equal ascii_of_N) in Ha. by rewrite !ascii_N_embedding in Ha.
Qed.

(** [String(n)] tells integers apart. *)
Lemma dec_inj n n' : dec n = dec n' -> n = n'.
Proof.
  unfold dec. intros H. apply lit_inj in H.
  apply DecimalZ.to_int_inj.
  assert (Hok : forall z, NilZero.int_of_string (NilZero.string_of_int (Z.to_int z))
                          = Some (Z.to_int z)).
  { intros z. apply NilZero.isi; destruct z; simpl; try done;
      intros Hn; injection Hn as Hn; by apply DecimalPos.Unsigned.to_uint_nonnil in Hn. }
  pose proof (Hok n) as H1. rewrite H, Hok in H1. congruence.
Qed.

Lemma nzhead_no_zero u u' : Decimal.nzhead u = Decimal.D0 u' -> False.
Proof. induction u; simpl; try done. Qed.

(** The decimal text of a positive integer does not start with "0". *)
Lemma dec_pos_head n : 0 < n -> exists c s, dec n = c :: s ∧ c ≠ 48.
Proof.
  intros Hn. destruct n as [|p|p]; try lia. unfold dec. simpl.
  pose proof (DecimalPos.Unsigned.to_uint_nonnil p) as Hnil.
  assert (Hnorm : Decimal.unorm (Pos.to_uint p) = Pos.to_uint p).
  { pose proof (DecimalZ.to_of (Z.to_int (Z.pos p))) as H.
    rewrite DecimalZ.of_to in H. simpl in H. congruence. }
  destruct (Pos.to_uint p) as [|u|u|u|u|u|u|u|u|u|u] eqn:Hu; try done;
    try (simpl; eexists _, _; split; [reflexivity|done]).
  exfalso. unfold Decimal.unorm in Hnorm. simpl in Hnorm.
  destruct (Decimal.nzhead u) eqn:Hz; try done.
  - injection Hnorm as <-. by apply (DecimalPos.Unsigned.to_uint_nonzero p).
  - injection Hnorm as ->. by apply nzhead_no_zero in Hz.
Qed.

Lemma replicate_zero_head (k k' : nat) (s s' : jstring) c c' r r' :
  s = c :: r -> c ≠ 48 -> s' = c' :: r' -> c' ≠ 48 ->
  replicate k 48 ++ s = replicate k' 48 ++ s' -> s = s'.
Proof.
  intros -> Hc -> Hc'. revert k'. induction k as [|k IH]; intros [|k']; simpl; intros H.
  - done.
  - injection H as -> _. done.
  - injection H as <- _. done.
  - injection H as H. by apply IH in H.
Qed.

(** Padding a counter keeps different counters different. *)
Lemma padStart0_dec_inj (n : nat) (a b : Z) :
  0 < a -> 0 < b -> padStart0 n (dec a) = padStart0 n (dec b) -> a = b.
Proof.
  intros Ha Hb H. apply dec_inj.
  destruct (dec_pos_head a Ha) as (c & s & Hs & Hc).
  destruct (dec_pos_head b Hb) as (c' & s' & Hs' & Hc').
  unfold padStart0 in H. eapply replicate_zero_head; eauto.
Qed.

Lemma csv_custom_id_inj ts i j : csv_custom_id ts i = csv_custom_id ts j -> i = j.
Proof.
  unfold csv_custom_id. intros H.
  do 3 apply app_inv_head in H.
  apply padStart0_dec_inj in H; lia.
Qed.

(** X7. The correlation ids of one submission are pairwise distinct,
    however many items it has (the sequence number is padded to four digits
    and grows beyond them): an item of the reply is determined by its id. *)
Theorem csv_custom_ids_distinct (ts : Z) (items : list (jstring * jstring)) :
  NoDup (map o_custom_id (imap (csv_out_item ts) items)) ∧
  forall i j a b,
    imap (csv_out_item ts) items !! i = Some a ->
    imap (csv_out_item ts) items !! j = Some b ->
    o_custom_id a = o_custom_id b -> i = j ∧ a = b.
Proof.
  assert (Hlk : forall i a, imap (csv_out_item ts) items !! i = Some a ->
                            o_custom_id a = csv_custom_id ts i).
  { intros i a. rewrite list_lookup_imap. destruct (items !! i); simpl; [|done].
    by intros [= <-]. }
  assert (Hinj : forall i j a b,
    imap (csv_out_item ts) items !! i = Some a ->
    imap (csv_out_item ts) items !! j = Some b ->
    o_custom_id a = o_custom_id b -> i = j ∧ a = b).
  { intros i j a b Ha Hb Hid. rewrite (Hlk _ _ Ha), (Hlk _ _ Hb) in Hid.
    apply csv_custom_id_inj in Hid. subst j. split; [done|congruence]. }
  split; [|exact Hinj].
  apply NoDup_alt. intros i j x Hi Hj.
  rewrite list_lookup_fmap in Hi, Hj.
  destruct (imap (csv_out_item ts) items !! i) as [a|] eqn:Ha; [|done].
  destruct (imap (csv_out_item ts) items !! j) as [b|] eqn:Hb; [|done].
  simpl in Hi, Hj. apply (Hinj i j a b Ha Hb). congruence.
Qed.

End CorrelationIds.

(** ** Newline-delimited records: written by [join], read by [split] *)

Section Records.

Import Handlers.

(** A record as [JSON.stringify] writes it: not empty, no raw line feed, no
    carriage return at its end. *)
Definition record_line (l : jstring) : Prop :=
  l ≠ [] ∧ (10 ∉ l) ∧ last l ≠ Some 13.

Lemma join_lines_terminated ls :
  ls ≠ [] -> join_lines ls ++ [10] = flat_map (fun l => l ++ [10]) ls.
Proof.
  induction ls as [|l ls IH]; [done|]. intros _. simpl.
  destruct ls as [|l' ls]; [by rewrite app_nil_r|].
  rewrite <- IH by done. by rewrite <- !app_assoc.
Qed.

Lemma output_lines_terminated (term : jstring) ls :
  (forall l rest, record_line l ->
     split_lines (l ++ term ++ rest) [] = l :: split_lines rest []) ->
  Forall record_line ls ->
  output_lines (flat_map (fun l => l ++ term) ls) = ls.
Proof.
  intros Hterm Hls. unfold output_lines.
  induction Hls as [|l ls Hl Hls IH]; simpl; [done|].
  rewrite <- app_assoc, Hterm by done.
  rewrite filter_cons_True; [by rewrite IH|].
  destruct Hl as (Hne & _). by destruct l.
Qed.

(** X8. What the submission writes, the result fetch reads back: records
    joined by line feeds and closed by one, or each closed by carriage return
    and line feed, are split into exactly these records. *)
Theorem jsonl_round_trip (lines : list jstring) :
  Forall record_line lines ->
  output_lines (join_lines lines ++ [10]) = lines ∧
  output_lines (flat_map (fun l => l ++ [13; 10]) lines) = lines.
Proof.
  intros Hls. split.
  - destruct (decide (lines = [])) as [->|Hne]; [done|].
    rewrite join_lines_terminated by done.
    apply (output_lines_terminated [10]); [|done].
    intros l rest (_ & Hlf & Hcr). by apply split_lines_lf.
  - apply (output_lines_terminated [13; 10]); [|done].
    intros l rest (_ & Hlf & _). by apply split_lines_crlf.
Qed.

End Records.

(** ** What the handlers send, and what they answer *)

Section Traffic.

Import Handlers.

Variable E : env.
Variable cfg : config.

(** [m] run from [w]: its outcome, the requests it sent, the world after. *)
Definition run {A} (m : M A) (w : world) (res : outcome A) (l : list request) (w' : world)
  : Prop :=
  m w = (res, w') ∧ sent w' = sent w ++ l.

Lemma run_ret {A} (a : A) w : run (ret a) w (Returned a) [] w.
Proof. split; [done|]. by rewrite app_nil_r. Qed.

Lemma run_throw {A} e w : run (@throw A e) w (Thrown e) [] w.
Proof. split; [done|]. by rewrite app_nil_r. Qed.

Lemma run_bind {A B} (m : M A) (k : A -> M B) w a l1 w1 res l2 w2 :
  run m w (Returned a) l1 w1 -> run (k a) w1 res l2 w2 ->
  run (bind m k) w res (l1 ++ l2) w2.
Proof.
  intros [Hm Hs1] [Hk Hs2]. split.
  - unfold bind. by rewrite Hm.
  - by rewrite Hs2, Hs1, app_assoc.
Qed.

Lemma run_bind_thrown {A B} (m : M A) (k : A -> M B) w e l1 w1 :
  run m w (Thrown e) l1 w1 -> run (bind m k) w (Thrown e) l1 w1.
Proof. intros [Hm Hs1]. split; [|done]. unfold bind. by rewrite Hm. Qed.

(** One request: answered, or the fetch rejects. *)
Lemma run_fetch r w :
  exists res w',
    run (openaiFetch E r) w res [r] w' ∧ clock w' = clock w ∧
    match server E (sent w) r with
    | Responded resp => res = Returned resp
    | Rejected e => res = Thrown e
    end.
Proof.
  unfold run, openaiFetch. destruct (server E (sent w) r); eexists _, _; eauto.
Qed.

Lemma prop_of_cases v k :
  prop_of E v k = throw (null_access E) ∨ prop_of E v k = ret (prop v k).
Proof. destruct v; auto. Qed.

(** The status query, then at most one fetch of the output file; a
    not-done result has not fetched it, a done result has. *)
Lemma tryGet_traffic bid cid w :
  exists res l w',
    run (tryGetBatchResultImageBase64 E bid cid) w res (RetrieveBatch bid :: l) w' ∧
    clock w' = clock w ∧
    match res with
    | Returned (NotDone _) => l = []
    | Returned (Done _) => exists out, l = [FileContent out]
    | Thrown _ => l = [] ∨ exists out, l = [FileContent out]
    | OutOfFuel => False
    end.
Proof.
  unfold tryGetBatchResultImageBase64, run, bind, openaiFetch, res_json, ret, throw.
  destruct (server E (sent w) (RetrieveBatch bid)) as [stRes|e]; cbn [sent clock].
  2:{ eexists _, [], _. split; [done|]. auto. }
  destruct (ok stRes); cbn [negb].
  2:{ eexists _, [], _. split; [done|]. auto. }
  destruct (JSON_parse E (body stRes)) as [st|e].
  2:{ eexists _, [], _. split; [done|]. auto. }
  destruct (prop_of_cases st (lit "status")) as [-> | ->]; unfold ret, throw.
  { eexists _, [], _. split; [done|]. auto. }
  destruct (is_string (prop st (lit "status")) (lit "completed")); cbn [negb].
  2:{ eexists _, [], _. split; [done|]. auto. }
  destruct (falsy (prop st (lit "output_file_id"))).
  { eexists _, [], _. split; [done|]. auto. }
  destruct (server E _ (FileContent _)) as [outRes|e]; cbn [sent clock].
  2:{ eexists _, [_], _. split; [split; [done|by rewrite <- app_assoc]|]. eauto. }
  destruct (ok outRes); cbn [negb].
  2:{ eexists _, [_], _. split; [split; [done|by rewrite <- app_assoc]|]. eauto. }
  destruct (scan_lines E cid _);
    eexists _, [_], _; (split; [split; [done|by rewrite <- app_assoc]|]); eauto.
Qed.


(** X9. GET /api/batch always answers, with 200, 202, 400 or 500, and does
    not wait. Without API key or without one of the two ids nothing is sent;
    400 is only given for a missing id; 202 comes after the status query
    alone and repeats both ids; 200 comes after the status query and the
    fetch of the output file, and carries image bytes. *)
Theorem GET_batch_replies (batch_id custom_id : option jstring) (w : world) :
  exists r l w',
    GET_batch E cfg batch_id custom_id w = (Returned r, w') ∧
    sent w' = sent w ++ l ∧ clock w' = clock w ∧
    (code r = 200 ∨ code r = 202 ∨ code r = 400 ∨ code r = 500) ∧
    (no_api_key cfg = true ∨ default [] batch_id = [] ∨ default [] custom_id = [] ->
     l = [] ∧ (code r = 400 ∨ code r = 500)) ∧
    (code r = 400 -> default [] batch_id = [] ∨ default [] custom_id = []) ∧
    (code r = 202 ->
     l = [RetrieveBatch (Some (JStr (default [] batch_id)))] ∧
     content r = PendingJson (Some (JStr (default [] batch_id))) (default [] custom_id)) ∧
    (code r = 200 ->
     exists out bytes,
       l = [RetrieveBatch (Some (JStr (default [] batch_id))); FileContent out] ∧
       content r = Image bytes).
Proof.
  unfold GET_batch, try_catch, GET_batch_try.
  destruct (no_api_key cfg) eqn:Hkey.
  { exists (key_missing), [], w. rewrite app_nil_r. simpl.
    repeat split; auto; try discriminate; intros; lia. }
  set (bid := default [] batch_id). set (cid := default [] custom_id).
  destruct (negb (nonempty bid) || negb (nonempty cid)) eqn:Hids.
  { eexists _, [], w. rewrite app_nil_r. simpl.
    assert (bid = [] ∨ cid = []).
    { apply orb_true_iff in Hids as [H|H]; [left; by destruct bid|right; by destruct cid]. }
    repeat split; auto; try discriminate; intros; lia. }
  assert (Hne : ¬ (false = true ∨ bid = [] ∨ cid = [])).
  { apply orb_false_iff in Hids as [H1 H2]. intros [?|[->| ->]]; done. }
  destruct (tryGet_traffic (Some (JStr bid)) cid w) as (res & l & w' & [Hrun Hsent] & Hclock & Hres).
  unfold bind. rewrite Hrun.
  destruct res as [[st|b64]|e|]; [| | |done].
  - subst l. eexists _, _, w'. split; [done|]. split; [done|]. split; [done|].
    simpl. repeat split; auto; try discriminate; try tauto; intros; lia.
  - destruct Hres as [out ->]. rewrite postprocess_decoded. cbn [Buffer_from].
    eexists _, _, w'. split; [done|]. split; [done|].
    split; [done|]. simpl.
    split; [auto|]. split; [tauto|]. split; [discriminate|]. split; [discriminate|].
    intros _. eauto.
  - eexists _, _, w'. split; [done|]. split; [done|]. split; [done|]. simpl.
    repeat split; auto; try discriminate; try tauto; intros; lia.
Qed.


(** X10. POST /api/batch-csv always answers, with 200, 400, 500 or 502. It
    sends nothing, or the upload, or the upload and then the job creation
    with the id of an accepted upload; 400 is given before anything is sent;
    502 means that the last request sent was refused; 200 means that both
    were sent, that the creation was accepted, and the reply lists at least
    one item. *)
Theorem POST_batch_csv_replies (payloadFile : option jstring) (w : world) :
  exists r l w',
    POST_batch_csv E cfg payloadFile w = (Returned r, w') ∧
    sent w' = sent w ++ l ∧ clock w' = clock w ∧
    (code r = 200 ∨ code r = 400 ∨ code r = 500 ∨ code r = 502) ∧
    (l = [] ∨ (exists jsonl, l = [UploadBatchFile jsonl]) ∨
     exists jsonl upRes up,
       l = [UploadBatchFile jsonl; CreateBatch (prop up (lit "id"))] ∧
       server E (sent w) (UploadBatchFile jsonl) = Responded upRes ∧
       ok upRes = true ∧ JSON_parse E (body upRes) = inl up) ∧
    (code r = 400 -> l = []) ∧
    (code r = 502 ->
     exists pre q resp,
       l = pre ++ [q] ∧ server E (sent w ++ pre) q = Responded resp ∧ ok resp = false) ∧
    (code r = 200 ->
     exists jsonl id batchRes batch_id items,
       l = [UploadBatchFile jsonl; CreateBatch id] ∧
       server E (sent w ++ [UploadBatchFile jsonl]) (CreateBatch id) = Responded batchRes ∧
       ok batchRes = true ∧
       content r = BatchJson batch_id items ∧ items ≠ []).
Proof.
  assert (Hquiet : forall r, code r = 400 ∨ code r = 500 ->
            exists r' l w', (Returned r, w) = (Returned r', w') ∧
              sent w' = sent w ++ l ∧ clock w' = clock w ∧
              (code r' = 200 ∨ code r' = 400 ∨ code r' = 500 ∨ code r' = 502) ∧
              (l = [] ∨ (exists jsonl, l = [UploadBatchFile jsonl]) ∨
               exists jsonl upRes up,
                 l = [UploadBatchFile jsonl; CreateBatch (prop up (lit "id"))] ∧
                 server E (sent w) (UploadBatchFile jsonl) = Responded upRes ∧
                 ok upRes = true ∧ JSON_parse E (body upRes) = inl up) ∧
              (code r' = 400 -> l = []) ∧
              (code r' = 502 ->
               exists pre q resp,
                 l = pre ++ [q] ∧ server E (sent w ++ pre) q = Responded resp ∧
                 ok resp = false) ∧
              (code r' = 200 ->
               exists jsonl id batchRes batch_id items,
                 l = [UploadBatchFile jsonl; CreateBatch id] ∧
                 server E (sent w ++ [UploadBatchFile jsonl]) (CreateBatch id)
                   = Responded batchRes ∧
                 ok batchRes = true ∧
                 content r' = BatchJson batch_id items ∧ items ≠ [])).
  { intros r Hr. exists r, [], w. rewrite app_nil_r.
    repeat split; auto; try tauto; intros; lia. }
  unfold POST_batch_csv, try_catch, POST_batch_csv_try.
  destruct (no_api_key cfg); [apply Hquiet; simpl; auto|].
  destruct payloadFile as [payloadText|]; [|apply Hquiet; simpl; auto].
  destruct (parse_payload E payloadText) as [[|its]|e]; unfold throw, ret;
    [apply Hquiet; simpl; auto| |apply Hquiet; simpl; auto].
  set (items := valid_items (default [] its)).
  destruct (length items =? 0)%nat eqn:Hlen; [apply Hquiet; simpl; auto|].
  assert (Hitems : imap (csv_out_item (clock w)) items ≠ []).
  { intros Hnil. apply (f_equal length) in Hnil. rewrite length_imap in Hnil.
    apply Nat.eqb_neq in Hlen. simpl in Hnil. lia. }
  unfold bind at 1, now. cbn [clock].
  set (jsonl := join_lines (imap (csv_line E cfg (clock w)) items) ++ [10]).
  unfold bind at 1, openaiFetch.
  destruct (server E (sent w) (UploadBatchFile jsonl)) as [upRes|e] eqn:Hup.
  2:{ eexists _, [_], _. split; [done|]. split; [done|]. split; [done|]. simpl.
      split; [auto|]. split; [eauto|]. repeat split; intros; lia. }
  destruct (ok upRes) eqn:Hupok; cbn [negb].
  2:{ eexists _, [_], _. split; [done|]. split; [done|]. split; [done|]. simpl.
      split; [auto|]. split; [eauto|]. split; [intros; lia|]. split; [|intros; lia].
      intros _. exists [], (UploadBatchFile jsonl), upRes. by rewrite app_nil_r. }
  unfold bind at 1, res_json.
  destruct (JSON_parse E (body upRes)) as [up|e] eqn:Hupj; unfold ret, throw.
  2:{ eexists _, [_], _. split; [done|]. split; [done|]. split; [done|]. simpl.
      split; [auto|]. split; [eauto|]. repeat split; intros; lia. }
  unfold bind at 1.
  destruct (prop_of_cases up (lit "id")) as [-> | ->]; unfold ret, throw.
  { eexists _, [_], _. split; [done|]. split; [done|]. split; [done|]. simpl.
    split; [auto|]. split; [eauto|]. repeat split; intros; lia. }
  unfold bind at 1, openaiFetch. cbn [sent clock].
  assert (Hshape : exists jsonl0 upRes0 up0,
            [UploadBatchFile jsonl; CreateBatch (prop up (lit "id"))] =
            [UploadBatchFile jsonl0; CreateBatch (prop up0 (lit "id"))] ∧
            server E (sent w) (UploadBatchFile jsonl0) = Responded upRes0 ∧
            ok upRes0 = true ∧ JSON_parse E (body upRes0) = inl up0) by eauto 10.
  destruct (server E (sent w ++ [UploadBatchFile jsonl]) (CreateBatch (prop up (lit "id"))))
    as [batchRes|e] eqn:Hb.
  2:{ eexists _, [_; _], _. split; [done|]. split; [by rewrite <- app_assoc|]. split; [done|].
      simpl. split; [auto|]. split; [auto|]. repeat split; intros; lia. }
  destruct (ok batchRes) eqn:Hbok; cbn [negb].
  2:{ eexists _, [_; _], _. split; [done|]. split; [by rewrite <- app_assoc|]. split; [done|].
      simpl. split; [auto|]. split; [auto|]. split; [intros; lia|]. split; [|intros; lia].
      intros _. exists [UploadBatchFile jsonl], (CreateBatch (prop up (lit "id"))), batchRes.
      done. }
  unfold bind at 1, res_json.
  destruct (JSON_parse E (body batchRes)) as [batch|e]; unfold ret, throw.
  2:{ eexists _, [_; _], _. split; [done|]. split; [by rewrite <- app_assoc|]. split; [done|].
      simpl. split; [auto|]. split; [auto|]. repeat split; intros; lia. }
  unfold bind at 1.
  destruct (prop_of_cases batch (lit "id")) as [-> | ->]; unfold ret, throw.
  { eexists _, [_; _], _. split; [done|]. split; [by rewrite <- app_assoc|]. split; [done|].
    simpl. split; [auto|]. split; [auto|]. repeat split; intros; lia. }
  eexists _, [_; _], _. split; [done|]. split; [by rewrite <- app_assoc|]. split; [done|].
  simpl. split; [auto|]. split; [auto|]. split; [intros; lia|]. split; [intros; lia|].
  intros _. eauto 10.
Qed.


(** The single-request submission of /api/generate: the upload, then the
    batch for it; the ids it returns are those of a created batch. *)
Lemma create_traffic (b : image_body) (w : world) :
  exists res l w',
    run (createSingleImageBatch E b) w res l w' ∧ clock w' = clock w ∧
    res ≠ OutOfFuel ∧
    (exists jsonl, l = [UploadBatchFile jsonl] ∨
                   exists id, l = [UploadBatchFile jsonl; CreateBatch id]) ∧
    (forall ids, res = Returned ids ->
       exists jsonl id, l = [UploadBatchFile jsonl; CreateBatch id]).
Proof.
  unfold createSingleImageBatch, run.
  unfold bind at 1, now. cbn [clock].
  set (jsonl := stringify_line E _ ++ [10]).
  unfold bind at 1, openaiFetch.
  destruct (server E (sent w) (UploadBatchFile jsonl)) as [upRes|e].
  2:{ eexists _, [_], _. split; [done|]. split; [done|]. split; [done|].
      split; [eauto|]. intros ? [=]. }
  destruct (ok upRes); cbn [negb]; unfold throw at 1.
  2:{ eexists _, [_], _. split; [done|]. split; [done|]. split; [done|].
      split; [eauto|]. intros ? [=]. }
  unfold bind at 1, res_json.
  destruct (JSON_parse E (body upRes)) as [up|e]; unfold ret, throw.
  2:{ eexists _, [_], _. split; [done|]. split; [done|]. split; [done|].
      split; [eauto|]. intros ? [=]. }
  unfold bind at 1.
  destruct (prop_of_cases up (lit "id")) as [-> | ->]; unfold ret, throw.
  { eexists _, [_], _. split; [done|]. split; [done|]. split; [done|].
    split; [eauto|]. intros ? [=]. }
  unfold bind at 1, openaiFetch. cbn [sent clock].
  destruct (server E _ (CreateBatch _)) as [batchRes|e].
  2:{ eexists _, [_; _], _. split; [split; [done|by rewrite <- app_assoc]|].
      split; [done|]. split; [done|]. split; [eauto|]. intros ? [=]. }
  destruct (ok batchRes); cbn [negb].
  2:{ eexists _, [_; _], _. split; [split; [done|by rewrite <- app_assoc]|].
      split; [done|]. split; [done|]. split; [eauto|]. intros ? [=]. }
  unfold bind at 1, res_json.
  destruct (JSON_parse E (body batchRes)) as [batch|e]; unfold ret, throw.
  2:{ eexists _, [_; _], _. split; [split; [done|by rewrite <- app_assoc]|].
      split; [done|]. split; [done|]. split; [eauto|]. intros ? [=]. }
  unfold bind at 1.
  destruct (prop_of_cases batch (lit "id")) as [-> | ->]; unfold ret, throw.
  { eexists _, [_; _], _. split; [split; [done|by rewrite <- app_assoc]|].
    split; [done|]. split; [done|]. split; [eauto|]. intros ? [=]. }
  eexists _, [_; _], _. split; [split; [done|by rewrite <- app_assoc]|].
  split; [done|]. split; [done|]. split; [eauto|]. intros ? _. eauto.
Qed.

(** The poll loop: status queries one poll interval apart, then at most one
    fetch of the output file. *)
Lemma poll_traffic (bid : option json) (cid : jstring) (started : Z) :
  0 < BATCH_POLL_INTERVAL_MS cfg ->
  forall fuel w,
    BATCH_POLL_TIMEOUT_MS cfg - (clock w - started)
      <= Z.of_nat fuel * BATCH_POLL_INTERVAL_MS cfg ->
    exists res n tail w',
      poll_loop cfg fuel (tryGetBatchResultImageBase64 E bid cid) started w = (res, w') ∧
      sent w' = sent w ++ replicate n (RetrieveBatch bid) ++ tail ∧
      res ≠ OutOfFuel ∧
      (n = 0%nat ∨
       (Z.of_nat n - 1) * BATCH_POLL_INTERVAL_MS cfg
         < BATCH_POLL_TIMEOUT_MS cfg - (clock w - started)) ∧
      match res with
      | Returned (Some _) => exists out, tail = [FileContent out]
      | Returned None => tail = []
      | _ => tail = [] ∨ exists out, tail = [FileContent out]
      end.
Proof.
  intros Hint. induction fuel as [|fuel IH]; intros w Hfuel.
  - exists (Returned None), 0%nat, [], w. rewrite poll_loop_time_up by lia.
    simpl. rewrite app_nil_r. repeat split; auto.
  - destruct (Z.lt_ge_cases (clock w - started) (BATCH_POLL_TIMEOUT_MS cfg)) as [Hlt|Hge].
    2:{ exists (Returned None), 0%nat, [], w. rewrite poll_loop_time_up by lia.
        simpl. rewrite app_nil_r. repeat split; auto. }
    destruct (tryGet_traffic bid cid w) as (res & l & w1 & [Hp Hsent] & Hclock & Hres).
    destruct res as [[st|b64]|e|]; [| | |done].
    + subst l. rewrite (poll_loop_not_ready _ fuel _ started w st w1 Hlt Hp).
      destruct (IH {| clock := clock w1 + BATCH_POLL_INTERVAL_MS cfg; sent := sent w1 |})
        as (res & n & tail & w' & Hrun & Hs & Hne & Hn & Htail).
      { simpl. lia. }
      exists res, (S n), tail, w'. split; [done|]. simpl in Hs, Hn.
      split; [by rewrite Hs, Hsent, <- app_assoc|]. split; [done|]. split; [|done].
      right. destruct Hn as [->|Hn]; simpl; lia.
    + destruct Hres as [out ->].
      exists (Returned (Some b64)), 1%nat, [FileContent out], w1.
      rewrite (poll_loop_found _ fuel _ started w b64 w1 Hlt Hp).
      split; [done|]. split; [done|]. split; [done|]. split; [right; simpl; lia|eauto].
    + exists (Thrown e), 1%nat, l, w1. cbn [poll_loop].
      destruct (Z.ltb_spec (clock w - started) (BATCH_POLL_TIMEOUT_MS cfg)); [|lia].
      unfold bind. rewrite Hp.
      split; [done|]. split; [done|]. split; [done|]. split; [right; simpl; lia|done].
Qed.

(** The request body of /api/generate. *)
Definition generate_body (msg kw : option jstring) : image_body :=
  {| ib_model := IMAGE_MODEL cfg;
     ib_prompt := compose_prompt E (default [] msg) (default [] kw);
     ib_quality := IMAGE_QUALITY cfg |}.

(** The direct request: one call, and which of its answers gives what. *)
Lemma direct_traffic (b : image_body) (w : world) :
  exists res w',
    generate_direct E b w = (res, w') ∧
    sent w' = sent w ++ [GenerateImage b] ∧ clock w' = clock w ∧
    match res with
    | Returned (inl early) =>
        code early = 500 ∧
        forall apiRes,
          server E (sent w) (GenerateImage b) = Responded apiRes -> ok apiRes = false ->
          early = {| code := 500;
                     content := ErrorJson (lit "OpenAI error (status " ++ dec (status apiRes) ++
                                           lit "): " ++ slice0 160 (body apiRes)) |}
    | Returned (inr b64) =>
        exists apiRes data,
          server E (sent w) (GenerateImage b) = Responded apiRes ∧
          ok apiRes = true ∧ JSON_parse E (body apiRes) = inl data ∧
          direct_b64 data = Some b64 ∧ falsy (Some b64) = false
    | Thrown _ =>
        forall apiRes,
          server E (sent w) (GenerateImage b) = Responded apiRes -> ok apiRes = true
    | OutOfFuel => False
    end.
Proof.
  unfold generate_direct. unfold bind at 1, openaiFetch.
  destruct (server E (sent w) (GenerateImage b)) as [apiRes|e] eqn:Hsrv.
  2:{ eexists _, _. split; [done|]. split; [done|]. split; [done|]. by intros ? [=]. }
  destruct (ok apiRes) eqn:Hok; cbn [negb]; unfold ret at 1.
  2:{ eexists _, _. split; [done|]. split; [done|]. split; [done|].
      split; [done|]. by intros ? [= <-] _. }
  unfold bind at 1, res_json.
  destruct (JSON_parse E (body apiRes)) as [data|e] eqn:Hj; unfold ret, throw.
  2:{ eexists _, _. split; [done|]. split; [done|]. split; [done|]. by intros ? [= <-]. }
  destruct data.
  1:{ eexists _, _. split; [done|]. split; [done|]. split; [done|]. by intros ? [= <-]. }
  all: match goal with |- context [direct_b64 ?d] =>
         destruct (direct_b64 d) as [v|] eqn:Hd; [destruct (falsy (Some v)) eqn:Hv|] end.
  all: eexists _, _; (split; [done|]); (split; [done|]); (split; [done|]).
  all: try (split; [done|]; intros ? [= <-] ?; congruence).
  all: eexists _, _; split; [done|]; split; [done|]; split; [done|]; split; [done|]; done.
Qed.

(** X11. GET /api/generate in direct mode sends exactly one image request,
    does not wait, and answers 200 or 500; a refused request is answered with
    500 and the upstream status and the first 160 code units of the upstream
    text; 200 is only given for an accepted request whose first [b64_json] is
    truthy and accepted by [Buffer.from]. *)
Theorem GET_generate_direct_replies (fuel : nat) (msg kw : option jstring) (w : world) :
  no_api_key cfg = false -> USE_BATCH cfg = false ->
  exists r w',
    GET_generate E cfg fuel msg kw w = (Returned r, w') ∧
    sent w' = sent w ++ [GenerateImage (generate_body msg kw)] ∧ clock w' = clock w ∧
    (code r = 200 ∨ code r = 500) ∧
    (forall apiRes,
       server E (sent w) (GenerateImage (generate_body msg kw)) = Responded apiRes ->
       ok apiRes = false ->
       r = {| code := 500;
              content := ErrorJson (lit "OpenAI error (status " ++ dec (status apiRes) ++
                                    lit "): " ++ slice0 160 (body apiRes)) |}) ∧
    (code r = 200 ->
     exists apiRes data b64 raw bytes,
       server E (sent w) (GenerateImage (generate_body msg kw)) = Responded apiRes ∧
       ok apiRes = true ∧ JSON_parse E (body apiRes) = inl data ∧
       direct_b64 data = Some b64 ∧ falsy (Some b64) = false ∧
       Buffer_from E b64 = Some raw ∧ content r = Image bytes).
Proof.
  intros Hkey Hmode.
  unfold GET_generate, try_catch, GET_generate_try. rewrite Hkey, Hmode.
  fold (generate_body msg kw). set (b := generate_body msg kw).
  destruct (direct_traffic b w) as (res & w' & Hrun & Hsent & Hclock & Hres).
  unfold bind. rewrite Hrun.
  destruct res as [[early|b64]|e|]; [| | |done].
  - destruct Hres as [Hcode Hmsg]. exists early, w'. unfold ret.
    split; [done|]. split; [done|]. split; [done|]. split; [auto|].
    split; [done|]. intros; lia.
  - destruct Hres as (apiRes & data & Hsrv & Hok & Hj & Hd & Hne).
    rewrite postprocess_decoded.
    destruct (Buffer_from E b64) as [raw|] eqn:Hraw.
    + eexists _, w'. split; [done|]. split; [done|]. split; [done|].
      split; [by left|]. split; [intros ? ? ?; congruence|].
      intros _. exists apiRes, data, b64, raw. eexists. done.
    + eexists _, w'. split; [done|]. split; [done|]. split; [done|].
      split; [by right|]. split; [intros ? ? ?; congruence|]. simpl. intros; lia.
  - eexists _, w'. split; [done|]. split; [done|]. split; [done|]. simpl.
    split; [auto|]. split; [|intros; lia].
    intros apiRes Hsrv Hok. rewrite (Hres _ Hsrv) in Hok. done.
Qed.

(** X12. GET /api/generate in batch mode, with a positive poll interval:
    the handler answers 200, 202 or 500 after the upload alone (then 500), or
    after the upload, the job creation, at most timeout / interval + 1 status
    queries for one and the same job and at most one fetch of an output file;
    202 is given without such a fetch and names the job, 200 only after one. *)
Theorem GET_generate_batch_traffic (fuel : nat) (msg kw : option jstring) (w : world) :
  no_api_key cfg = false -> USE_BATCH cfg = true ->
  0 < BATCH_POLL_INTERVAL_MS cfg -> 0 <= BATCH_POLL_TIMEOUT_MS cfg ->
  (Z.to_nat (BATCH_POLL_TIMEOUT_MS cfg / BATCH_POLL_INTERVAL_MS cfg + 1) <= fuel)%nat ->
  exists r l w',
    GET_generate E cfg fuel msg kw w = (Returned r, w') ∧ sent w' = sent w ++ l ∧
    (code r = 200 ∨ code r = 202 ∨ code r = 500) ∧
    exists jsonl,
      (l = [UploadBatchFile jsonl] ∧ code r = 500) ∨
      exists id bid n tail,
        l = UploadBatchFile jsonl :: CreateBatch id :: replicate n (RetrieveBatch bid) ++ tail ∧
        Z.of_nat n <= BATCH_POLL_TIMEOUT_MS cfg / BATCH_POLL_INTERVAL_MS cfg + 1 ∧
        (tail = [] ∨ exists out, tail = [FileContent out]) ∧
        (code r = 202 -> tail = [] ∧ exists cid, content r = PendingJson bid cid) ∧
        (code r = 200 -> tail ≠ []).
Proof.
  intros Hkey Hmode Hint Htime Hfuel.
  assert (Hdiv : 0 <= BATCH_POLL_TIMEOUT_MS cfg / BATCH_POLL_INTERVAL_MS cfg)
    by (apply Z.div_pos; lia).
  pose proof (Z.mul_succ_div_gt (BATCH_POLL_TIMEOUT_MS cfg) (BATCH_POLL_INTERVAL_MS cfg) Hint)
    as Hgt.
  unfold GET_generate, try_catch, GET_generate_try. rewrite Hkey, Hmode.
  fold (generate_body msg kw). set (b := generate_body msg kw).
  unfold bind at 1, generate_by_batch. unfold bind at 1.
  destruct (create_traffic b w) as (res & l & w1 & [Hrun Hsent] & Hclock & Hne & Hshape & Hok).
  rewrite Hrun.
  destruct res as [[bid cid]|e|]; [| |done].
  2:{ destruct Hshape as (jsonl & [->|[id ->]]).
      - eexists _, _, w1. split; [done|]. split; [done|]. split; [simpl; auto|].
        exists jsonl. left. done.
      - eexists _, _, w1. split; [done|]. split; [done|]. split; [simpl; auto|].
        exists jsonl. right. exists id, None, 0%nat, []. simpl.
        split; [done|]. split; [lia|]. split; [auto|]. split; intros; lia. }
  destruct (Hok _ eq_refl) as (jsonl & id & ->). cbn [fst snd].
  unfold bind at 1, now. unfold bind at 1.
  destruct (poll_traffic bid cid (clock w1) Hint fuel w1)
    as (res & n & tail & w' & Hloop & Hs & Hnf & Hn & Htail); [nia|].
  rewrite Hloop.
  assert (Hcount : Z.of_nat n <= BATCH_POLL_TIMEOUT_MS cfg / BATCH_POLL_INTERVAL_MS cfg + 1).
  { destruct Hn as [->|Hn]; [simpl; lia|].
    assert (Z.of_nat n - 1 <= BATCH_POLL_TIMEOUT_MS cfg / BATCH_POLL_INTERVAL_MS cfg); [|lia].
    apply Z.div_le_lower_bound; lia. }
  assert (Hl : sent w' =
            sent w ++ UploadBatchFile jsonl :: CreateBatch id ::
                      replicate n (RetrieveBatch bid) ++ tail).
  { rewrite Hs, Hsent, <- app_assoc. done. }
  destruct res as [[b64|]|e|]; [| | |done]; unfold ret.
  - destruct Htail as [out ->]. rewrite postprocess_decoded. cbn [Buffer_from].
    eexists _, _, w'. split; [done|]. split; [exact Hl|]. split; [by left|].
    exists jsonl. right. exists id, bid, n, [FileContent out].
    split; [done|]. split; [done|]. split; [eauto|]. split; [|done].
    simpl. intros; lia.
  - subst tail. eexists _, _, w'. split; [done|]. split; [exact Hl|]. split; [simpl; auto|].
    exists jsonl. right. exists id, bid, n, [].
    split; [done|]. split; [done|]. split; [auto|]. simpl. split; [eauto|intros; lia].
  - eexists _, _, w'. split; [done|]. split; [exact Hl|]. split; [simpl; auto|].
    exists jsonl. right. exists id, bid, n, tail.
    split; [done|]. split; [done|]. split; [done|]. simpl. split; intros; lia.
Qed.

End Traffic.

(** ** Integers as binary64 numbers *)

Section ExactIntegers.

Import ContainResizer.

Lemma digits2_pos_size p : digits2_pos p = Pos.size p.
Proof. induction p; simpl; congruence. Qed.

Lemma size_iter_xO p n : Pos.size (Pos.iter xO p n) = (Pos.size p + n)%positive.
Proof.
  induction n as [|n IH] using Pos.peano_ind.
  - simpl. lia.
  - rewrite Pos.iter_succ. simpl. rewrite IH. lia.
Qed.

Lemma Zpos_iter_xO p n : Z.pos (Pos.iter xO p n) = Z.pos p * 2 ^ Z.pos n.
Proof.
  induction n as [|n IH] using Pos.peano_ind.
  - simpl. lia.
  - rewrite Pos.iter_succ, Pos2Z.inj_xO, IH, Pos2Z.inj_succ, Z.pow_succ_r by lia. lia.
Qed.

(** A positive number of [d] bits lies between 2^(d-1) and 2^d. *)
Lemma size_bounds p : 2 ^ (Z.pos (Pos.size p) - 1) <= Z.pos p < 2 ^ Z.pos (Pos.size p).
Proof.
  induction p as [p IH|p IH|]; cbn [Pos.size].
  - rewrite Pos2Z.inj_succ, (Pos2Z.inj_xI p).
    replace (Z.succ (Z.pos (Pos.size p)) - 1) with (Z.succ (Z.pos (Pos.size p) - 1)) by lia.
    rewrite !Z.pow_succ_r by lia.
    remember (2 ^ (Z.pos (Pos.size p) - 1)) as lo in *. remember (2 ^ Z.pos (Pos.size p)) as hi in *. clear Heqlo Heqhi. lia.
  - rewrite Pos2Z.inj_succ, (Pos2Z.inj_xO p).
    replace (Z.succ (Z.pos (Pos.size p)) - 1) with (Z.succ (Z.pos (Pos.size p) - 1)) by lia.
    rewrite !Z.pow_succ_r by lia.
    remember (2 ^ (Z.pos (Pos.size p) - 1)) as lo in *. remember (2 ^ Z.pos (Pos.size p)) as hi in *. clear Heqlo Heqhi. lia.
  - simpl. lia.
Qed.

Lemma size_53 p : Z.pos p < 2 ^ 53 -> Z.pos (Pos.size p) <= 53.
Proof.
  intros Hp. pose proof (size_bounds p) as [Hlo _].
  destruct (Z.le_gt_cases (Z.pos (Pos.size p)) 53) as [|Hgt]; [done|exfalso].
  assert (2 ^ 53 <= 2 ^ (Z.pos (Pos.size p) - 1)) by (apply Z.pow_le_mono_r; lia).
  lia.
Qed.

(** [iter_pos] of the library of floats is [Pos.iter]. *)
Lemma iter_pos_iter {A} (f : A -> A) p x : SpecFloat.iter_pos f p x = Pos.iter f x p.
Proof.
  revert x. induction p as [p IH|p IH|]; intros x; cbn [SpecFloat.iter_pos Pos.iter].
  - rewrite !IH. rewrite <- !Pos.iter_swap. reflexivity.
  - by rewrite !IH.
  - reflexivity.
Qed.

(** Shifting out zeros: nothing is lost. *)
Lemma shr_zeros t p :
  SpecFloat.iter_pos shr_1 p {| shr_m := Z.pos (Pos.iter xO t p); shr_r := false; shr_s := false |}
  = {| shr_m := Z.pos t; shr_r := false; shr_s := false |}.
Proof.
  rewrite iter_pos_iter. induction p as [|p IH] using Pos.peano_ind.
  - reflexivity.
  - rewrite Pos.iter_succ_r, Pos.iter_succ. cbn [shr_1 orb]. exact IH.
Qed.

(** Rounding a mantissa that is a 53-bit number followed by zeros. *)
Lemma binary_round_aux_exact M e t j :
  Z.pos M = Z.pos t * 2 ^ j -> 0 <= j -> Z.pos (Pos.size t) = 53 ->
  - 1074 <= e + j <= 971 ->
  binary_round_aux prec emax false (Z.pos M) e loc_Exact = S754_finite false t (e + j).
Proof.
  intros HM Hj Ht He.
  assert (Hlast : forall mrs,
            mrs = {| shr_m := Z.pos t; shr_r := false; shr_s := false |} ->
            (let '(mrs'', e'') :=
               shr_fexp prec emax (round_nearest_even (shr_m mrs) (loc_of_shr_record mrs))
                        (e + j) loc_Exact in
             match shr_m mrs'' with
             | 0 => S754_zero false
             | Z.pos m => if e'' <=? emax - prec then S754_finite false m e''
                          else S754_infinity false
             | Z.neg _ => S754_nan
             end) = S754_finite false t (e + j)).
  { intros mrs ->. cbn [shr_m loc_of_shr_record round_nearest_even].
    unfold shr_fexp, Zdigits2. rewrite digits2_pos_size, Ht.
    unfold fexp, SpecFloat.emin, prec, emax.
    replace (Z.max (53 + (e + j) - 53) (3 - 1024 - 53) - (e + j)) with 0 by lia.
    cbn [shr shr_record_of_loc shr_m].
    destruct (Z.leb_spec (e + j) (1024 - 53)); [done|lia]. }
  unfold binary_round_aux. unfold shr_fexp at 1. unfold Zdigits2.
  rewrite digits2_pos_size. cbn [shr_record_of_loc].
  destruct j as [|p|p]; [| |lia].
  - assert (M = t) as -> by lia. rewrite Ht.
    unfold fexp, SpecFloat.emin, prec, emax.
    replace (Z.max (53 + e - 53) (3 - 1024 - 53) - e) with 0 by lia.
    cbn [shr]. rewrite <- (Z.add_0_r e) at 1. by apply Hlast.
  - assert (M = Pos.iter xO t p) as ->.
    { apply Pos2Z.inj. by rewrite Zpos_iter_xO. }
    rewrite size_iter_xO, Pos2Z.inj_add, Ht.
    unfold fexp, SpecFloat.emin, prec, emax.
    replace (Z.max (53 + Z.pos p + e - 53) (3 - 1024 - 53) - e) with (Z.pos p) by lia.
    cbn [shr]. rewrite shr_zeros. by apply Hlast.
Qed.

Lemma binary_round_exact M e t j :
  Z.pos M = Z.pos t * 2 ^ j -> 0 <= j -> Z.pos (Pos.size t) = 53 ->
  - 1074 <= e + j <= 971 ->
  binary_round prec emax false M e = S754_finite false t (e + j).
Proof.
  intros HM Hj Ht He. unfold binary_round, shl_align.
  assert (Hsize : Z.pos (Pos.size M) = 53 + j).
  { destruct j as [|p|p]; [| |lia].
    - assert (M = t) as -> by lia. lia.
    - assert (M = Pos.iter xO t p) as -> by (apply Pos2Z.inj; by rewrite Zpos_iter_xO).
      rewrite size_iter_xO. lia. }
  rewrite digits2_pos_size, Hsize. unfold fexp, SpecFloat.emin, prec, emax.
  replace (Z.max (53 + j + e - 53) (3 - 1024 - 53) - e) with j by lia.
  destruct j as [|p|p]; [| |lia]; by apply binary_round_aux_exact.
Qed.

(** The binary64 number for a positive integer below 2^53: its mantissa
    is the integer shifted up to 53 bits. *)
Lemma binary_normalize_pos p :
  Z.pos p < 2 ^ 53 ->
  exists m e,
    binary_normalize prec emax (Z.pos p) 0 false = S754_finite false m e ∧
    - 52 <= e <= 0 ∧ Z.pos m = Z.pos p * 2 ^ (- e) ∧ Z.pos (Pos.size m) = 53.
Proof.
  intros Hp. pose proof (size_53 p Hp) as Hd.
  remember (Pos.size p) as d eqn:Ed.
  assert (Hfexp : forall mz ez, Z.pos (Pos.size mz) = 53 -> - 52 <= ez <= 0 ->
            binary_round_aux prec emax false (Z.pos mz) ez loc_Exact = S754_finite false mz ez).
  { intros mz ez Hmz Hez.
    rewrite (binary_round_aux_exact mz ez mz 0); [by rewrite Z.add_0_r|lia|lia|done|lia]. }
  unfold binary_normalize, binary_round, shl_align.
  rewrite digits2_pos_size, <- Ed. unfold fexp, SpecFloat.emin, prec, emax.
  replace (Z.max (Z.pos d + 0 - 53) (3 - 1024 - 53) - 0) with (Z.pos d - 53) by lia.
  destruct (Z.pos d - 53) as [|n|n] eqn:Hn; [|lia|].
  - exists p, 0. rewrite Hfexp by lia. split; [done|]. split; [lia|]. simpl. lia.
  - replace (Z.max (Z.pos d + 0 - 53) (3 - 1024 - 53)) with (Z.neg n) by lia.
    assert (Hsz : Z.pos (Pos.size (Pos.iter xO p n)) = 53).
    { rewrite size_iter_xO, <- Ed. lia. }
    exists (Pos.iter xO p n), (Z.neg n). rewrite Hfexp by (done || lia).
    split; [done|]. split; [lia|]. split; [by rewrite Zpos_iter_xO|done].
Qed.

Lemma Prim2SF_of_Z k :
  0 < k < 2 ^ 53 ->
  exists m e, Prim2SF (of_Z k) = S754_finite false m e ∧
              - 52 <= e <= 0 ∧ Z.pos m = k * 2 ^ (- e) ∧ Z.pos (Pos.size m) = 53.
Proof.
  intros Hk. unfold of_Z. destruct (Z.ltb_spec k 0); [lia|].
  rewrite of_uint63_spec, Uint63.of_Z_spec.
  assert (Hwb : k mod wB = k).
  { apply Z.mod_small. change wB with 9223372036854775808.
    change (2 ^ 53) with 9007199254740992 in Hk. lia. }
  rewrite Hwb. destruct k as [|p|p]; try lia.
  apply binary_normalize_pos. lia.
Qed.

Lemma Prim2SF_of_Z_0 : Prim2SF (of_Z 0) = S754_zero false.
Proof. reflexivity. Qed.

(** A mantissa of 53 bits. *)
Lemma mantissa_bounds m : Z.pos (Pos.size m) = 53 -> 2 ^ 52 <= Z.pos m < 2 ^ 53.
Proof. intros Hm. pose proof (size_bounds m) as H. rewrite Hm in H. exact H. Qed.

Lemma pow2_le x y : 0 <= x <= y -> 2 ^ x <= 2 ^ y.
Proof. intros H. apply Z.pow_le_mono_r; lia. Qed.

(** The product of two integers is computed exactly when it is below
    2^53. *)
Lemma of_Z_mul a b :
  0 <= a < 2 ^ 53 -> 0 <= b < 2 ^ 53 -> a * b < 2 ^ 53 ->
  (of_Z a * of_Z b)%float = of_Z (a * b).
Proof.
  intros Ha Hb Hab. apply Prim2SF_inj. rewrite mul_spec. unfold SF64mul.
  destruct (decide (a = 0)) as [->|Ha0].
  { rewrite Z.mul_0_l, Prim2SF_of_Z_0.
    destruct (decide (b = 0)) as [->|Hb0]; [by rewrite Prim2SF_of_Z_0|].
    destruct (Prim2SF_of_Z b ltac:(lia)) as (mb & eb & -> & _). reflexivity. }
  destruct (decide (b = 0)) as [->|Hb0].
  { rewrite Z.mul_0_r, Prim2SF_of_Z_0.
    destruct (Prim2SF_of_Z a ltac:(lia)) as (ma & ea & -> & _). reflexivity. }
  destruct (Prim2SF_of_Z a ltac:(lia)) as (ma & ea & -> & Hea & Hma & Hsa).
  destruct (Prim2SF_of_Z b ltac:(lia)) as (mb & eb & -> & Heb & Hmb & Hsb).
  destruct (Prim2SF_of_Z (a * b) ltac:(nia)) as (t & es & -> & Hes & Ht & Hst).
  cbn [SFmul xorb].
  pose proof (mantissa_bounds ma Hsa) as Hba. pose proof (mantissa_bounds mb Hsb) as Hbb.
  pose proof (mantissa_bounds t Hst) as Hbt.
  assert (Hprod : Z.pos (ma * mb) = a * b * 2 ^ (- ea - eb)).
  { rewrite Pos2Z.inj_mul, Hma, Hmb.
    replace (- ea - eb) with (- ea + - eb) by lia. rewrite Z.pow_add_r by lia. lia. }
  assert (Hj : 0 <= es - ea - eb).
  { destruct (Z.le_gt_cases 0 (es - ea - eb)) as [|Hneg]; [done|exfalso].
    pose proof (pow2_le (- ea - eb) (- es) ltac:(lia)) as Hle.
    assert (Z.pos (ma * mb) <= Z.pos t).
    { rewrite Hprod, Ht. apply Z.mul_le_mono_nonneg_l; [nia|done]. }
    assert (2 ^ 52 * 2 ^ 52 <= Z.pos (ma * mb)) by (rewrite Pos2Z.inj_mul; nia).
    change (2 ^ 52 * 2 ^ 52) with (2 ^ 104) in *.
    assert (2 ^ 53 < 2 ^ 104) by reflexivity. lia. }
  rewrite (binary_round_aux_exact (ma * mb) (ea + eb) t (es - ea - eb)).
  - f_equal. lia.
  - rewrite Hprod, Ht.
    replace (- ea - eb) with (- es + (es - ea - eb)) by lia.
    rewrite Z.pow_add_r by lia. lia.
  - done.
  - done.
  - lia.
Qed.

Lemma shl_align_fst m e ez :
  ez <= e -> Z.pos (fst (shl_align m e ez)) = Z.pos m * 2 ^ (e - ez).
Proof.
  intros Hle. unfold shl_align. destruct (ez - e) as [|d|d] eqn:Hd; [|lia|]; cbn [fst].
  - replace (e - ez) with 0 by lia. lia.
  - rewrite Zpos_iter_xO. replace (e - ez) with (Z.pos d) by lia. done.
Qed.

(** The sum of two integers is computed exactly when it is below 2^53. *)
Lemma of_Z_add a b :
  0 <= a -> 0 <= b -> a + b < 2 ^ 53 -> (of_Z a + of_Z b)%float = of_Z (a + b).
Proof.
  intros Ha Hb Hab. apply Prim2SF_inj. rewrite add_spec. unfold SF64add.
  destruct (decide (a = 0)) as [->|Ha0].
  { rewrite Z.add_0_l, Prim2SF_of_Z_0.
    destruct (decide (b = 0)) as [->|Hb0]; [by rewrite Prim2SF_of_Z_0|].
    destruct (Prim2SF_of_Z b ltac:(lia)) as (mb & eb & -> & _). reflexivity. }
  destruct (decide (b = 0)) as [->|Hb0].
  { rewrite Z.add_0_r, Prim2SF_of_Z_0.
    destruct (Prim2SF_of_Z a ltac:(lia)) as (ma & ea & -> & _). reflexivity. }
  destruct (Prim2SF_of_Z a ltac:(lia)) as (ma & ea & -> & Hea & Hma & Hsa).
  destruct (Prim2SF_of_Z b ltac:(lia)) as (mb & eb & -> & Heb & Hmb & Hsb).
  destruct (Prim2SF_of_Z (a + b) ltac:(lia)) as (t & es & -> & Hes & Ht & Hst).
  cbn [SFadd cond_Zopp]. cbv zeta.
  pose proof (mantissa_bounds ma Hsa) as Hba. pose proof (mantissa_bounds mb Hsb) as Hbb.
  pose proof (mantissa_bounds t Hst) as Hbt.
  set (ez := Z.min ea eb).
  pose proof (shl_align_fst ma ea ez ltac:(lia)) as Hp.
  pose proof (shl_align_fst mb eb ez ltac:(lia)) as Hq.
  destruct (shl_align ma ea ez) as [p ?], (shl_align mb eb ez) as [q ?]. cbn [fst] in *.
  change (Z.pos p + Z.pos q) with (Z.pos (p + q)). cbn [binary_normalize].
  assert (Hsum : Z.pos (p + q) = (a + b) * 2 ^ (- ez)).
  { assert (H1 : 2 ^ (- ea) * 2 ^ (ea - ez) = 2 ^ (- ez))
      by (rewrite <- Z.pow_add_r by lia; f_equal; lia).
    assert (H2 : 2 ^ (- eb) * 2 ^ (eb - ez) = 2 ^ (- ez))
      by (rewrite <- Z.pow_add_r by lia; f_equal; lia).
    rewrite Pos2Z.inj_add, Hp, Hq, Hma, Hmb, <- !Z.mul_assoc, H1, H2. lia. }
  assert (Hbig : 2 ^ 52 <= Z.pos (p + q)).
  { rewrite Pos2Z.inj_add, Hp.
    assert (1 <= 2 ^ (ea - ez)) by (change 1 with (2 ^ 0); apply pow2_le; lia). nia. }
  assert (Hj : 0 <= es - ez).
  { destruct (Z.le_gt_cases 0 (es - ez)) as [|Hneg]; [done|exfalso].
    pose proof (pow2_le (- ez + 1) (- es) ltac:(lia)) as Hle.
    rewrite Z.pow_add_r in Hle by lia. change (2 ^ 1) with 2 in Hle.
    assert (2 * Z.pos (p + q) <= Z.pos t).
    { rewrite Hsum, Ht.
      transitivity ((a + b) * (2 ^ (- ez) * 2)); [lia|].
      apply Z.mul_le_mono_nonneg_l; [lia|done]. }
    change (2 ^ 53) with (2 * 2 ^ 52) in Hbt. lia. }
  rewrite (binary_round_exact (p + q) ez t (es - ez)).
  - f_equal. lia.
  - rewrite Hsum, Ht.
    replace (- ez) with (- es + (es - ez)) by lia.
    rewrite Z.pow_add_r by lia. lia.
  - done.
  - done.
  - lia.
Qed.

(** A typed array index that was computed exactly is the element index. *)
Lemma index_of_of_Z k : 0 <= k < 2 ^ 53 -> index_of (of_Z k) = Some k.
Proof.
  intros Hk. destruct (decide (k = 0)) as [->|Hne]; [vm_compute; reflexivity|].
  destruct (Prim2SF_of_Z k ltac:(lia)) as (m & e & Hsf & He & Hm & _).
  unfold index_of, truncZ. rewrite Hsf. cbn [SF_trunc].
  assert (Htr : (if 0 <=? e then Z.pos m * 2 ^ e else Z.pos m / 2 ^ (- e)) = k).
  { destruct (Z.leb_spec 0 e).
    - assert (e = 0) as -> by lia. simpl in *. lia.
    - rewrite Hm. apply Z.div_mul. apply Z.pow_nonzero; lia. }
  rewrite Htr.
  assert (Heq : PrimFloat.eqb (of_Z k) (of_Z k) = true).
  { rewrite FloatAxioms.eqb_spec, Hsf. unfold SFeqb, SFcompare.
    by rewrite Z.compare_refl, Pos.compare_cont_refl. }
  by rewrite Heq.
Qed.

End ExactIntegers.

(** ** The resizer at the sizes the handlers use *)

Section StickerSize.

Import ContainResizer Raster.

(** The handlers ask the service for [size: "1024x1024"] and resize what
    they get to [OUTPUT_WIDTH] x [OUTPUT_HEIGHT]. *)
Definition REQUEST_SIZE : Z := 1024.

(** A raster of the requested size; placement and inverse map only look at
    the dimensions. *)
Definition requested : PNG := {| width := REQUEST_SIZE; height := REQUEST_SIZE; data := [] |}.

Definition sticker_place : placement :=
  place requested Handlers.OUTPUT_WIDTH Handlers.OUTPUT_HEIGHT.

(** The source pixels around the sample of destination column [x] (row
    [y]): [Math.floor(sx)] and its clamped successor. *)
Definition near (i offset : Z) : Z := (i - offset) * 16 / 5.
Definition far (i offset : Z) : Z := Z.min (near i offset + 1) (REQUEST_SIZE - 1).

Lemma place_dims (src : PNG) (dstW dstH : Z) :
  width src = REQUEST_SIZE -> height src = REQUEST_SIZE ->
  place src dstW dstH = place requested dstW dstH.
Proof. intros Hw Hh. unfold place. by rewrite Hw, Hh. Qed.

Lemma outside_dims (src : PNG) sx sy :
  width src = REQUEST_SIZE -> height src = REQUEST_SIZE ->
  outside src sx sy = outside requested sx sy.
Proof. intros Hw Hh. unfold outside. by rewrite Hw, Hh. Qed.

Lemma forallb_seqZ (f : Z -> bool) (a n : Z) :
  forallb f (seqZ a n) = true -> forall i, a <= i < a + n -> f i = true.
Proof.
  intros H i Hi. rewrite forallb_forall in H. apply H.
  apply list_elem_of_In, elem_of_seqZ. lia.
Qed.

Lemma sticker_place_value :
  sticker_place = {| scale := 0.3125%float; offX := 25%float; offY := 0%float |}.
Proof. vm_compute. reflexivity. Qed.

(** Columns 0..24 and 345..369 map outside the source, the others inside. *)
Definition column_check (x : Z) : bool :=
  let sx := inv_x sticker_place x in
  Bool.eqb (PrimFloat.ltb sx 0 || PrimFloat.ltb (of_Z REQUEST_SIZE - 1) sx)
           ((x <? 25) || (345 <=? x)).

Definition row_check (y : Z) : bool :=
  let sy := inv_y sticker_place y in
  negb (PrimFloat.ltb sy 0 || PrimFloat.ltb (of_Z REQUEST_SIZE - 1) sy).

Lemma columns_checked : forallb column_check (seqZ 0 370) = true.
Proof. vm_cast_no_check (eq_refl true). Qed.

Lemma rows_checked : forallb row_check (seqZ 0 320) = true.
Proof. vm_cast_no_check (eq_refl true). Qed.

Lemma outside_sticker (src : PNG) x y :
  width src = REQUEST_SIZE -> height src = REQUEST_SIZE ->
  in_bounds 370 320 x y ->
  outside src (inv_x (place src 370 320) x) (inv_y (place src 370 320) y)
    = (x <? 25) || (345 <=? x).
Proof.
  intros Hw Hh [Hx Hy]. rewrite (place_dims src 370 320 Hw Hh), (outside_dims src _ _ Hw Hh).
  pose proof (forallb_seqZ _ _ _ columns_checked x ltac:(lia)) as Hc.
  pose proof (forallb_seqZ _ _ _ rows_checked y ltac:(lia)) as Hr.
  cbv beta zeta delta [column_check row_check sticker_place] in Hc, Hr.
  apply Bool.eqb_prop in Hc. apply negb_true_iff in Hr.
  apply orb_false_iff in Hr as [Hr1 Hr2].
  unfold outside. cbn [width height requested].
  change Handlers.OUTPUT_WIDTH with 370 in *. change Handlers.OUTPUT_HEIGHT with 320 in *.
  rewrite Hr1, Hr2, <- Hc.
  by destruct (PrimFloat.ltb _ 0), (PrimFloat.ltb _ (inv_x _ x)).
Qed.

(** [interpolate] with its four reads and its two weights named. *)
Definition next (f : float) : float := clamp (f + 1) 0 (of_Z REQUEST_SIZE - 1).

Definition tap (fy fx : float) (c : Z) : float :=
  ((fy * of_Z REQUEST_SIZE + fx) * 4 + of_Z c)%float.

Definition mix (v00 v10 v01 v11 tx ty : float) : float :=
  ((v00 * (1 - tx) + v10 * tx) * (1 - ty) + (v01 * (1 - tx) + v11 * tx) * ty)%float.

Lemma interpolate_taps (src : PNG) (sx sy : float) (c : Z) :
  width src = REQUEST_SIZE -> height src = REQUEST_SIZE ->
  interpolate src sx sy c =
    mix (src_at (data src) (tap (js_floor sy) (js_floor sx) c))
        (src_at (data src) (tap (js_floor sy) (next (js_floor sx)) c))
        (src_at (data src) (tap (next (js_floor sy)) (js_floor sx) c))
        (src_at (data src) (tap (next (js_floor sy)) (next (js_floor sx)) c))
        (sx - js_floor sx) (sy - js_floor sy).
Proof. intros Hw Hh. unfold interpolate. rewrite Hw, Hh. reflexivity. Qed.

(** Along one axis: the floor of the sample position and its clamped
    successor are the integers [near] and [far]. *)
Definition axis_check (s : float) (i offset : Z) : bool :=
  PrimFloat.Leibniz.eqb (js_floor s) (of_Z (near i offset)) &&
  PrimFloat.Leibniz.eqb (next (js_floor s)) (of_Z (far i offset)).

Lemma x_axis_checked :
  forallb (fun x => axis_check (inv_x sticker_place x) x 25) (seqZ 25 320) = true.
Proof. vm_cast_no_check (eq_refl true). Qed.

Lemma y_axis_checked :
  forallb (fun y => axis_check (inv_y sticker_place y) y 0) (seqZ 0 320) = true.
Proof. vm_cast_no_check (eq_refl true). Qed.

(** The byte offsets computed in floating point are the exact integers. *)
Lemma tap_exact (Y X c : Z) :
  0 <= Y <= 1023 -> 0 <= X <= 1023 -> 0 <= c < 4 ->
  tap (of_Z Y) (of_Z X) c = of_Z ((Y * REQUEST_SIZE + X) * 4 + c).
Proof.
  intros HY HX Hc. unfold tap, REQUEST_SIZE.
  change (2 ^ 53) with 9007199254740992 in *.
  rewrite of_Z_mul by (change (2 ^ 53) with 9007199254740992; lia).
  rewrite of_Z_add by (change (2 ^ 53) with 9007199254740992; lia).
  change 4%float with (of_Z 4).
  rewrite of_Z_mul by (change (2 ^ 53) with 9007199254740992; lia).
  rewrite of_Z_add by (change (2 ^ 53) with 9007199254740992; lia).
  reflexivity.
Qed.

(** Mixing a value with itself, with the weight of a sample position,
    gives the value back exactly. *)
Definition flat_check (s : float) : bool :=
  let t := (s - js_floor s)%float in
  forallb (fun v => PrimFloat.Leibniz.eqb (of_Z v * (1 - t) + of_Z v * t)%float (of_Z v))
          (seqZ 0 256).

Lemma x_flat_checked :
  forallb (fun x => flat_check (inv_x sticker_place x)) (seqZ 25 320) = true.
Proof. vm_cast_no_check (eq_refl true). Qed.

Lemma y_flat_checked :
  forallb (fun y => flat_check (inv_y sticker_place y)) (seqZ 0 320) = true.
Proof. vm_cast_no_check (eq_refl true). Qed.

Lemma bytes_checked :
  forallb (fun v => toUint8 (js_or0 (of_Z v)) =? v) (seqZ 0 256) = true.
Proof. vm_cast_no_check (eq_refl true). Qed.

Lemma near_far_range i offset :
  offset <= i < offset + 320 ->
  0 <= near i offset <= 1023 ∧ 0 <= far i offset <= 1023.
Proof.
  intros Hi. unfold far, near, REQUEST_SIZE.
  assert (0 <= (i - offset) * 16 / 5) by (apply Z.div_pos; lia).
  assert ((i - offset) * 16 / 5 < 1024) by (apply Z.div_lt_upper_bound; lia).
  lia.
Qed.

(** What [srcData] gives at a tap whose offset is exact. *)
Lemma src_at_tap (d : list Z) (X Y c v : Z) :
  0 <= X <= 1023 -> 0 <= Y <= 1023 -> 0 <= c < 4 ->
  tap (of_Z Y) (of_Z X) c = of_Z ((Y * REQUEST_SIZE + X) * 4 + c) ->
  channel REQUEST_SIZE d X Y c = Some v ->
  src_at d (tap (of_Z Y) (of_Z X) c) = of_Z v.
Proof.
  intros HX HY Hc Htap Hv. unfold src_at. rewrite Htap, index_of_of_Z.
  - unfold channel in Hv. by rewrite Hv.
  - unfold REQUEST_SIZE. change (2 ^ 53) with 9007199254740992. lia.
Qed.

(** X5. A 1024 x 1024 source is placed into the 370 x 320 target with scale
    0.3125 and offsets 25 and 0; the target pixels whose sample lies outside
    the source are exactly the columns 0..24 and 345..369, and they stay
    0 in all four channels. *)
Theorem sticker_resize_letterbox (src : PNG) :
  width src = REQUEST_SIZE -> height src = REQUEST_SIZE ->
  place src 370 320 = {| scale := 0.3125%float; offX := 25%float; offY := 0%float |} ∧
  forall x y,
    in_bounds 370 320 x y ->
    (outside src (inv_x (place src 370 320) x) (inv_y (place src 370 320) y) = true
       <-> x < 25 ∨ 345 <= x) ∧
    (x < 25 ∨ 345 <= x ->
     forall c, 0 <= c < 4 ->
       channel 370 (data (resizeContainBilinear src 370 320)) x y c = Some 0).
Proof.
  intros Hw Hh. split.
  { rewrite (place_dims src 370 320 Hw Hh). exact sticker_place_value. }
  intros x y Hb. pose proof (outside_sticker src x y Hw Hh Hb) as Hout.
  assert (Hiff : outside src (inv_x (place src 370 320) x) (inv_y (place src 370 320) y) = true
                 <-> x < 25 ∨ 345 <= x).
  { rewrite Hout, orb_true_iff, Z.ltb_lt, Z.leb_le. done. }
  split; [done|]. intros Hbar c Hc.
  destruct (resize_Drawn src 370 320 ltac:(lia) ltac:(lia)) as [_ Hd].
  unfold channel. rewrite Hd by done.
  destruct (Z.ltb_spec (y * 370 + x) (370 * 320)); [|unfold in_bounds in Hb; lia].
  unfold drawn_byte. apply Hiff in Hbar. by rewrite Hbar.
Qed.

(** X6. Between the bars, a channel that has one value [v] at the four
    source pixels around the sample has [v] in the target: at these sizes the
    binary64 interpolation of a flat colour is exact. *)
Theorem sticker_resize_keeps_flat_colour (src : PNG) (x y c v : Z) :
  width src = REQUEST_SIZE -> height src = REQUEST_SIZE ->
  25 <= x < 345 -> 0 <= y < 320 -> 0 <= c < 4 -> 0 <= v <= 255 ->
  (forall X Y,
     X = near x 25 ∨ X = far x 25 -> Y = near y 0 ∨ Y = far y 0 ->
     channel REQUEST_SIZE (data src) X Y c = Some v) ->
  channel 370 (data (resizeContainBilinear src 370 320)) x y c = Some v.
Proof.
  intros Hw Hh Hx Hy Hc Hv Hflat.
  assert (Hb : in_bounds 370 320 x y) by (unfold in_bounds; lia).
  destruct (resize_Drawn src 370 320 ltac:(lia) ltac:(lia)) as [_ Hd].
  unfold channel. rewrite Hd by done.
  destruct (Z.ltb_spec (y * 370 + x) (370 * 320)); [|lia].
  unfold drawn_byte. rewrite (outside_sticker src x y Hw Hh Hb).
  destruct (Z.ltb_spec x 25); [lia|]. destruct (Z.leb_spec 345 x); [lia|]. cbn [orb].
  rewrite (place_dims src 370 320 Hw Hh).
  change (place requested 370 320) with sticker_place.
  rewrite (interpolate_taps src _ _ c Hw Hh).
  (* the two axes *)
  pose proof (forallb_seqZ _ _ _ x_axis_checked x ltac:(lia)) as Hax.
  pose proof (forallb_seqZ _ _ _ y_axis_checked y ltac:(lia)) as Hay.
  cbv beta in Hax, Hay. unfold axis_check in Hax, Hay.
  apply andb_true_iff in Hax as [Hx0 Hx1]. apply andb_true_iff in Hay as [Hy0 Hy1].
  apply Leibniz.eqb_spec in Hx0, Hx1, Hy0, Hy1.
  assert (Htap : forall X Y,
            X = near x 25 ∨ X = far x 25 -> Y = near y 0 ∨ Y = far y 0 ->
            src_at (data src) (tap (of_Z Y) (of_Z X) c) = of_Z v).
  { intros X Y HX HY.
    destruct (near_far_range x 25 ltac:(lia)), (near_far_range y 0 ltac:(lia)).
    assert (0 <= X <= 1023) by (destruct HX; subst; lia).
    assert (0 <= Y <= 1023) by (destruct HY; subst; lia).
    apply src_at_tap; [done|done|done|by apply tap_exact|by apply Hflat]. }
  rewrite Hx1, Hy1, Hx0, Hy0.
  rewrite !Htap by auto.
  (* the mix *)
  pose proof (forallb_seqZ _ _ _ x_flat_checked x ltac:(lia)) as Hfx.
  pose proof (forallb_seqZ _ _ _ y_flat_checked y ltac:(lia)) as Hfy.
  cbv beta in Hfx, Hfy. unfold flat_check in Hfx, Hfy. cbv zeta in Hfx, Hfy.
  pose proof (forallb_seqZ _ _ _ Hfx v ltac:(lia)) as Hmx.
  pose proof (forallb_seqZ _ _ _ Hfy v ltac:(lia)) as Hmy.
  cbv beta in Hmx, Hmy. apply Leibniz.eqb_spec in Hmx, Hmy.
  rewrite Hx0 in Hmx. rewrite Hy0 in Hmy.
  unfold mix. rewrite Hmx, Hmy.
  pose proof (forallb_seqZ _ _ _ bytes_checked v ltac:(lia)) as Hbyte.
  cbv beta in Hbyte. apply Z.eqb_eq in Hbyte. by rewrite Hbyte.
Qed.

End StickerSize.

(** ** Trimmed strings *)

Section Trimmed.

Import Handlers.

Lemma trimStart_fixed s :
  (forall c r, s = c :: r -> is_space c = false) -> trimStart s = s.
Proof. destruct s as [|c r]; [done|]. intros H. simpl. by rewrite (H c r). Qed.

Lemma trimStart_split s :
  exists ws, s = ws ++ trimStart s ∧ blank ws = true.
Proof.
  induction s as [|c s (ws & Hs & Hws)]; [by exists []|]. simpl.
  destruct (is_space c) eqn:Hc.
  - exists (c :: ws). split; [by rewrite <- app_comm_cons, <- Hs|]. simpl. by rewrite Hc.
  - by exists [].
Qed.

(** [trim] leaves a string that starts and ends with a character that is
    not white space, and such a string is left as it is. *)
Lemma trim_ends s :
  trimStart (trim s) = trim s ∧ trimStart (rev (trim s)) = rev (trim s).
Proof.
  unfold trim. set (a := trimStart s). set (b := trimStart (rev a)).
  rewrite rev_involutive.
  assert (Hb : trimStart b = b).
  { apply trimStart_fixed. intros c r Hc.
    destruct (trimStart_head (rev a)) as [Hn|(c' & r' & Hcr & Hsp)].
    - fold b in Hn. congruence.
    - fold b in Hcr. congruence. }
  split; [|done].
  apply trimStart_fixed. intros c r Hc.
  destruct (trimStart_split (rev a)) as (ws & Hra & Hws). fold b in Hra.
  assert (Ha : a = rev b ++ rev ws).
  { rewrite <- (rev_involutive a), Hra, rev_app_distr. done. }
  rewrite Hc in Ha. simpl in Ha.
  destruct (trimStart_head s) as [Hn|(c' & r' & Hcr & Hsp)].
  - fold a in Hn. rewrite Hn in Ha. done.
  - fold a in Hcr. rewrite Hcr in Ha. by injection Ha as -> _.
Qed.

Lemma trim_fixed s :
  trimStart s = s -> trimStart (rev s) = rev s -> trim s = s.
Proof. intros H1 H2. unfold trim. by rewrite H1, H2, rev_involutive. Qed.

Lemma trim_idem s : trim (trim s) = trim s.
Proof. destruct (trim_ends s). by apply trim_fixed. Qed.

End Trimmed.

(** ** The prompt of a submitted item *)

Section PromptOfItem.

Import Handlers.

Lemma or_else_nil s : BatchPrompt.or_else s [] = s.
Proof. by destruct s. Qed.

(** X13. White space around the message and the theme does not change the
    prompt. *)
Theorem buildPrompt_ignores_padding (text theme : jstring) :
  BatchPrompt.buildPrompt text theme = BatchPrompt.buildPrompt (trim text) (trim theme).
Proof. unfold BatchPrompt.buildPrompt. by rewrite !or_else_nil, !trim_idem. Qed.

Lemma join_lines_app ls ls' :
  ls ≠ [] -> ls' ≠ [] -> join_lines (ls ++ ls') = join_lines ls ++ 10 :: join_lines ls'.
Proof.
  induction ls as [|a ls IH]; [done|]. intros _ Hne.
  destruct ls as [|b ls].
  - destruct ls' as [|c ls']; [done|]. reflexivity.
  - change (join_lines ((a :: b :: ls) ++ ls')) with (a ++ 10 :: join_lines ((b :: ls) ++ ls')).
    rewrite IH by done.
    change (join_lines (a :: b :: ls)) with (a ++ 10 :: join_lines (b :: ls)).
    by rewrite <- app_assoc.
Qed.

Lemma valid_items_elem itemsIn x :
  x ∈ valid_items itemsIn -> fst x ≠ [] ∧ trim (fst x) = fst x ∧ trim (snd x) = snd x.
Proof.
  unfold valid_items. rewrite list_elem_of_filter, list_elem_of_fmap.
  intros [Hne (i & -> & _)]. unfold clean_item in *. simpl in *.
  split; [by destruct (trim _)|]. by rewrite !trim_idem.
Qed.

(** X14. With the prompt builder of the repository, the request line of
    the [i]-th valid item carries the prompt made of the fixed style lines,
    the theme line with the item's keyword (the default theme when it has
    none), the mochi lines or nothing, the line that quotes the item's
    message as it was kept, and the closing line. *)
Theorem uploaded_prompt_quotes_message (E : env) (cfg : config) (ts : Z)
  (itemsIn : list item) (i : nat) (x : jstring * jstring) :
  buildPrompt E = BatchPrompt.buildPrompt ->
  valid_items itemsIn !! i = Some x ->
  exists prompt head,
    csv_line E cfg ts i x =
      stringify_line E
        {| bl_custom_id := csv_custom_id ts i;
           bl_body := {| ib_model := IMAGE_MODEL cfg; ib_prompt := prompt;
                         ib_quality := IMAGE_QUALITY cfg |} |} ∧
    prompt =
      join_lines BatchPrompt.style_lines ++
      10 :: BatchPrompt.theme_line (BatchPrompt.or_else (snd x) BatchPrompt.DEFAULT_THEME) ++
      head ++
      10 :: BatchPrompt.message_line (fst x) ++
      10 :: lit "Do not add any other text." ∧
    (head = [] ∨ head = 10 :: join_lines BatchPrompt.mochi_lines).
Proof.
  intros HE Hx. apply list_elem_of_lookup_2 in Hx.
  destruct (valid_items_elem _ _ Hx) as (Hne & Hm & Hk).
  unfold csv_line. rewrite HE.
  exists (BatchPrompt.buildPrompt (fst x) (snd x)),
         (if BatchPrompt.isMochi (BatchPrompt.or_else (snd x) BatchPrompt.DEFAULT_THEME)
          then 10 :: join_lines BatchPrompt.mochi_lines else []).
  split; [reflexivity|].
  unfold BatchPrompt.buildPrompt. cbv zeta. rewrite !or_else_nil.
  destruct x as [m k]. cbn [fst snd] in *. rewrite Hm, Hk.
  assert (Ht : BatchPrompt.or_else m BatchPrompt.DEFAULT_TEXT = m) by (by destruct m).
  rewrite Ht. set (th := BatchPrompt.or_else k BatchPrompt.DEFAULT_THEME).
  assert (Htail : forall t, join_lines [BatchPrompt.message_line t; lit "Do not add any other text."]
                          = BatchPrompt.message_line t ++ 10 :: lit "Do not add any other text.")
    by reflexivity.
  destruct (BatchPrompt.isMochi th).
  - split; [|by right].
    rewrite (join_lines_app BatchPrompt.style_lines) by done.
    rewrite (join_lines_app [BatchPrompt.theme_line th]) by done.
    rewrite (join_lines_app BatchPrompt.mochi_lines) by done.
    rewrite Htail. cbn [join_lines]. by rewrite <- app_comm_cons.
  - split; [|by left]. rewrite app_nil_l.
    rewrite (join_lines_app BatchPrompt.style_lines) by done.
    rewrite (join_lines_app [BatchPrompt.theme_line th]) by done.
    rewrite Htail. cbn [join_lines]. done.
Qed.

End PromptOfItem.

(** ** The CSV reader *)

Section CsvReader.

Import Handlers Client.

(** *** Files it reads back *)

(** A field written as it is: no quote, comma, line feed or carriage
    return in it. *)
Definition plain (f : jstring) : Prop :=
  Forall (fun c => c ≠ 34 ∧ c ≠ 44 ∧ c ≠ 10 ∧ c ≠ 13) f.

(** A field written between quotes, its quotes doubled. *)
Definition quote_field (f : jstring) : jstring :=
  34 :: flat_map (fun c => if c =? 34 then [34; 34] else [c]) f ++ [34].

Inductive field_text : jstring -> jstring -> Prop :=
| ft_plain f : plain f -> field_text f f
| ft_quoted f : field_text (quote_field f) f.

Inductive row_text : jstring -> list jstring -> Prop :=
| rt_last e f : field_text e f -> row_text e [f]
| rt_cons e f es fs : field_text e f -> row_text es fs -> row_text (e ++ 44 :: es) (f :: fs).

(** Rows that are not a single blank field, each ended by LF or CR LF; the
    last one may do without. *)
Inductive file_text : jstring -> list (list jstring) -> Prop :=
| file_end : file_text [] []
| file_last e fs : row_text e fs -> blank_row fs = false -> file_text e [fs]
| file_row e fs nl t rs :
    row_text e fs -> blank_row fs = false -> nl = [10] ∨ nl = [13; 10] ->
    file_text t rs -> file_text (e ++ nl ++ t) (fs :: rs).

Definition not_quote_next (rest : jstring) : Prop :=
  forall r, rest ≠ 34 :: r.

Lemma scan_plain f rest rs c fl :
  plain f ->
  scan (f ++ rest) (mkCsv rs c fl false) = scan rest (mkCsv rs c (fl ++ f) false).
Proof.
  intros Hf. revert fl. induction Hf as [|ch f (H34 & H44 & H10 & H13) _ IH]; intros fl.
  - by rewrite app_nil_r.
  - cbn [app scan inQuotes].
    destruct (Z.eqb_spec ch 34); [done|]. destruct (Z.eqb_spec ch 44); [done|].
    destruct (Z.eqb_spec ch 10); [done|]. destruct (Z.eqb_spec ch 13); [done|].
    unfold append. cbn [rows cur field inQuotes]. rewrite IH. by rewrite <- app_assoc.
Qed.

Lemma scan_close rest rs c fl :
  not_quote_next rest ->
  scan (34 :: rest) (mkCsv rs c fl true) = scan rest (mkCsv rs c fl false).
Proof.
  intros Hnq. cbn [scan inQuotes]. change (34 =? 34) with true. cbv iota.
  destruct rest as [|ch r]; [done|].
  assert (ch ≠ 34) by (intros ->; by apply (Hnq r)).
  repeat case_match; try done; congruence.
Qed.

Lemma scan_quoted_body f rest rs c fl :
  not_quote_next rest ->
  scan (flat_map (fun c => if c =? 34 then [34; 34] else [c]) f ++ 34 :: rest)
       (mkCsv rs c fl true)
  = scan rest (mkCsv rs c (fl ++ f) false).
Proof.
  intros Hnq. revert fl. induction f as [|ch f IH]; intros fl.
  - simpl. rewrite app_nil_r. by apply scan_close.
  - cbn [flat_map]. destruct (Z.eqb_spec ch 34) as [->|Hne].
    + cbn [app scan inQuotes]. change (34 =? 34) with true. cbv iota.
      unfold append. cbn [rows cur field inQuotes]. rewrite IH. by rewrite <- app_assoc.
    + cbn [app scan inQuotes]. destruct (Z.eqb_spec ch 34); [done|].
      unfold append. cbn [rows cur field inQuotes]. rewrite IH. by rewrite <- app_assoc.
Qed.

Lemma scan_field e f rest rs c fl :
  field_text e f -> not_quote_next rest ->
  scan (e ++ rest) (mkCsv rs c fl false) = scan rest (mkCsv rs c (fl ++ f) false).
Proof.
  intros [f' Hp|f'] Hnq.
  - by apply scan_plain.
  - unfold quote_field. rewrite <- app_comm_cons, <- app_assoc.
    cbn [scan inQuotes]. change (34 =? 34) with true. cbv iota.
    unfold set_inQuotes. cbn [rows cur field]. simpl app.
    by apply scan_quoted_body.
Qed.

Lemma scan_row e fs rest rs c :
  row_text e fs -> not_quote_next rest ->
  scan (e ++ rest) (mkCsv rs c [] false)
  = scan rest (mkCsv rs (c ++ removelast fs) (List.last fs ([] : jstring)) false).
Proof.
  intros Hrow Hnq. revert c. induction Hrow as [e f Hf|e f es fs Hf Hrow IH]; intros c.
  - rewrite (scan_field e f) by done. simpl. by rewrite app_nil_r.
  - rewrite <- app_assoc, <- app_comm_cons.
    rewrite (scan_field e f) by (done || intros r; discriminate).
    cbn [scan inQuotes]. change (44 =? 34) with false. change (44 =? 44) with true. cbv iota.
    unfold pushField. cbn [rows cur field inQuotes app]. rewrite IH.
    assert (Hfs : fs ≠ []) by (by destruct Hrow).
    destruct fs as [|f' fs]; [done|]. cbn [removelast List.last].
    by rewrite <- app_assoc.
Qed.

Lemma row_text_last fs : fs ≠ [] -> removelast fs ++ [List.last fs ([] : jstring)] = fs.
Proof. intros H. symmetry. by apply app_removelast_last. Qed.

Lemma scan_line e fs nl rest rs :
  row_text e fs -> blank_row fs = false -> nl = [10] ∨ nl = [13; 10] ->
  scan (e ++ nl ++ rest) (mkCsv rs [] [] false) = scan rest (mkCsv (rs ++ [fs]) [] [] false).
Proof.
  intros Hrow Hnb Hnl.
  assert (Hfs : fs ≠ []) by (by destruct Hrow).
  rewrite (scan_row e fs) by (done || (destruct Hnl as [-> | ->]; intros r; discriminate)).
  assert (Hstep : scan (10 :: rest) (mkCsv rs ([] ++ removelast fs) (List.last fs ([] : jstring)) false)
                  = scan rest (mkCsv (rs ++ [fs]) [] [] false)).
  { cbn [scan inQuotes]. change (10 =? 34) with false. change (10 =? 44) with false.
    change (10 =? 10) with true. cbv iota.
    unfold pushRow, pushField. cbn [rows cur field inQuotes app].
    rewrite row_text_last by done. by rewrite Hnb. }
  destruct Hnl as [-> | ->]; [exact Hstep|].
  cbn [app]. cbn [app] in Hstep. rewrite <- Hstep. reflexivity.
Qed.

Lemma csv_rows_file t rs0 rs :
  file_text t rs ->
  rows (let s := pushField (scan t (mkCsv rs0 [] [] false)) in
        if (0 <? length (cur s))%nat then pushRow s else s) = rs0 ++ rs.
Proof.
  intros Hfile. revert rs0. induction Hfile as [|e fs Hrow Hnb|e fs nl t rs Hrow Hnb Hnl Hfile IH];
    intros rs0.
  - simpl. by rewrite app_nil_r.
  - assert (Hfs : fs ≠ []) by (by destruct Hrow).
    rewrite <- (app_nil_r e), (scan_row e fs) by (done || intros r; discriminate).
    cbn [scan]. unfold pushField. cbn [rows cur field inQuotes app]. cbv zeta.
    rewrite row_text_last by done.
    destruct fs as [|f fs]; [done|]. cbn [length Nat.ltb Nat.leb].
    unfold pushRow. cbn [rows cur field inQuotes]. by rewrite Hnb.
  - rewrite (scan_line e fs nl t rs0) by done. rewrite IH. by rewrite <- app_assoc.
Qed.

(** X15. The reader returns the rows of a well-formed file: fields written
    plainly or in quotes with doubled quotes, separated by commas, rows ended
    by a line feed with or without a carriage return. *)
Theorem csv_rows_reads_back (t : jstring) (rs : list (list jstring)) :
  file_text t rs -> csv_rows t = rs.
Proof. intros Hfile. exact (csv_rows_file t [] rs Hfile). Qed.

(** *** What [parseCsv] returns *)

Variable toLowerCase : jstring -> jstring.

Lemma read_row_Some msgIdx keyIdx row r :
  read_row msgIdx keyIdx row = Some r ->
  fst r ≠ [] ∧ trim (fst r) = fst r ∧ trim (snd r) = snd r.
Proof.
  unfold read_row. destruct (nonempty _) eqn:Hne; [|done]. intros [= <-]. simpl.
  split; [by destruct (trim _)|]. by rewrite !trim_idem.
Qed.

Lemma parseCsv_elem text r :
  r ∈ parseCsv toLowerCase text ->
  fst r ≠ [] ∧ trim (fst r) = fst r ∧ trim (snd r) = snd r.
Proof.
  unfold parseCsv. rewrite list_elem_of_omap. intros (row & _ & Hr).
  by eapply read_row_Some.
Qed.

(** X17. Whatever the page reads from a file and posts, the endpoint
    keeps: no row is dropped, the order is the order of the file, the message
    is unchanged and the keyword is the row's or else the page's. *)
Theorem csv_rows_survive_submission (text keyword : jstring) :
  valid_items (map (upload_item keyword) (parseCsv toLowerCase text)) =
    map (fun r => (fst r, trim (BatchPrompt.or_else (snd r) (BatchPrompt.or_else keyword []))))
        (parseCsv toLowerCase text) ∧
  length (valid_items (map (upload_item keyword) (parseCsv toLowerCase text))) =
    length (parseCsv toLowerCase text).
Proof.
  assert (H : forall l, (forall r, r ∈ l -> fst r ≠ [] ∧ trim (fst r) = fst r) ->
            valid_items (map (upload_item keyword) l) =
            map (fun r => (fst r, trim (BatchPrompt.or_else (snd r)
                                          (BatchPrompt.or_else keyword [])))) l).
  { unfold valid_items. induction l as [|r l IH]; intros Hl; [done|].
    destruct (Hl r ltac:(left)) as [Hne Htr].
    cbn [map]. rewrite filter_cons_True.
    - rewrite IH by (intros r' Hr'; apply Hl; by right).
      unfold clean_item, upload_item. cbn [message Handlers.keyword default id].
      unfold jstring in *. by rewrite Htr, trim_idem.
    - unfold clean_item, upload_item. cbn [message default id fst].
      unfold jstring in *. rewrite Htr. by destruct (fst r). }
  rewrite H.
  - split; [done|]. by rewrite length_map.
  - intros r Hr. destruct (parseCsv_elem _ _ Hr) as (? & ? & _). done.
Qed.

(** X18. A file of white space alone has no row and gives no item. *)
Theorem parseCsv_blank (text : jstring) :
  blank text = true -> csv_rows text = [] ∧ parseCsv toLowerCase text = [].
Proof.
  intros Hb.
  assert (Hscan : forall t fl, blank t = true -> blank fl = true ->
            exists fl', scan t (mkCsv [] [] fl false) = mkCsv [] [] fl' false ∧ blank fl' = true).
  { induction t as [|ch t IH]; intros fl Ht Hfl; [by exists fl|].
    unfold blank in Ht. cbn [forallb] in Ht. apply andb_true_iff in Ht as [Hch Ht].
    cbn [scan inQuotes].
    destruct (Z.eqb_spec ch 34) as [->|_]; [done|].
    destruct (Z.eqb_spec ch 44) as [->|_]; [done|].
    destruct (Z.eqb_spec ch 10) as [->|_].
    - unfold pushRow, pushField. cbn [rows cur field inQuotes app blank_row].
      rewrite nonempty_trim, Hfl. cbn [negb]. by apply IH.
    - destruct (Z.eqb_spec ch 13) as [->|_]; [by apply IH|].
      unfold append. cbn [rows cur field inQuotes]. apply IH; [done|].
      unfold blank in *. rewrite forallb_app. cbn [forallb]. by rewrite Hfl, Hch. }
  destruct (Hscan text [] Hb eq_refl) as (fl' & Hs & Hfl').
  assert (Hrows : csv_rows text = []).
  { unfold csv_rows. rewrite Hs. unfold pushField. cbn [rows cur field inQuotes app length].
    cbn [Nat.ltb Nat.leb]. unfold pushRow. cbn [rows cur field inQuotes blank_row].
    by rewrite nonempty_trim, Hfl'. }
  split; [done|]. unfold parseCsv. rewrite Hrows. reflexivity.
Qed.

(** The rows of a file of messages and keywords. *)
Definition item_rows (items : list (jstring * jstring)) : list (list jstring) :=
  map (fun r => [fst r; snd r]) items.

(** X16. A well-formed file without header line, of rows with a trimmed
    non-empty message and a trimmed keyword, is read back as these items. *)
Theorem parseCsv_reads_back (t : jstring) (items : list (jstring * jstring)) :
  file_text t (item_rows items) ->
  (forall r, r ∈ items -> fst r ≠ [] ∧ trim (fst r) = fst r ∧ trim (snd r) = snd r) ->
  (forall r, head items = Some r ->
     names_message toLowerCase (fst r) = false ∧ names_message toLowerCase (snd r) = false) ->
  parseCsv toLowerCase t = items.
Proof.
  intros Hfile Hitems Hhead. unfold parseCsv.
  assert (Hrows : csv_rows t = item_rows items) by exact (csv_rows_file t [] _ Hfile).
  rewrite Hrows.
  assert (Hno : existsb (names_message toLowerCase)
                  match item_rows items with r :: _ => r | [] => [] end = false).
  { destruct items as [|r items]; [done|]. cbn [item_rows map existsb].
    destruct (Hhead r eq_refl) as [-> ->]. done. }
  rewrite Hno. rewrite drop_0. clear Hfile Hhead Hno Hrows.
  induction items as [|r items IH]; [done|].
  destruct (Hitems r ltac:(left)) as (Hne & Hm & Hk).
  specialize (IH ltac:(intros r' Hr'; apply Hitems; by right)).
  assert (Hrow : read_row 0 1 [fst r; snd r] = Some r).
  { unfold read_row. simpl lookup. cbn [default id]. unfold jstring in *. rewrite Hm, Hk.
    destruct r as [[|c m] k]; [done|]. reflexivity. }
  change (omap (read_row 0 1) (item_rows (r :: items)))
    with (match read_row 0 1 [fst r; snd r] with
          | Some y => y :: omap (read_row 0 1) (item_rows items)
          | None => omap (read_row 0 1) (item_rows items)
          end).
  by rewrite Hrow, IH.
Qed.

End CsvReader.

(** ** Runs of the normalizer and of the handlers *)

Section NormalizerAndTrafficRuns.

Import AlphaNormalizer Raster.

Lemma normalizer_idempotent_witness :
  decodable ring3 ∧
  exists out, makeInteriorOpaque ring3 = Some out ∧ makeInteriorOpaque out = Some out.
Proof.
  split; [exact ring3_decodable|].
  apply (normalizer_idempotent ring3). exact ring3_decodable.
Defined.

Lemma normalizer_leaves_no_hole_witness :
  decodable ring3 ∧
  exists out,
    makeInteriorOpaque ring3 = Some out ∧
    forall x y,
      in_bounds (width ring3) (height ring3) x y ->
      alpha (width ring3) (data out) x y = Some 0 ->
      alpha (width ring3) (data ring3) x y = Some 0 ∧
      exists path, transparent_path (width ring3) (height ring3) (data out) x y path.
Proof.
  split; [exact ring3_decodable|].
  apply (normalizer_leaves_no_hole ring3). exact ring3_decodable.
Defined.

(** A 2x1 raster: a transparent pixel next to an opaque one. *)
Definition pair2 : PNG :=
  {| width := 2; height := 1; data := [7; 8; 9; 0;  1; 2; 3; 255] |}.

Lemma normalized_image_unchanged_witness :
  decodable pair2 ∧ makeInteriorOpaque pair2 = Some pair2.
Proof.
  assert (Hdec : decodable pair2).
  { unfold decodable, pair2; simpl.
    split; [lia|]. split; [lia|]. split; [lia|]. split; [lia|].
    repeat (constructor; [lia|]). constructor. }
  assert (Hxy : forall x y, in_bounds (width pair2) (height pair2) x y ->
            (x = 0 ∧ y = 0) ∨ (x = 1 ∧ y = 0)).
  { unfold in_bounds. simpl. lia. }
  split; [exact Hdec|].
  apply (normalized_image_unchanged pair2 Hdec).
  - intros x y Hb. destruct (Hxy x y Hb) as [[-> ->]|[-> ->]]; [by left|by right].
  - intros x y Hb [Ha Hn]. destruct (Hxy x y Hb) as [[-> ->]|[-> ->]]; [|done].
    apply Hn. exists []. simpl. unfold in_bounds, on_border. simpl.
    split; [lia|]. split; [done|]. lia.
Defined.

Lemma canvas_border_band_kept_witness :
  decodable ring3 ∧
  exists out,
    makeInteriorOpaque ring3 = Some out ∧
    forall x y,
      in_bounds (width ring3) (height ring3) x y ->
      x <= 2 ∨ y <= 2 ∨ width ring3 - 3 <= x ∨ height ring3 - 3 <= y ->
      ¬ enclosed_hole (width ring3) (height ring3) (data ring3) x y ->
      forall c, 0 <= c < 4 ->
        channel (width ring3) (data out) x y c = channel (width ring3) (data ring3) x y c.
Proof.
  split; [exact ring3_decodable|].
  apply (canvas_border_band_kept ring3). exact ring3_decodable.
Defined.

Lemma jsonl_round_trip_witness :
  Forall record_line [Handlers.lit "{a}"; Handlers.lit "{b}"] ∧
  Handlers.output_lines (Handlers.join_lines [Handlers.lit "{a}"; Handlers.lit "{b}"] ++ [10])
    = [Handlers.lit "{a}"; Handlers.lit "{b}"].
Proof.
  assert (H : Forall record_line [Handlers.lit "{a}"; Handlers.lit "{b}"]).
  { repeat constructor; try done; vm_compute; intros Hin;
      repeat (apply elem_of_cons in Hin as [Hin|Hin]; [done|]); by apply elem_of_nil in Hin. }
  split; [exact H|].
  exact (proj1 (jsonl_round_trip [Handlers.lit "{a}"; Handlers.lit "{b}"] H)).
Defined.

Lemma GET_generate_direct_replies_witness :
  Handlers.no_api_key Demo.direct_cfg = false ∧ Handlers.USE_BATCH Demo.direct_cfg = false ∧
  exists r w',
    Handlers.GET_generate (Demo.env_with Demo.outage) Demo.direct_cfg 0
      (Some (Handlers.lit "hello")) None Demo.start = (Handlers.Returned r, w') ∧
    Handlers.code r = 500 ∧
    Handlers.sent w' =
      [Handlers.GenerateImage
         (generate_body (Demo.env_with Demo.outage) Demo.direct_cfg (Some (Handlers.lit "hello")) None)].
Proof.
  split; [reflexivity|]. split; [reflexivity|].
  destruct (GET_generate_direct_replies (Demo.env_with Demo.outage) Demo.direct_cfg 0
              (Some (Handlers.lit "hello")) None Demo.start eq_refl eq_refl)
    as (r & w' & Hrun & Hsent & _ & _ & Hfail & _).
  exists r, w'. split; [exact Hrun|]. split; [|exact Hsent].
  rewrite (Hfail _ eq_refl eq_refl). reflexivity.
Defined.

Lemma GET_generate_batch_traffic_witness :
  Handlers.no_api_key Demo.cfg = false ∧ Handlers.USE_BATCH Demo.cfg = true ∧
  0 < Handlers.BATCH_POLL_INTERVAL_MS Demo.cfg ∧ 0 <= Handlers.BATCH_POLL_TIMEOUT_MS Demo.cfg ∧
  exists r l w',
    Handlers.GET_generate (Demo.env_with (Demo.service 2 Demo.output_single)) Demo.cfg 13
      (Some (Handlers.lit "hello")) None Demo.start = (Handlers.Returned r, w') ∧
    Handlers.sent w' = Handlers.sent Demo.start ++ l ∧
    (Handlers.code r = 200 ∨ Handlers.code r = 202 ∨ Handlers.code r = 500).
Proof.
  split; [reflexivity|]. split; [reflexivity|]. split; [reflexivity|]. split; [discriminate|].
  destruct (GET_generate_batch_traffic (Demo.env_with (Demo.service 2 Demo.output_single))
              Demo.cfg 13 (Some (Handlers.lit "hello")) None Demo.start)
    as (r & l & w' & Hrun & Hsent & Hcode & _);
    [reflexivity|reflexivity|reflexivity|discriminate|vm_compute; lia|].
  exists r, l, w'. done.
Defined.

End NormalizerAndTrafficRuns.

(** ** Runs of the resizer, the prompt builder and the CSV reader *)

Section ResizerAndReaderRuns.

Import ContainResizer Raster.

(** An opaque white image of the requested size. *)
Definition white_sticker : PNG :=
  {| width := REQUEST_SIZE; height := REQUEST_SIZE;
     data := ta_new (REQUEST_SIZE * REQUEST_SIZE * 4) 255 |}.

Lemma sticker_resize_letterbox_witness :
  width white_sticker = REQUEST_SIZE ∧ height white_sticker = REQUEST_SIZE ∧
  forall y c, 0 <= y < 320 -> 0 <= c < 4 ->
    channel 370 (data (resizeContainBilinear white_sticker 370 320)) 24 y c = Some 0.
Proof.
  split; [reflexivity|]. split; [reflexivity|].
  intros y c Hy Hc.
  destruct (sticker_resize_letterbox white_sticker eq_refl eq_refl) as [_ Hpix].
  destruct (Hpix 24 y) as [_ Hbar]; [unfold in_bounds; lia|].
  apply Hbar; [lia|done].
Defined.

Lemma sticker_resize_keeps_flat_colour_witness :
  width white_sticker = REQUEST_SIZE ∧ height white_sticker = REQUEST_SIZE ∧
  channel 370 (data (resizeContainBilinear white_sticker 370 320)) 100 200 3 = Some 255.
Proof.
  split; [reflexivity|]. split; [reflexivity|].
  apply (sticker_resize_keeps_flat_colour white_sticker 100 200 3 255);
    [reflexivity|reflexivity|lia|lia|lia|lia|].
  intros X Y HX HY.
  destruct (near_far_range 100 25 ltac:(lia)), (near_far_range 200 0 ltac:(lia)).
  unfold channel, white_sticker, data. apply ta_get_new.
  unfold REQUEST_SIZE. destruct HX as [-> | ->], HY as [-> | ->]; lia.
Defined.

Import Handlers.

(** The environment whose prompt builder is the one of the repository. *)
Definition page_env : env :=
  {| server := Demo.service 0 Demo.output_single;
     JSON_parse := Demo.parse;
     parse_payload := Demo.payload_of_text;
     stringify_line := fun l => bl_custom_id l ++ lit "|" ++ ib_prompt (bl_body l);
     null_access := lit "Cannot read properties of null";
     random_suffix := lit "8f3a";
     compose_prompt := fun m k => m ++ lit "/" ++ k;
     buildPrompt := BatchPrompt.buildPrompt;
     b64decode := fun s => s;
     Buffer_from_object := Demo.bytes_of;
     invalid_arg := lit "The first argument must be of type string";
     b64encode := fun b => b;
     png_read := fun _ => None;
     png_write := fun _ => None |}.

Lemma uploaded_prompt_quotes_message_witness :
  buildPrompt page_env = BatchPrompt.buildPrompt ∧
  valid_items [ {| message := Some (lit " hello "); keyword := None |} ] !! 0%nat
    = Some (lit "hello", []) ∧
  exists prompt head,
    csv_line page_env Demo.cfg 1700000000000 0 (lit "hello", []) =
      stringify_line page_env
        {| bl_custom_id := csv_custom_id 1700000000000 0;
           bl_body := {| ib_model := IMAGE_MODEL Demo.cfg; ib_prompt := prompt;
                         ib_quality := IMAGE_QUALITY Demo.cfg |} |} ∧
    prompt =
      join_lines BatchPrompt.style_lines ++
      10 :: BatchPrompt.theme_line BatchPrompt.DEFAULT_THEME ++
      head ++
      10 :: BatchPrompt.message_line (lit "hello") ++
      10 :: lit "Do not add any other text." ∧
    (head = [] ∨ head = 10 :: join_lines BatchPrompt.mochi_lines).
Proof.
  split; [reflexivity|]. split; [vm_compute; reflexivity|].
  apply (uploaded_prompt_quotes_message page_env Demo.cfg 1700000000000
           [ {| message := Some (lit " hello "); keyword := None |} ] 0 (lit "hello", [])).
  - reflexivity.
  - vm_compute. reflexivity.
Defined.

Import Client.

(** Two lines: a quoted field with a comma and a doubled quote, then plain
    fields; CR LF after the first line, nothing after the last. *)
Lemma csv_rows_reads_back_witness :
  csv_rows ((quote_field (lit "a,b") ++ 44 :: lit "c") ++ [13; 10] ++ (lit "d" ++ 44 :: lit "e"))
    = [[lit "a,b"; lit "c"]; [lit "d"; lit "e"]].
Proof.
  apply csv_rows_reads_back.
  assert (Hp : forall s, Forall (fun c => c ≠ 34 ∧ c ≠ 44 ∧ c ≠ 10 ∧ c ≠ 13) (lit s) ->
                         field_text (lit s) (lit s)) by (intros s Hs; by apply ft_plain).
  apply file_row; [| reflexivity | by right |].
  - apply rt_cons; [apply ft_quoted|]. apply rt_last, Hp. vm_compute. repeat constructor; lia.
  - apply file_last; [|reflexivity].
    apply rt_cons; [apply Hp; vm_compute; repeat constructor; lia|].
    apply rt_last, Hp. vm_compute. repeat constructor; lia.
Defined.

(** The case mapping on ASCII letters. *)
Definition ascii_lower (s : jstring) : jstring :=
  map (fun c => if (65 <=? c) && (c <=? 90) then c + 32 else c) s.

Lemma parseCsv_blank_witness :
  blank [32; 13; 10; 9; 10] = true ∧
  csv_rows [32; 13; 10; 9; 10] = [] ∧ parseCsv ascii_lower [32; 13; 10; 9; 10] = [].
Proof.
  split; [reflexivity|]. apply (parseCsv_blank ascii_lower). reflexivity.
Defined.

Lemma parseCsv_reads_back_witness :
  parseCsv ascii_lower
    ((quote_field (lit "a,b") ++ 44 :: lit "cat") ++ [10] ++ (lit "d" ++ 44 :: quote_field []))
    = [(lit "a,b", lit "cat"); (lit "d", [])].
Proof.
  apply (parseCsv_reads_back ascii_lower).
  - assert (Hp : forall s, Forall (fun c => c ≠ 34 ∧ c ≠ 44 ∧ c ≠ 10 ∧ c ≠ 13) (lit s) ->
                           field_text (lit s) (lit s)) by (intros s Hs; by apply ft_plain).
    apply file_row; [| reflexivity | by left |].
    + apply rt_cons; [apply ft_quoted|]. apply rt_last, Hp. vm_compute. repeat constructor; lia.
    + apply file_last; [|reflexivity].
      apply rt_cons; [apply Hp; vm_compute; repeat constructor; lia|].
      apply rt_last, ft_quoted.
  - intros r Hr. apply elem_of_cons in Hr as [->|Hr]; [by vm_compute|].
    apply elem_of_cons in Hr as [->|Hr]; [by vm_compute|]. by apply elem_of_nil in Hr.
  - intros r [= <-]. by vm_compute.
Defined.

End ResizerAndReaderRuns.
